(** * Asian option pricing by Monte-Carlo with a geometric control variate

    A shallow embedding of the class [AsianOptionMC] of
    [MC_Control_Varaite.ipynb] and the properties of its constructor and of
    its five read-only properties.

    Numbers.  A Python [float] and a numpy [float64] are modelled as a real
    number or one of the three IEEE special values ([inf], [-inf], [nan]).
    Python's own float division raises [ZeroDivisionError] on a zero
    divisor, numpy's does not: both are modelled.  The rounding of the last
    bit is not modelled, and the two zeros of float64 are one.

    Two embeddings.  The first computes over the reals: the special values
    are produced where the source's operations produce them on real
    arguments (a numpy division by zero, the logarithm of zero, ...), and
    no result is too large or too small.  It carries the properties of the
    program that are algebraic: which attributes and draws a result depends
    on, and the identities between results.  The second, [Float64], follows
    the same source lines with the range of float64: a result beyond the
    range is an infinity or raises [OverflowError] as the operation of the
    source does, a result below it is zero, and [np.random.randn] can
    refuse a shape.  It carries the properties on what a call returns or
    raises.

    Externals.  The numpy generator behind [np.random.seed] and
    [np.random.randn] and Python's grammar of numeric literals (used by
    [float(str)] and [int(str)]) are not code of this repository; they are
    parameters of the development. *)

From Stdlib Require Import Reals Lra Lia ZArith Ascii String Bool List.
Import ListNotations.

Set Implicit Arguments.

Local Open Scope R_scope.

(** ** Floating-point values *)

Inductive float64 : Type :=
| Fin (x : R)
| PInf
| NInf
| NaN.

Definition is_finite (a : float64) : Prop :=
  match a with Fin _ => True | _ => False end.

Definition Req_b (x y : R) : bool := if Req_dec_T x y then true else false.
Definition Rlt_b (x y : R) : bool := if Rlt_dec x y then true else false.
Definition Rle_b (x y : R) : bool := if Rle_dec x y then true else false.

Module F.

Definition neg (a : float64) : float64 :=
  match a with
  | Fin x => Fin (- x)
  | PInf => NInf
  | NInf => PInf
  | NaN => NaN
  end.

Definition add (a b : float64) : float64 :=
  match a, b with
  | NaN, _ | _, NaN => NaN
  | Fin x, Fin y => Fin (x + y)
  | PInf, NInf | NInf, PInf => NaN
  | PInf, _ | _, PInf => PInf
  | NInf, _ | _, NInf => NInf
  end.

Definition sub (a b : float64) : float64 := add a (neg b).

(** The infinity of the sign of [x], [nan] for [x = 0]. *)
Definition inf_of_sign (x : R) : float64 :=
  if Rlt_b 0 x then PInf else if Rlt_b x 0 then NInf else NaN.

Definition mul (a b : float64) : float64 :=
  match a, b with
  | NaN, _ | _, NaN => NaN
  | Fin x, Fin y => Fin (x * y)
  | Fin x, PInf | PInf, Fin x => inf_of_sign x
  | Fin x, NInf | NInf, Fin x => inf_of_sign (- x)
  | PInf, PInf | NInf, NInf => PInf
  | PInf, NInf | NInf, PInf => NaN
  end.

(** [a ** 2]. *)
Definition pow2 (a : float64) : float64 := mul a a.

(** The IEEE quotient, as numpy computes it: a zero divisor gives an
    infinity or [nan] (the zeros met in this program are positive). *)
Definition div (a b : float64) : float64 :=
  match a, b with
  | NaN, _ | _, NaN => NaN
  | Fin x, Fin y => if Req_b y 0 then inf_of_sign x else Fin (x / y)
  | Fin _, _ => Fin 0
  | PInf, Fin y => if Rlt_b y 0 then NInf else PInf
  | NInf, Fin y => if Rlt_b y 0 then PInf else NInf
  | _, _ => NaN
  end.

Definition exp (a : float64) : float64 :=
  match a with
  | Fin x => Fin (Rtrigo_def.exp x)
  | PInf => PInf
  | NInf => Fin 0
  | NaN => NaN
  end.

Definition log (a : float64) : float64 :=
  match a with
  | Fin x => if Rlt_b 0 x then Fin (ln x)
             else if Req_b x 0 then NInf else NaN
  | PInf => PInf
  | _ => NaN
  end.

Definition sqrt (a : float64) : float64 :=
  match a with
  | Fin x => if Rle_b 0 x then Fin (R_sqrt.sqrt x) else NaN
  | PInf => PInf
  | _ => NaN
  end.

(** [np.maximum]: the larger operand, [nan] if either is. *)
Definition maximum (a b : float64) : float64 :=
  match a, b with
  | NaN, _ | _, NaN => NaN
  | Fin x, Fin y => Fin (Rmax x y)
  | PInf, _ | _, PInf => PInf
  | NInf, c | c, NInf => c
  end.

(** Comparisons: every comparison with [nan] is false. *)
Definition ltb (a b : float64) : bool :=
  match a, b with
  | NaN, _ | _, NaN => false
  | Fin x, Fin y => Rlt_b x y
  | NInf, NInf => false
  | NInf, _ => true
  | _, PInf => match a with PInf => false | _ => true end
  | _, _ => false
  end.

Definition leb (a b : float64) : bool :=
  match a, b with
  | NaN, _ | _, NaN => false
  | Fin x, Fin y => Rle_b x y
  | NInf, _ => true
  | _, PInf => true
  | _, _ => false
  end.

End F.

(** ** The error function

    [scipy.special.erf], as the function it approximates:
    [erf x = 2/sqrt(pi) * integral of exp(-t^2) for t from 0 to x]. *)

Definition erf_integrand (t : R) : R := exp (- (t * t)).

Lemma erf_integrand_continuity : continuity erf_integrand.
Proof.
  unfold erf_integrand.
  apply (continuity_comp (fun t => - (t * t)) exp).
  - apply continuity_opp. apply continuity_mult; apply derivable_continuous, derivable_id.
  - apply derivable_continuous, derivable_exp.
Qed.

Lemma erf_integrable (a b : R) : Riemann_integrable erf_integrand a b.
Proof.
  destruct (Rle_dec a b) as [Hab | Hab].
  - apply continuity_implies_RiemannInt; [exact Hab |].
    intros x _. apply erf_integrand_continuity.
  - apply RiemannInt_P1. apply continuity_implies_RiemannInt; [lra |].
    intros x _. apply erf_integrand_continuity.
Defined.

Definition erf (x : R) : R := 2 / sqrt PI * RiemannInt (erf_integrable 0 x).

Definition F_erf (a : float64) : float64 :=
  match a with
  | Fin x => Fin (erf x)
  | PInf => Fin 1
  | NInf => Fin (-1)
  | NaN => NaN
  end.

(** ** Python values, exceptions and the monad of the embedding *)

(** The values a caller passes to the constructor. *)
Inductive pyval : Type :=
| PyStr (s : string)
| PyInt (n : Z)
| PyFloat (x : float64)
| PyNone.

Inductive exn : Type :=
| ValueError (msg : string)
| TypeError
| AttributeError
| ZeroDivisionError
| AssertionError
| OverflowError
| MemoryError.

Inductive result (A : Type) : Type :=
| Ok (a : A)
| Raise (e : exn).

Arguments Ok {A} a.
Arguments Raise {A} e.

(** Computations over a state [S] that may raise; the state reached when
    the exception is raised is kept (mutations are not rolled back). *)
Definition py (S A : Type) : Type := S -> result A * S.

Definition ret {S A} (a : A) : py S A := fun s => (Ok a, s).

Definition bind {S A B} (c : py S A) (k : A -> py S B) : py S B :=
  fun s => match c s with
           | (Ok a, s') => k a s'
           | (Raise e, s') => (Raise e, s')
           end.

Definition raise {S A} (e : exn) : py S A := fun s => (Raise e, s).

Definition lift {S A} (r : result A) : py S A := fun s => (r, s).

Definition gets {S A} (f : S -> A) : py S A := fun s => (Ok (f s), s).

Definition modify {S} (f : S -> S) : py S unit := fun s => (Ok tt, f s).

Declare Scope py_scope.
Delimit Scope py_scope with py.
Notation "x <- c ;; k" := (bind c (fun x => k))
  (at level 61, c at next level, right associativity) : py_scope.
Notation "c ;;; k" := (bind c (fun _ => k))
  (at level 61, right associativity) : py_scope.

(** The same for computations with no state. *)
Definition rbind {A B} (r : result A) (k : A -> result B) : result B :=
  match r with Ok a => k a | Raise e => Raise e end.

Notation "x <-- c ;; k" := (rbind c (fun x => k))
  (at level 61, c at next level, right associativity) : py_scope.

Local Open Scope py_scope.

Definition of_int (n : Z) : float64 := Fin (IZR n).

(** Python's [/] on floats. *)
Definition py_div (a b : float64) : result float64 :=
  match b with
  | Fin y => if Req_b y 0 then Raise ZeroDivisionError else Ok (F.div a b)
  | _ => Ok (F.div a b)
  end.

(** [int(x)] on a finite float truncates toward zero. *)
Definition trunc (x : R) : Z :=
  if Rle_b 0 x then Int_part x else (- Int_part (- x))%Z.

Definition could_not_convert : string := "could not convert string".
Definition nan_to_integer : string := "cannot convert float NaN to integer".
Definition negative_dimensions : string := "negative dimensions are not allowed".
Definition not_broadcastable : string := "operands could not be broadcast together".

Section Builtins.

(** Python's grammar of float and integer literals. *)
Variable float_of_str : string -> option float64.
Variable int_of_str : string -> option Z.

Definition py_float (v : pyval) : result float64 :=
  match v with
  | PyFloat x => Ok x
  | PyInt n => Ok (of_int n)
  | PyStr s => match float_of_str s with
               | Some x => Ok x
               | None => Raise (ValueError could_not_convert)
               end
  | PyNone => Raise TypeError
  end.

Definition py_int (v : pyval) : result Z :=
  match v with
  | PyInt n => Ok n
  | PyFloat (Fin x) => Ok (trunc x)
  | PyFloat NaN => Raise (ValueError nan_to_integer)
  | PyFloat _ => Raise OverflowError
  | PyStr s => match int_of_str s with
               | Some n => Ok n
               | None => Raise (ValueError could_not_convert)
               end
  | PyNone => Raise TypeError
  end.

End Builtins.

Definition isinstance_str (v : pyval) : bool :=
  match v with PyStr _ => true | _ => false end.

(** [v != s] for a string literal [s]. *)
Definition py_ne_str (v : pyval) (s : string) : bool :=
  match v with PyStr s' => negb (String.eqb s' s) | _ => true end.

Definition py_eq_str (v : pyval) (s : string) : bool := negb (py_ne_str v s).

(** [v < 0] and [v <= 0]: a string or [None] does not compare with an
    integer. *)
Definition py_lt0 (v : pyval) : result bool :=
  match v with
  | PyInt n => Ok (n <? 0)%Z
  | PyFloat x => Ok (F.ltb x (Fin 0))
  | _ => Raise TypeError
  end.

Definition py_le0 (v : pyval) : result bool :=
  match v with
  | PyInt n => Ok (n <=? 0)%Z
  | PyFloat x => Ok (F.leb x (Fin 0))
  | _ => Raise TypeError
  end.

(** [a or b], [b] evaluated only when [a] is false. *)
Definition py_or (a : result bool) (b : result bool) : result bool :=
  x <-- a ;; if x then Ok true else b.

(** ** The object

    An instance of [AsianOptionMC]: each attribute is unset ([None]) until
    the constructor assigns it. *)

Record AsianOptionMC : Type := mkAsianOptionMC {
  option_type : option pyval;
  S0 : option float64;
  strike : option float64;
  T : option float64;
  M : option Z;
  r : option float64;
  div : option float64;
  sigma : option float64;
  simulations : option Z;
  time_unit : option float64;
  discount : option float64
}.

Definition blank : AsianOptionMC :=
  mkAsianOptionMC None None None None None None None None None None None.

Definition set_option_type v o :=
  mkAsianOptionMC (Some v) (S0 o) (strike o) (T o) (M o) (r o) (div o)
    (sigma o) (simulations o) (time_unit o) (discount o).
Definition set_S0 v o :=
  mkAsianOptionMC (option_type o) (Some v) (strike o) (T o) (M o) (r o) (div o)
    (sigma o) (simulations o) (time_unit o) (discount o).
Definition set_strike v o :=
  mkAsianOptionMC (option_type o) (S0 o) (Some v) (T o) (M o) (r o) (div o)
    (sigma o) (simulations o) (time_unit o) (discount o).
Definition set_T v o :=
  mkAsianOptionMC (option_type o) (S0 o) (strike o) (Some v) (M o) (r o) (div o)
    (sigma o) (simulations o) (time_unit o) (discount o).
Definition set_M v o :=
  mkAsianOptionMC (option_type o) (S0 o) (strike o) (T o) (Some v) (r o) (div o)
    (sigma o) (simulations o) (time_unit o) (discount o).
Definition set_r v o :=
  mkAsianOptionMC (option_type o) (S0 o) (strike o) (T o) (M o) (Some v) (div o)
    (sigma o) (simulations o) (time_unit o) (discount o).
Definition set_div v o :=
  mkAsianOptionMC (option_type o) (S0 o) (strike o) (T o) (M o) (r o) (Some v)
    (sigma o) (simulations o) (time_unit o) (discount o).
Definition set_sigma v o :=
  mkAsianOptionMC (option_type o) (S0 o) (strike o) (T o) (M o) (r o) (div o)
    (Some v) (simulations o) (time_unit o) (discount o).
Definition set_simulations v o :=
  mkAsianOptionMC (option_type o) (S0 o) (strike o) (T o) (M o) (r o) (div o)
    (sigma o) (Some v) (time_unit o) (discount o).
Definition set_time_unit v o :=
  mkAsianOptionMC (option_type o) (S0 o) (strike o) (T o) (M o) (r o) (div o)
    (sigma o) (simulations o) (Some v) (discount o).
Definition set_discount v o :=
  mkAsianOptionMC (option_type o) (S0 o) (strike o) (T o) (M o) (r o) (div o)
    (sigma o) (simulations o) (time_unit o) (Some v).

(** Reading an attribute that was never assigned raises [AttributeError]. *)
Definition getattr {A} (f : AsianOptionMC -> option A) (self : AsianOptionMC)
  : result A :=
  match f self with Some v => Ok v | None => Raise AttributeError end.

(** ** The constructor *)

(** While the constructor runs, the state is the object under construction
    and what has been printed. *)
Definition ctor_state : Type := AsianOptionMC * list string.

Definition setattr (f : AsianOptionMC -> AsianOptionMC) : py ctor_state unit :=
  modify (fun s => (f (fst s), snd s)).

Definition self_attr {A} (f : AsianOptionMC -> option A) : py ctor_state A :=
  fun s => (getattr f (fst s), s).

Definition print (line : string) : py ctor_state unit :=
  modify (fun s => (fst s, snd s ++ [line])).

Definition py_assert {S} (b : bool) : py S unit :=
  if b then ret tt else raise AssertionError.

(** [try: body except ValueError: handler]. *)
Definition try_except_ValueError {S A} (body handler : py S A) : py S A :=
  fun s => match body s with
           | (Raise (ValueError _), s') => handler s'
           | other => other
           end.

Definition option_type_not_valid : string :=
  "Error: option type not valid. Enter 'call' or 'put'".
Definition negative_inputs : string := "Error: Negative inputs not allowed".
Definition error_passing : string := "Error passing Options parameters".

Section Constructor.

Variable float_of_str : string -> option float64.
Variable int_of_str : string -> option Z.

Let float_ := py_float float_of_str.
Let int_ := py_int int_of_str.

(** The body of the [try] block: the assignments, in order. *)
Definition coerce (option_type S0 strike T M r div sigma simulations : pyval)
  : py ctor_state unit :=
  setattr (set_option_type option_type) ;;;
  py_assert (isinstance_str option_type) ;;;
  x <- lift (float_ S0) ;; setattr (set_S0 x) ;;;
  x <- lift (float_ strike) ;; setattr (set_strike x) ;;;
  x <- lift (float_ T) ;; setattr (set_T x) ;;;
  n <- lift (int_ M) ;; setattr (set_M n) ;;;
  x <- lift (float_ r) ;; setattr (set_r x) ;;;
  x <- lift (float_ div) ;; setattr (set_div x) ;;;
  x <- lift (float_ sigma) ;; setattr (set_sigma x) ;;;
  n <- lift (int_ simulations) ;; setattr (set_simulations n).

(** [S0 < 0 or strike < 0 or T <= 0 or r < 0 or div < 0 or sigma < 0], on
    the arguments as they were passed. *)
Definition out_of_bounds (S0 strike T r div sigma : pyval) : result bool :=
  py_or (py_lt0 S0) (py_or (py_lt0 strike) (py_or (py_le0 T)
    (py_or (py_lt0 r) (py_or (py_lt0 div) (py_lt0 sigma))))).

(** The two attributes computed after the checks:
    [self.time_unit = self.T / float(self.M)] and
    [self.discount = np.exp(- self.r * self.T)]. *)
Definition derived : py ctor_state unit :=
  t <- self_attr T ;;
  m <- self_attr M ;;
  u <- lift (py_div t (of_int m)) ;;
  setattr (set_time_unit u) ;;;
  rate <- self_attr r ;;
  t <- self_attr T ;;
  setattr (set_discount (F.exp (F.mul (F.neg rate) t))).

(** The two checks that follow the [try] statement. *)
Definition checks (option_type S0 strike T r div sigma : pyval)
  : py ctor_state unit :=
  (if py_ne_str option_type "call" && py_ne_str option_type "put"
   then raise (ValueError option_type_not_valid) else ret tt) ;;;
  bad <- lift (out_of_bounds S0 strike T r div sigma) ;;
  if bad : bool then raise (ValueError negative_inputs) else ret tt.

Definition init_body (option_type S0 strike T M r div sigma simulations : pyval)
  : py ctor_state unit :=
  try_except_ValueError
    (coerce option_type S0 strike T M r div sigma simulations)
    (print error_passing) ;;;
  checks option_type S0 strike T r div sigma ;;;
  derived.

(** What a call [AsianOptionMC(...)] prints and what it evaluates to: the
    new object, or the exception that escapes. *)
Definition __init__ (option_type S0 strike T M r div sigma simulations : pyval)
  : list string * result AsianOptionMC :=
  match init_body option_type S0 strike T M r div sigma simulations (blank, []) with
  | (Ok _, (self, out)) => (out, Ok self)
  | (Raise e, (_, out)) => (out, Raise e)
  end.

End Constructor.

(** ** numpy arrays

    A one-dimensional array is a list, a two-dimensional one the list of
    its rows. *)

Definition of_nat (n : nat) : float64 := Fin (INR n).

Definition np_sum (v : list float64) : float64 := fold_right F.add (Fin 0) v.

(** [np.mean]: the sum over the number of elements ([nan] when empty). *)
Definition np_mean (v : list float64) : float64 :=
  F.div (np_sum v) (of_nat (length v)).

(** [np.std]: the square root of the mean squared deviation from the mean
    (no degrees-of-freedom correction). *)
Definition np_std (v : list float64) : float64 :=
  let m := np_mean v in
  F.sqrt (np_mean (map (fun x => F.pow2 (F.sub x m)) v)).

Fixpoint scan_mul (acc : float64) (v : list float64) : list float64 :=
  match v with
  | [] => []
  | x :: t => F.mul acc x :: scan_mul (F.mul acc x) t
  end.

(** [np.cumprod] of a row: the running products. *)
Definition np_cumprod (v : list float64) : list float64 :=
  match v with
  | [] => []
  | x :: t => x :: scan_mul x t
  end.

Fixpoint map2 {A B C} (f : A -> B -> C) (a : list A) (b : list B) : list C :=
  match a, b with
  | x :: a', y :: b' => f x y :: map2 f a' b'
  | _, _ => []
  end.

(** [a - b] on one-dimensional arrays: elementwise on equal shapes, an
    array of one element is stretched, any other pair of shapes raises. *)
Definition np_sub (a b : list float64) : result (list float64) :=
  if Nat.eqb (length a) (length b) then Ok (map2 F.sub a b)
  else match a, b with
       | [x], _ => Ok (map (F.sub x) b)
       | _, [y] => Ok (map (fun x => F.sub x y) a)
       | _, _ => Raise (ValueError not_broadcastable)
       end.

(** ** The analytic value of the geometric option *)

Definition GeometricAsianOption (self : AsianOptionMC) : result float64 :=
  sig <-- getattr sigma self ;;
  t <-- getattr T self ;;
  m <-- getattr M self ;;
  sigsqT <-- py_div
    (F.mul (F.mul (F.mul (F.pow2 sig) t) (of_int (m + 1))) (of_int (2 * m + 1)))
    (of_int (6 * m * m)) ;;
  rate <-- getattr r self ;;
  muT_drift <-- py_div
    (F.mul (F.mul (F.sub rate (F.mul (Fin 0.5) (F.pow2 sig))) t) (of_int (m + 1)))
    (of_int (2 * m)) ;;
  let muT := F.add (F.mul (Fin 0.5) sigsqT) muT_drift in
  s0 <-- getattr S0 self ;;
  k <-- getattr strike self ;;
  ratio <-- py_div s0 k ;;
  let d1 := F.div (F.add (F.log ratio) (F.add muT (F.mul (Fin 0.5) sigsqT)))
                  (F.sqrt sigsqT) in
  let d2 := F.sub d1 (F.sqrt sigsqT) in
  let N1 := F.mul (Fin 0.5) (F.add (Fin 1) (F_erf (F.div d1 (F.sqrt (Fin 2))))) in
  let N2 := F.mul (Fin 0.5) (F.add (Fin 1) (F_erf (F.div d2 (F.sqrt (Fin 2))))) in
  disc <-- getattr discount self ;;
  Ok (F.mul disc (F.sub (F.mul (F.mul s0 (F.exp muT)) N1) (F.mul k N2))).

(** ** The simulation *)

(** The seed of [price_path(self, seed = 100)]: a property is read without
    arguments, so the default is the seed of every access. *)
Definition seed : Z := 100.

(** numpy's global generator: its states, the state [np.random.seed] puts
    it in, and one standard normal draw. *)
Record Generator : Type := mkGenerator {
  rng : Type;
  np_random_seed : Z -> rng;
  next_gauss : rng -> R * rng
}.

Arguments next_gauss {_} _.

Section Simulation.

Variable G : Generator.

Local Abbreviation state := (rng G).

Fixpoint draws (k : nat) (s : state) : list float64 * state :=
  match k with
  | O => ([], s)
  | S k' => let (z, s1) := next_gauss s in
            let (zs, s2) := draws k' s1 in
            (Fin z :: zs, s2)
  end.

Fixpoint draw_rows (n m : nat) (s : state) : list (list float64) * state :=
  match n with
  | O => ([], s)
  | S n' => let (row, s1) := draws m s in
            let (rows, s2) := draw_rows n' m s1 in
            (row :: rows, s2)
  end.

(** [np.random.randn(n, m)]: the array is filled row by row from
    successive draws. *)
Definition np_random_randn (n m : Z) : py state (list (list float64)) :=
  fun s => if ((n <? 0) || (m <? 0))%Z
           then (Raise (ValueError negative_dimensions), s)
           else let (a, s') := draw_rows (Z.to_nat n) (Z.to_nat m) s in (Ok a, s').

Definition attr {A} (f : AsianOptionMC -> option A) (self : AsianOptionMC)
  : py state A := lift (getattr f self).

Definition price_path (self : AsianOptionMC) : py state (list (list float64)) :=
  modify (fun _ => np_random_seed G seed) ;;;
  s0 <- attr S0 self ;;
  rate <- attr r self ;;
  sig <- attr sigma self ;;
  dt <- attr time_unit self ;;
  let drift := F.mul (F.sub rate (F.mul (Fin 0.5) (F.pow2 sig))) dt in
  let vol := F.mul sig (F.sqrt dt) in
  n <- attr simulations self ;;
  m <- attr M self ;;
  z <- np_random_randn n m ;;
  ret (map (map (F.mul s0))
         (map np_cumprod
            (map (map (fun x => F.exp (F.add drift (F.mul vol x)))) z))).

(** [disc * np.maximum(x - k, 0)] for a call and
    [disc * np.maximum(k - x, 0)] for a put, over an array of averages. *)
Definition call_payoffs (disc k : float64) (avg : list float64) : list float64 :=
  map (F.mul disc) (map (fun a => F.maximum (F.sub a k) (Fin 0)) avg).

Definition put_payoffs (disc k : float64) (avg : list float64) : list float64 :=
  map (F.mul disc) (map (fun a => F.maximum (F.sub k a) (Fin 0)) avg).

Definition MCPayoff (self : AsianOptionMC) : py state (list float64) :=
  ot <- attr option_type self ;;
  if py_eq_str ot "call" then
    disc <- attr discount self ;;
    paths <- price_path self ;;
    k <- attr strike self ;;
    ret (call_payoffs disc k (map np_mean paths))
  else
    disc <- attr discount self ;;
    k <- attr strike self ;;
    paths <- price_path self ;;
    ret (put_payoffs disc k (map np_mean paths)).

(** [mean + 1.96 * std / np.sqrt(n)] and [mean - 1.96 * std / np.sqrt(n)]. *)
Definition upper_bound (mean std : float64) (n : Z) : float64 :=
  F.add mean (F.div (F.mul (Fin 1.96) std) (F.sqrt (of_int n))).

Definition lower_bound (mean std : float64) (n : Z) : float64 :=
  F.sub mean (F.div (F.mul (Fin 1.96) std) (F.sqrt (of_int n))).

Definition value (self : AsianOptionMC) : py state (float64 * float64 * float64) :=
  pay <- MCPayoff self ;;
  let MCvalue := np_mean pay in
  pay' <- MCPayoff self ;;
  let MCValue_std := np_std pay' in
  n <- attr simulations self ;;
  let upper := upper_bound MCvalue MCValue_std n in
  n' <- attr simulations self ;;
  let lower := lower_bound MCvalue MCValue_std n' in
  ret (MCvalue, lower, upper).

Definition value_with_control_variate (self : AsianOptionMC)
  : py state (float64 * float64 * float64) :=
  m <- attr M self ;;
  w <- lift (py_div (Fin 1) (of_int m)) ;;
  paths <- price_path self ;;
  let geometric_average :=
    map F.exp (map (F.mul w) (map np_sum (map (map F.log) paths))) in
  ot <- attr option_type self ;;
  MCpayoff_geometric <-
    (if py_eq_str ot "call" then
       disc <- attr discount self ;;
       k <- attr strike self ;;
       ret (call_payoffs disc k geometric_average)
     else
       disc <- attr discount self ;;
       k <- attr strike self ;;
       ret (put_payoffs disc k geometric_average)) ;;
  pay <- MCPayoff self ;;
  g <- lift (GeometricAsianOption self) ;;
  value_with_CV <- lift (np_sub (map (fun x => F.add x g) pay) MCpayoff_geometric) ;;
  let mean := np_mean value_with_CV in
  let std := np_std value_with_CV in
  n <- attr simulations self ;;
  let upper := upper_bound mean std n in
  n' <- attr simulations self ;;
  let lower := lower_bound mean std n' in
  ret (mean, lower, upper).

End Simulation.

(** ** Contracts

    The parameters of a contract as §3 of the specification has them, the
    bounds that make a contract valid, and the object the constructor
    builds for it. *)

Inductive kind : Type := call | put.

Definition kind_name (k : kind) : string :=
  match k with call => "call" | put => "put" end.

Record Contract : Type := mkContract {
  c_kind : kind;
  c_S0 : R;
  c_strike : R;
  c_T : R;
  c_M : Z;
  c_r : R;
  c_div : R;
  c_sigma : R;
  c_simulations : Z
}.

Record valid (c : Contract) : Prop := mkValid {
  valid_S0 : 0 <= c_S0 c;
  valid_strike : 0 <= c_strike c;
  valid_T : 0 < c_T c;
  valid_M : (0 < c_M c)%Z;
  valid_r : 0 <= c_r c;
  valid_div : 0 <= c_div c;
  valid_sigma : 0 <= c_sigma c;
  valid_simulations : (0 < c_simulations c)%Z
}.

Definition instance_of (c : Contract) : AsianOptionMC :=
  mkAsianOptionMC
    (Some (PyStr (kind_name (c_kind c))))
    (Some (Fin (c_S0 c)))
    (Some (Fin (c_strike c)))
    (Some (Fin (c_T c)))
    (Some (c_M c))
    (Some (Fin (c_r c)))
    (Some (Fin (c_div c)))
    (Some (Fin (c_sigma c)))
    (Some (c_simulations c))
    (Some (Fin (c_T c / IZR (c_M c))))
    (Some (Fin (exp (- c_r c * c_T c)))).

Definition with_kind (k : kind) (c : Contract) : Contract :=
  mkContract k (c_S0 c) (c_strike c) (c_T c) (c_M c) (c_r c) (c_div c)
    (c_sigma c) (c_simulations c).

Definition with_div (d : R) (c : Contract) : Contract :=
  mkContract (c_kind c) (c_S0 c) (c_strike c) (c_T c) (c_M c) (c_r c) d
    (c_sigma c) (c_simulations c).

Definition with_simulations (n : Z) (c : Contract) : Contract :=
  mkContract (c_kind c) (c_S0 c) (c_strike c) (c_T c) (c_M c) (c_r c) (c_div c)
    (c_sigma c) n.

(** A constructor argument that denotes the real [x]: the float [x] or an
    integer equal to it. *)
Definition numeric (v : pyval) (x : R) : Prop :=
  v = PyFloat (Fin x) \/ exists n : Z, v = PyInt n /\ x = IZR n.

(** A constructor argument that [int] turns into [n]. *)
Definition integral (v : pyval) (n : Z) : Prop :=
  v = PyInt n \/ exists x : R, v = PyFloat (Fin x) /\ trunc x = n.

(** ** Statistics over the reals, as the specification words them *)

Definition Rsum (xs : list R) : R := fold_right Rplus 0 xs.

Definition mean (xs : list R) : R := Rsum xs / INR (length xs).

Definition variance (xs : list R) : R :=
  mean (map (fun x => (x - mean xs) ^ 2) xs).

Definition stddev (xs : list R) : R := sqrt (variance xs).

Definition covariance (xs ys : list R) : R :=
  mean (map2 (fun x y => (x - mean xs) * (y - mean ys)) xs ys).

(** [mean - 1.96 stddev / sqrt n] and [mean + 1.96 stddev / sqrt n]. *)
Definition lower95 (xs : list R) (n : Z) : R :=
  mean xs - 1.96 * stddev xs / sqrt (IZR n).

Definition upper95 (xs : list R) (n : Z) : R :=
  mean xs + 1.96 * stddev xs / sqrt (IZR n).

(** ** The payoff rules of the specification *)

Definition payoff (k : kind) (avg strike : R) : R :=
  match k with
  | call => Rmax (avg - strike) 0
  | put => Rmax (strike - avg) 0
  end.

(** The arithmetic time-average of a path and its discounted payoff. *)
Definition arithmetic_average (path : list R) : R := mean path.

Definition arithmetic_payoff (c : Contract) (path : list R) : R :=
  payoff (c_kind c) (arithmetic_average path) (c_strike c)
  * exp (- c_r c * c_T c).

(** The geometric average [exp((1/M) * sum of ln price)] of a path of
    positive prices and its discounted payoff. *)
Definition geometric_average (c : Contract) (path : list R) : R :=
  exp (1 / IZR (c_M c) * Rsum (map ln path)).

Definition geometric_payoff (c : Contract) (path : list R) : R :=
  payoff (c_kind c) (geometric_average c path) (c_strike c)
  * exp (- c_r c * c_T c).

(** The closed form of §4.3. *)
Definition sigsqT (c : Contract) : R :=
  (c_sigma c) ^ 2 * c_T c * (IZR (c_M c) + 1) * (2 * IZR (c_M c) + 1)
  / (6 * (IZR (c_M c)) ^ 2).

Definition muT (c : Contract) : R :=
  0.5 * sigsqT c
  + (c_r c - 0.5 * (c_sigma c) ^ 2) * c_T c * (IZR (c_M c) + 1)
    / (2 * IZR (c_M c)).

Definition d1 (c : Contract) : R :=
  (ln (c_S0 c / c_strike c) + muT c + 0.5 * sigsqT c) / sqrt (sigsqT c).

Definition d2 (c : Contract) : R := d1 c - sqrt (sigsqT c).

Definition N (x : R) : R := 0.5 * (1 + erf (x / sqrt 2)).

Definition closed_form (c : Contract) : R :=
  exp (- c_r c * c_T c)
  * (c_S0 c * exp (muT c) * N (d1 c) - c_strike c * N (d2 c)).

(** The closed form once more, each line of §4.3 evaluated with the
    operations of the language ([S0/strike] is Python's division, the
    quotient by [sqrt sigsqT] is numpy's). *)
Definition sigsqT_py (c : Contract) : result float64 :=
  py_div
    (F.mul (F.mul (F.mul (F.pow2 (Fin (c_sigma c))) (Fin (c_T c)))
                  (F.add (of_int (c_M c)) (Fin 1)))
           (F.add (F.mul (Fin 2) (of_int (c_M c))) (Fin 1)))
    (F.mul (Fin 6) (F.pow2 (of_int (c_M c)))).

Definition muT_py (c : Contract) (sigsqT : float64) : result float64 :=
  drift <-- py_div
    (F.mul (F.mul (F.sub (Fin (c_r c)) (F.mul (Fin 0.5) (F.pow2 (Fin (c_sigma c)))))
                  (Fin (c_T c)))
           (F.add (of_int (c_M c)) (Fin 1)))
    (F.mul (Fin 2) (of_int (c_M c))) ;;
  Ok (F.add (F.mul (Fin 0.5) sigsqT) drift).

Definition N_py (x : float64) : float64 :=
  F.mul (Fin 0.5) (F.add (Fin 1) (F_erf (F.div x (F.sqrt (Fin 2))))).

Definition closed_form_py (c : Contract) : result float64 :=
  sigsqT <-- sigsqT_py c ;;
  muT <-- muT_py c sigsqT ;;
  ratio <-- py_div (Fin (c_S0 c)) (Fin (c_strike c)) ;;
  let d1 := F.div (F.add (F.add (F.log ratio) muT) (F.mul (Fin 0.5) sigsqT))
                  (F.sqrt sigsqT) in
  let d2 := F.sub d1 (F.sqrt sigsqT) in
  Ok (F.mul (F.exp (F.mul (F.neg (Fin (c_r c))) (Fin (c_T c))))
        (F.sub (F.mul (F.mul (Fin (c_S0 c)) (F.exp muT)) (N_py d1))
               (F.mul (Fin (c_strike c)) (N_py d2)))).


(** ** The paths of the specification *)

Section Paths.

Variable G : Generator.

(** The state of the generator after [k] draws, and the draw it makes
    next. *)
Fixpoint rng_after (k : nat) (s : rng G) : rng G :=
  match k with
  | O => s
  | S k' => rng_after k' (snd (next_gauss s))
  end.

Definition nth_gauss (s : rng G) (k : nat) : R := fst (next_gauss (rng_after k s)).

(** [Z i t]: the normal draw of step [t] of path [i], in the order the
    generator seeded with [seed] makes them. *)
Definition Z_draw (c : Contract) (i t : nat) : R :=
  nth_gauss (np_random_seed G seed) (i * Z.to_nat (c_M c) + t).

(** [exp((r - sigma^2/2) dt + sigma sqrt(dt) z)] with [dt = T/M]. *)
Definition growth (c : Contract) (z : R) : R :=
  exp ((c_r c - 0.5 * (c_sigma c) ^ 2) * (c_T c / IZR (c_M c))
       + c_sigma c * sqrt (c_T c / IZR (c_M c)) * z).

(** [S_0 = S0] and [S_(t+1) = S_t * growth(Z_t)] along path [i]. *)
Fixpoint S_path (c : Contract) (i t : nat) : R :=
  match t with
  | O => c_S0 c
  | S t' => S_path c i t' * growth c (Z_draw c i t')
  end.

(** The matrix of simulated prices: row [i] holds [S_1 .. S_M] of path
    [i]. *)
Definition simulated_paths (c : Contract) : list (list R) :=
  map (fun i => map (fun t => S_path c i (S t)) (seq 0 (Z.to_nat (c_M c))))
      (seq 0 (Z.to_nat (c_simulations c))).

(** The state of the generator after a simulation. *)
Definition rng_final (c : Contract) : rng G :=
  rng_after (Z.to_nat (c_simulations c) * Z.to_nat (c_M c)) (np_random_seed G seed).

(** The per-path discounted arithmetic payoffs. *)
Definition arithmetic_payoffs (c : Contract) : list R :=
  map (arithmetic_payoff c) (simulated_paths c).

(** The per-path discounted geometric payoffs, for positive prices. *)
Definition geometric_payoffs (c : Contract) : list R :=
  map (geometric_payoff c) (simulated_paths c).

(** The geometric average of a path and its discounted payoff, evaluated
    with the operations of numpy (the logarithm of a zero price is
    [-inf]). *)
Definition geometric_average_np (c : Contract) (path : list float64) : float64 :=
  F.exp (F.mul (F.div (Fin 1) (of_int (c_M c))) (np_sum (map F.log path))).

Definition payoff_np (k : kind) (avg strike : float64) : float64 :=
  match k with
  | call => F.maximum (F.sub avg strike) (Fin 0)
  | put => F.maximum (F.sub strike avg) (Fin 0)
  end.

Definition geometric_payoff_np (c : Contract) (path : list float64) : float64 :=
  F.mul (Fin (exp (- c_r c * c_T c)))
        (payoff_np (c_kind c) (geometric_average_np c path) (Fin (c_strike c))).

(** The corrected value of a path:
    [arithmetic_payoff + analytic_geometric_value - geometric_payoff]. *)
Definition corrected_value (c : Contract) (g : float64) (path : list R) : float64 :=
  F.sub (F.add (Fin (arithmetic_payoff c path)) g)
        (geometric_payoff_np c (map Fin path)).

Definition corrected_values (c : Contract) (g : float64) : list float64 :=
  map (corrected_value c g) (simulated_paths c).

(** The same over the reals, for positive prices and a finite analytic
    value. *)
Definition corrected_values_R (c : Contract) (g : R) : list R :=
  map (fun path => arithmetic_payoff c path + g - geometric_payoff c path)
      (simulated_paths c).

End Paths.

(** Mean and 95% bounds of an array, as both estimators return them. *)
Definition estimate (v : list float64) (n : Z) : float64 * float64 * float64 :=
  (np_mean v, lower_bound (np_mean v) (np_std v) n, upper_bound (np_mean v) (np_std v) n).

(** ** Auxiliary definitions of the proofs *)

(** The product of [f 0 .. f (t-1)]. *)
Fixpoint prodn (f : nat -> R) (t : nat) : R :=
  match t with
  | O => 1
  | S t' => prodn f t' * f t'
  end.

(** The object after the [try] block when every coercion succeeds. *)
Definition coerced (ot : pyval) (xS0 xK xT : R) (m : Z) (xr xdiv xsig : R) (n : Z)
  : AsianOptionMC :=
  mkAsianOptionMC (Some ot) (Some (Fin xS0)) (Some (Fin xK)) (Some (Fin xT))
    (Some m) (Some (Fin xr)) (Some (Fin xdiv)) (Some (Fin xsig)) (Some n) None None.

(** The object when the coercion of [simulations] is the one that fails. *)
Definition without_simulations (k : kind) (xS0 xK xT : R) (m : Z) (xr xdiv xsig : R)
  : AsianOptionMC :=
  mkAsianOptionMC (Some (PyStr (kind_name k))) (Some (Fin xS0)) (Some (Fin xK))
    (Some (Fin xT)) (Some m) (Some (Fin xr)) (Some (Fin xdiv)) (Some (Fin xsig))
    None None None.

(** A step of the constructor that prints nothing. *)
Definition quiet {A} (c : py ctor_state A) : Prop :=
  forall s, snd (snd (c s)) = snd s.

(** A step whose exceptions all satisfy [P]. *)
Definition raises_only {S A} (P : exn -> Prop) (c : py S A) : Prop :=
  forall s e s', c s = (Raise e, s') -> P e.

(** The exceptions of the steps after the [try] statement. *)
Definition after_try_error (e : exn) : Prop :=
  e = ValueError option_type_not_valid \/ e = ValueError negative_inputs
  \/ e = TypeError \/ e = AttributeError \/ e = ZeroDivisionError.

(** A computation that leaves the state alone or always ends in the same
    state, with a result that does not depend on the state it starts
    from. *)
Definition uniform {S A} (c : py S A) : Prop :=
  (exists x, forall s, c s = (x, s)) \/ (exists x s', forall s, c s = (x, s')).


(** ** Instances

    A generator that replays a given list of draws (zero once the list is
    used up), a parser of plain decimal integers, and contracts. *)

Definition replay (zs : list R) : Generator :=
  mkGenerator (fun _ => 0%nat) (fun k : nat => (nth k zs 0, S k)).

Definition digit_of (a : Ascii.ascii) : option Z :=
  let n := Z.of_nat (Ascii.nat_of_ascii a) in
  if ((48 <=? n) && (n <=? 57))%Z then Some (n - 48)%Z else None.

Fixpoint digits (acc : Z) (s : string) : option Z :=
  match s with
  | EmptyString => Some acc
  | String a s' => match digit_of a with
                   | Some d => digits (10 * acc + d) s'
                   | None => None
                   end
  end.

(** [12], [-7]: an optional minus sign and at least one digit. *)
Definition decimal_int (s : string) : option Z :=
  match s with
  | EmptyString => None
  | String "-"%char EmptyString => None
  | String "-"%char s' => option_map Z.opp (digits 0 s')
  | _ => digits 0 s
  end.

Definition decimal_float (s : string) : option float64 :=
  option_map of_int (decimal_int s).

(** The contract of the docstring:
    [AsianOptionMC('call', 4., 4., 1., 100., .03, 0, .25, 10000)]. *)
Definition docstring_contract : Contract :=
  mkContract call 4 4 1 100 0.03 0 0.25 10000.

(** Two paths of two steps with a drift of zero and a unit volatility per
    step, so that the growth over a step is [exp z]; the strike is [K]. *)
Definition two_by_two_at (K : R) : Contract := mkContract call 1 K 2 2 0.5 0 1 2.

Definition two_by_two : Contract := two_by_two_at 1.

(** Draws that make the prices [9, 9] along the first path and [4, 4]
    along the second. *)
Definition flat_draws : list R := [ln 9; 0; ln 4; 0].

(** The contract of the docstring with a strike of zero, with an initial
    price of zero, and a contract with a volatility of zero. *)
Definition zero_strike : Contract := mkContract call 4 0 1 100 0.03 0 0.25 10000.

Definition zero_spot : Contract := mkContract call 0 4 1 100 0.03 0 0.25 10000.

Definition zero_volatility : Contract := mkContract call 1 1 1 1 0 0 0 1.

(** The parameters of the docstring with [M = -5] and [simulations = 0]. *)
Definition negative_steps : Contract := mkContract call 4 4 1 (-5) 0.03 0 0.25 0.


(** ** Further definitions *)

(** An argument that is an [int] or a [float]. *)
Definition is_number (v : pyval) : bool :=
  match v with PyInt _ | PyFloat _ => true | _ => false end.

(** The float a number converts to. *)
Definition float_value (v : pyval) : float64 :=
  match v with
  | PyInt n => of_int n
  | PyFloat x => x
  | _ => NaN
  end.

(** The object once the [try] block has assigned everything up to
    [sigma]; [simulations] is assigned or not. *)
Definition assigned (ot : pyval) (x1 x2 x3 : float64) (m : Z) (x4 x5 x6 : float64)
  (n : option Z) : AsianOptionMC :=
  mkAsianOptionMC (Some ot) (Some x1) (Some x2) (Some x3) (Some m) (Some x4)
    (Some x5) (Some x6) n None None.

(** The contract with another strike, and the contract with [S0] and
    [strike] both multiplied by [k]. *)
Definition with_strike (K : R) (c : Contract) : Contract :=
  mkContract (c_kind c) (c_S0 c) K (c_T c) (c_M c) (c_r c) (c_div c)
    (c_sigma c) (c_simulations c).

Definition scaled (k : R) (c : Contract) : Contract :=
  mkContract (c_kind c) (k * c_S0 c) (k * c_strike c) (c_T c) (c_M c) (c_r c)
    (c_div c) (c_sigma c) (c_simulations c).

(** The object the constructor returns, when it returns one. *)
Definition constructed (ot vS0 vK vT vr vdiv vsig : pyval) (m : Z) (sim : option Z)
  : AsianOptionMC :=
  mkAsianOptionMC (Some ot) (Some (float_value vS0)) (Some (float_value vK))
    (Some (float_value vT)) (Some m) (Some (float_value vr))
    (Some (float_value vdiv)) (Some (float_value vsig)) sim
    (Some (F.div (float_value vT) (of_int m)))
    (Some (F.exp (F.mul (F.neg (float_value vr)) (float_value vT)))).

(** The exceptions a simulation can end in: a missing attribute, or a
    negative dimension given to [np.random.randn]. *)
Definition simulation_error (e : exn) : Prop :=
  e = AttributeError \/ e = ValueError negative_dimensions.

(** * The program over the range of float64

    The definitions above compute over the reals: no product is too large
    and none too small.  The second embedding below follows the same
    source lines with the range of float64: a result whose magnitude
    reaches [2^1024 - 2^970] is an infinity (numpy, and Python's [*] and
    [/]) or raises [OverflowError] (Python's [**] and the conversion of an
    [int]); a product, quotient, square or exponential whose magnitude is
    at most [2^-1075] is zero.  Within the range a finite result is still
    the real number: the rounding of the last bit is not modelled, and the
    two zeros of float64 are not distinguished (no divisor of the program
    is a negative zero when [M] is positive and the parameters are not
    below zero; the statements on values are made there).

    The statements that a query returns, is finite or raises are made on
    this embedding; under the conditions that keep every intermediate
    result within the range, it computes what the first embedding
    computes. *)

(** ** The range *)

Definition overflow_threshold : R := IZR (2 ^ 1024 - 2 ^ 970).

Definition underflow_threshold : R := / IZR (2 ^ 1075).

Definition overflows (x : R) : bool := Rle_b overflow_threshold (Rabs x).

Definition underflows (x : R) : bool := Rle_b (Rabs x) underflow_threshold.

(** A sum that does not overflow; a product, quotient or exponential that
    neither overflows nor underflows. *)
Definition bounded (x : R) : Prop := Rabs x < overflow_threshold.

Definition normal (x : R) : Prop :=
  x = 0 \/ (underflow_threshold < Rabs x /\ Rabs x < overflow_threshold).

(** A sum that cannot overflow in whatever order it is accumulated. *)
Definition summable (xs : list R) : Prop := bounded (Rsum (map Rabs xs)).

Module F64.

(** The float64 of a product, quotient or exponential whose exact value is
    [x], and of a sum or difference (which never underflows). *)
Definition round (x : R) : float64 :=
  if overflows x then F.inf_of_sign x
  else if underflows x then Fin 0
  else Fin x.

Definition round_sum (x : R) : float64 :=
  if overflows x then F.inf_of_sign x else Fin x.

Definition clip (a : float64) : float64 :=
  match a with Fin x => round x | _ => a end.

Definition clip_sum (a : float64) : float64 :=
  match a with Fin x => round_sum x | _ => a end.

Definition neg (a : float64) : float64 := F.neg a.

Definition add (a b : float64) : float64 := clip_sum (F.add a b).

Definition sub (a b : float64) : float64 := add a (neg b).

Definition mul (a b : float64) : float64 := clip (F.mul a b).

Definition div (a b : float64) : float64 := clip (F.div a b).

Definition exp (a : float64) : float64 := clip (F.exp a).

Definition log (a : float64) : float64 := F.log a.

Definition sqrt (a : float64) : float64 := F.sqrt a.

Definition maximum (a b : float64) : float64 := F.maximum a b.

(** Python's [a ** 2]: [OverflowError] when the square of a finite [a] is
    out of range, zero when it underflows. *)
Definition pow2 (a : float64) : result float64 :=
  match a with
  | Fin x => if overflows (x * x) then Raise OverflowError else Ok (round (x * x))
  | PInf | NInf => Ok PInf
  | NaN => Ok NaN
  end.

End F64.

(** [float(n)] of an [int], also where Python converts the [int] operand
    of a float operation: [OverflowError] beyond the range. *)
Definition float_of_int (n : Z) : result float64 :=
  if overflows (IZR n) then Raise OverflowError else Ok (Fin (IZR n)).

(** Python's [/] on floats. *)
Definition truediv (a b : float64) : result float64 :=
  match b with
  | Fin y => if Req_b y 0 then Raise ZeroDivisionError else Ok (F64.div a b)
  | _ => Ok (F64.div a b)
  end.

(** numpy as the program meets it: the generator, and the shapes of which
    [np.random.randn] cannot create an array, with the exception it raises
    for them (a [MemoryError]; a [ValueError] beyond the index range). *)
Record Numpy : Type := mkNumpy {
  generator :> Generator;
  refused : Z -> Z -> option exn
}.

Module Float64.

Section Builtins.

Variable float_of_str : string -> option float64.

Definition py_float (v : pyval) : result float64 :=
  match v with
  | PyFloat x => Ok x
  | PyInt n => float_of_int n
  | PyStr s => match float_of_str s with
               | Some x => Ok x
               | None => Raise (ValueError could_not_convert)
               end
  | PyNone => Raise TypeError
  end.

End Builtins.

Section Constructor.

Variable float_of_str : string -> option float64.
Variable int_of_str : string -> option Z.

(** The body of the [try] block: the assignments, in order. *)
Definition coerce (option_type S0 strike T M r div sigma simulations : pyval)
  : py ctor_state unit :=
  setattr (set_option_type option_type) ;;;
  py_assert (isinstance_str option_type) ;;;
  x <- lift (py_float float_of_str S0) ;; setattr (set_S0 x) ;;;
  x <- lift (py_float float_of_str strike) ;; setattr (set_strike x) ;;;
  x <- lift (py_float float_of_str T) ;; setattr (set_T x) ;;;
  n <- lift (py_int int_of_str M) ;; setattr (set_M n) ;;;
  x <- lift (py_float float_of_str r) ;; setattr (set_r x) ;;;
  x <- lift (py_float float_of_str div) ;; setattr (set_div x) ;;;
  x <- lift (py_float float_of_str sigma) ;; setattr (set_sigma x) ;;;
  n <- lift (py_int int_of_str simulations) ;; setattr (set_simulations n).

(** [self.time_unit = self.T / float(self.M)] and
    [self.discount = np.exp(- self.r * self.T)]. *)
Definition derived : py ctor_state unit :=
  t <- self_attr T ;;
  m <- self_attr M ;;
  fm <- lift (float_of_int m) ;;
  u <- lift (truediv t fm) ;;
  setattr (set_time_unit u) ;;;
  rate <- self_attr r ;;
  t <- self_attr T ;;
  setattr (set_discount (F64.exp (F64.mul (F64.neg rate) t))).

Definition init_body (option_type S0 strike T M r div sigma simulations : pyval)
  : py ctor_state unit :=
  try_except_ValueError
    (coerce option_type S0 strike T M r div sigma simulations)
    (print error_passing) ;;;
  checks option_type S0 strike T r div sigma ;;;
  derived.

Definition __init__ (option_type S0 strike T M r div sigma simulations : pyval)
  : list string * result AsianOptionMC :=
  match init_body option_type S0 strike T M r div sigma simulations (blank, []) with
  | (Ok _, (self, out)) => (out, Ok self)
  | (Raise e, (_, out)) => (out, Raise e)
  end.

End Constructor.

(** ** numpy arrays *)

Definition np_sum (v : list float64) : float64 := fold_right F64.add (Fin 0) v.

Definition np_mean (v : list float64) : float64 :=
  F64.div (np_sum v) (of_nat (length v)).

Definition np_std (v : list float64) : float64 :=
  let m := np_mean v in
  F64.sqrt (np_mean (map (fun x => F64.mul (F64.sub x m) (F64.sub x m)) v)).

Fixpoint scan_mul (acc : float64) (v : list float64) : list float64 :=
  match v with
  | [] => []
  | x :: t => F64.mul acc x :: scan_mul (F64.mul acc x) t
  end.

Definition np_cumprod (v : list float64) : list float64 :=
  match v with
  | [] => []
  | x :: t => x :: scan_mul x t
  end.

Definition np_sub (a b : list float64) : result (list float64) :=
  if Nat.eqb (length a) (length b) then Ok (map2 F64.sub a b)
  else match a, b with
       | [x], _ => Ok (map (F64.sub x) b)
       | _, [y] => Ok (map (fun x => F64.sub x y) a)
       | _, _ => Raise (ValueError not_broadcastable)
       end.

(** ** The analytic value of the geometric option

    Each attribute is read, each [int] converted and each operation
    carried out where the source line has it, so that the first exception
    is the one Python raises. *)

Definition N_cdf (x : float64) : float64 :=
  F64.mul (Fin 0.5) (F64.add (Fin 1) (F_erf (F64.div x (F64.sqrt (Fin 2))))).

Definition GeometricAsianOption (self : AsianOptionMC) : result float64 :=
  (* sigsqT = sigma ** 2 * T * (M + 1) * (2 * M + 1) / (6 * M * M) *)
  sig <-- getattr sigma self ;;
  sq <-- F64.pow2 sig ;;
  t <-- getattr T self ;;
  m <-- getattr M self ;;
  f1 <-- float_of_int (m + 1) ;;
  f2 <-- float_of_int (2 * m + 1) ;;
  f3 <-- float_of_int (6 * m * m) ;;
  sigsqT <-- truediv (F64.mul (F64.mul (F64.mul sq t) f1) f2) f3 ;;
  (* muT = 0.5 * sigsqT + (r - 0.5 * sigma ** 2) * T * (M + 1) / (2 * M) *)
  rate <-- getattr r self ;;
  sq' <-- F64.pow2 sig ;;
  f1' <-- float_of_int (m + 1) ;;
  f4 <-- float_of_int (2 * m) ;;
  muT_drift <-- truediv
    (F64.mul (F64.mul (F64.sub rate (F64.mul (Fin 0.5) sq')) t) f1') f4 ;;
  let muT := F64.add (F64.mul (Fin 0.5) sigsqT) muT_drift in
  (* d1, d2, N1, N2 and the value *)
  s0 <-- getattr S0 self ;;
  k <-- getattr strike self ;;
  ratio <-- truediv s0 k ;;
  let d1 := F64.div (F64.add (F64.log ratio) (F64.add muT (F64.mul (Fin 0.5) sigsqT)))
                    (F64.sqrt sigsqT) in
  let d2 := F64.sub d1 (F64.sqrt sigsqT) in
  let N1 := N_cdf d1 in
  let N2 := N_cdf d2 in
  disc <-- getattr discount self ;;
  Ok (F64.mul disc (F64.sub (F64.mul (F64.mul s0 (F64.exp muT)) N1) (F64.mul k N2))).

(** ** The simulation *)

Section Simulation.

Variable N : Numpy.

Local Abbreviation state := (rng N).

(** [np.random.randn(n, m)]. *)
Definition np_random_randn (n m : Z) : py state (list (list float64)) :=
  fun s => if ((n <? 0) || (m <? 0))%Z
           then (Raise (ValueError negative_dimensions), s)
           else match refused N n m with
                | Some e => (Raise e, s)
                | None => let (a, s') := draw_rows N (Z.to_nat n) (Z.to_nat m) s in
                          (Ok a, s')
                end.

Definition price_path (self : AsianOptionMC) : py state (list (list float64)) :=
  modify (fun _ => np_random_seed N seed) ;;;
  s0 <- attr N S0 self ;;
  rate <- attr N r self ;;
  sig <- attr N sigma self ;;
  sq <- lift (F64.pow2 sig) ;;
  dt <- attr N time_unit self ;;
  let drift := F64.mul (F64.sub rate (F64.mul (Fin 0.5) sq)) dt in
  let vol := F64.mul sig (F64.sqrt dt) in
  n <- attr N simulations self ;;
  m <- attr N M self ;;
  z <- np_random_randn n m ;;
  ret (map (map (F64.mul s0))
         (map np_cumprod
            (map (map (fun x => F64.exp (F64.add drift (F64.mul vol x)))) z))).

Definition call_payoffs (disc k : float64) (avg : list float64) : list float64 :=
  map (F64.mul disc) (map (fun a => F64.maximum (F64.sub a k) (Fin 0)) avg).

Definition put_payoffs (disc k : float64) (avg : list float64) : list float64 :=
  map (F64.mul disc) (map (fun a => F64.maximum (F64.sub k a) (Fin 0)) avg).

Definition MCPayoff (self : AsianOptionMC) : py state (list float64) :=
  ot <- attr N option_type self ;;
  if py_eq_str ot "call" then
    disc <- attr N discount self ;;
    paths <- price_path self ;;
    k <- attr N strike self ;;
    ret (call_payoffs disc k (map np_mean paths))
  else
    disc <- attr N discount self ;;
    k <- attr N strike self ;;
    paths <- price_path self ;;
    ret (put_payoffs disc k (map np_mean paths)).

Definition upper_bound (mean std : float64) (n : Z) : float64 :=
  F64.add mean (F64.div (F64.mul (Fin 1.96) std) (F64.sqrt (of_int n))).

Definition lower_bound (mean std : float64) (n : Z) : float64 :=
  F64.sub mean (F64.div (F64.mul (Fin 1.96) std) (F64.sqrt (of_int n))).

Definition value (self : AsianOptionMC) : py state (float64 * float64 * float64) :=
  pay <- MCPayoff self ;;
  let MCvalue := np_mean pay in
  pay' <- MCPayoff self ;;
  let MCValue_std := np_std pay' in
  n <- attr N simulations self ;;
  let upper := upper_bound MCvalue MCValue_std n in
  n' <- attr N simulations self ;;
  let lower := lower_bound MCvalue MCValue_std n' in
  ret (MCvalue, lower, upper).

Definition value_with_control_variate (self : AsianOptionMC)
  : py state (float64 * float64 * float64) :=
  m <- attr N M self ;;
  fm <- lift (float_of_int m) ;;
  w <- lift (truediv (Fin 1) fm) ;;
  paths <- price_path self ;;
  let geometric_average :=
    map F64.exp (map (F64.mul w) (map np_sum (map (map F64.log) paths))) in
  ot <- attr N option_type self ;;
  MCpayoff_geometric <-
    (if py_eq_str ot "call" then
       disc <- attr N discount self ;;
       k <- attr N strike self ;;
       ret (call_payoffs disc k geometric_average)
     else
       disc <- attr N discount self ;;
       k <- attr N strike self ;;
       ret (put_payoffs disc k geometric_average)) ;;
  pay <- MCPayoff self ;;
  g <- lift (GeometricAsianOption self) ;;
  value_with_CV <- lift (np_sub (map (fun x => F64.add x g) pay) MCpayoff_geometric) ;;
  let mean := np_mean value_with_CV in
  let std := np_std value_with_CV in
  n <- attr N simulations self ;;
  let upper := upper_bound mean std n in
  n' <- attr N simulations self ;;
  let lower := lower_bound mean std n' in
  ret (mean, lower, upper).

End Simulation.

End Float64.

(** ** The conditions that keep a computation within the range

    Each condition names an intermediate result of a source line, by its
    value over the reals. *)

Definition sigma_sq (c : Contract) : R := c_sigma c * c_sigma c.

(** [(r - 0.5 sigma^2) dt] and [sigma sqrt(dt)] with [dt = T/M]. *)
Definition drift (c : Contract) : R :=
  (c_r c - 0.5 * sigma_sq c) * (c_T c / IZR (c_M c)).

Definition vol (c : Contract) : R := c_sigma c * sqrt (c_T c / IZR (c_M c)).

(** The constructor: the parameters are float64 numbers, [float(M)] exists,
    and [T / M], [- r * T] and its exponential are within the range. *)
Record parameters_in_range (c : Contract) : Prop := mkParametersInRange {
  in_range_S0 : normal (c_S0 c);
  in_range_strike : normal (c_strike c);
  in_range_T : normal (c_T c);
  in_range_r : normal (c_r c);
  in_range_div : normal (c_div c);
  in_range_sigma : normal (c_sigma c);
  in_range_M : bounded (IZR (c_M c));
  in_range_time_unit : normal (c_T c / IZR (c_M c));
  in_range_rate_time : normal (- c_r c * c_T c);
  in_range_discount : normal (exp (- c_r c * c_T c))
}.

(** [price_path]: the array can be created, and the drift, the volatility
    of a step, every growth factor, every running product and every price
    are within the range. *)
Record simulation_in_range (N : Numpy) (c : Contract) : Prop := mkSimulationInRange {
  sim_created : refused N (c_simulations c) (c_M c) = None;
  sim_square : normal (sigma_sq c);
  sim_half : normal (0.5 * sigma_sq c);
  sim_rate : bounded (c_r c - 0.5 * sigma_sq c);
  sim_drift : normal (drift c);
  sim_vol : normal (vol c);
  sim_draw : forall i t,
      (i < Z.to_nat (c_simulations c))%nat -> (t < Z.to_nat (c_M c))%nat ->
      normal (vol c * Z_draw N c i t)
      /\ bounded (drift c + vol c * Z_draw N c i t)
      /\ normal (growth c (Z_draw N c i t))
      /\ normal (prodn (fun k => growth c (Z_draw N c i k)) (S t))
      /\ normal (S_path N c i (S t))
}.

(** [MCPayoff]: the sum and the average of each path, the difference with
    the strike and the discounted payoff. *)
Record payoffs_in_range (N : Numpy) (c : Contract) : Prop := mkPayoffsInRange {
  pay_path : forall path, In path (simulated_paths N c) ->
      summable path
      /\ normal (arithmetic_average path)
      /\ bounded (arithmetic_average path - c_strike c)
      /\ normal (arithmetic_payoff c path)
}.

(** The mean, the standard deviation and the two bounds of an array. *)
Record estimate_in_range (xs : list R) (n : Z) : Prop := mkEstimateInRange {
  est_sum : summable xs;
  est_mean : normal (mean xs);
  est_deviation : Forall (fun x => bounded (x - mean xs)) xs;
  est_square : Forall (fun x => normal ((x - mean xs) ^ 2)) xs;
  est_squares : summable (map (fun x => (x - mean xs) ^ 2) xs);
  est_variance : normal (variance xs);
  est_scaled : normal (1.96 * stddev xs);
  est_half_width : normal (1.96 * stddev xs / sqrt (IZR n));
  est_lower : bounded (lower95 xs n);
  est_upper : bounded (upper95 xs n)
}.

(** [GeometricAsianOption], line by line. *)
Record analytic_in_range (c : Contract) : Prop := mkAnalyticInRange {
  an_square : normal (sigma_sq c);
  an_variance_1 : normal (sigma_sq c * c_T c);
  an_steps_1 : bounded (IZR (c_M c + 1));
  an_variance_2 : normal (sigma_sq c * c_T c * IZR (c_M c + 1));
  an_steps_2 : bounded (IZR (2 * c_M c + 1));
  an_variance_3 : normal (sigma_sq c * c_T c * IZR (c_M c + 1) * IZR (2 * c_M c + 1));
  an_steps_3 : bounded (IZR (6 * c_M c * c_M c));
  an_sigsqT : normal (sigsqT c);
  an_half_sigsqT : normal (0.5 * sigsqT c);
  an_half_square : normal (0.5 * sigma_sq c);
  an_rate : bounded (c_r c - 0.5 * sigma_sq c);
  an_drift_1 : normal ((c_r c - 0.5 * sigma_sq c) * c_T c);
  an_drift_2 : normal ((c_r c - 0.5 * sigma_sq c) * c_T c * IZR (c_M c + 1));
  an_steps_4 : bounded (IZR (2 * c_M c));
  an_drift_3 : normal ((c_r c - 0.5 * sigma_sq c) * c_T c * IZR (c_M c + 1)
                       / IZR (2 * c_M c));
  an_muT : bounded (muT c);
  an_ratio : normal (c_S0 c / c_strike c);
  an_shift : bounded (muT c + 0.5 * sigsqT c);
  an_numerator : bounded (ln (c_S0 c / c_strike c) + (muT c + 0.5 * sigsqT c));
  an_d1 : normal (d1 c);
  an_d2 : bounded (d2 c);
  an_argument_1 : normal (d1 c / sqrt 2);
  an_argument_2 : normal (d2 c / sqrt 2);
  an_erf_1 : bounded (1 + erf (d1 c / sqrt 2));
  an_erf_2 : bounded (1 + erf (d2 c / sqrt 2));
  an_N1 : normal (N (d1 c));
  an_N2 : normal (N (d2 c));
  an_exp_muT : normal (exp (muT c));
  an_forward : normal (c_S0 c * exp (muT c));
  an_term_1 : normal (c_S0 c * exp (muT c) * N (d1 c));
  an_term_2 : normal (c_strike c * N (d2 c));
  an_difference : bounded (c_S0 c * exp (muT c) * N (d1 c) - c_strike c * N (d2 c));
  an_value : normal (closed_form c)
}.

(** [value_with_control_variate]: the weight [1 / M], and for each path
    the sum of the logarithms, the geometric average, its payoff and the
    corrected value. *)
Record control_variate_in_range (N : Numpy) (c : Contract) : Prop :=
  mkControlVariateInRange {
  cv_weight : normal (1 / IZR (c_M c));
  cv_path : forall path, In path (simulated_paths N c) ->
      summable (map ln path)
      /\ normal (1 / IZR (c_M c) * Rsum (map ln path))
      /\ normal (geometric_average c path)
      /\ bounded (geometric_average c path - c_strike c)
      /\ normal (geometric_payoff c path)
      /\ bounded (arithmetic_payoff c path + closed_form c)
      /\ bounded (arithmetic_payoff c path + closed_form c - geometric_payoff c path)
}.

(** Everything [value] computes, and everything
    [value_with_control_variate] computes. *)
Record plain_in_range (N : Numpy) (c : Contract) : Prop := mkPlainInRange {
  plain_parameters : parameters_in_range c;
  plain_simulation : simulation_in_range N c;
  plain_payoffs : payoffs_in_range N c;
  plain_estimate : estimate_in_range (arithmetic_payoffs N c) (c_simulations c)
}.

Record corrected_in_range (N : Numpy) (c : Contract) : Prop := mkCorrectedInRange {
  corrected_parameters : parameters_in_range c;
  corrected_simulation : simulation_in_range N c;
  corrected_payoffs : payoffs_in_range N c;
  corrected_analytic : analytic_in_range c;
  corrected_paths : control_variate_in_range N c;
  corrected_estimate :
    estimate_in_range (corrected_values_R N c (closed_form c)) (c_simulations c)
}.

(** A constructor argument that [float] turns into [x]: the float [x], or
    an [int] equal to it and within the range of float64. *)
Definition float_argument (v : pyval) (x : R) : Prop :=
  v = PyFloat (Fin x) \/ exists n : Z, v = PyInt n /\ x = IZR n /\ bounded x.

(** The object the constructor builds from numeric arguments. *)
Definition built (k : kind) (xS0 xK xT : R) (m : Z) (xr xdiv xsig : R) (n : option Z)
  : AsianOptionMC :=
  mkAsianOptionMC (Some (PyStr (kind_name k))) (Some (Fin xS0)) (Some (Fin xK))
    (Some (Fin xT)) (Some m) (Some (Fin xr)) (Some (Fin xdiv)) (Some (Fin xsig)) n
    (Some (F64.div (Fin xT) (Fin (IZR m))))
    (Some (F64.exp (F64.mul (Fin (- xr)) (Fin xT)))).

(** ** Further instances *)

(** numpy with the generator that replays no draw (every draw is zero) and
    refuses no shape. *)
Definition quiet_numpy : Numpy := mkNumpy (replay []) (fun _ _ => None).

(** One path of one step, with an initial price of eight times the
    strike. *)
Definition one_step : Contract := mkContract call 8 1 1 1 0 0 1 1.

(** One path of one step without volatility whose price exceeds the range:
    [S0 = 2^1023] grows by [exp 1]. *)
Definition overflowing : Contract := mkContract call (IZR (2 ^ 1023)) 1 1 1 1 0 0 1.

(** The exceptions of the steps after the [try] statement, over the range
    of float64: [float(self.M)] can overflow. *)
Definition after_try_error64 (e : exn) : Prop :=
  e = ValueError option_type_not_valid \/ e = ValueError negative_inputs
  \/ e = TypeError \/ e = AttributeError \/ e = ZeroDivisionError
  \/ e = OverflowError.

(** The exceptions a simulation over the range of float64 can end in: a
    missing attribute, the overflow of [sigma ** 2], and what
    [np.random.randn] raises. *)
Definition simulation_error64 (N : Numpy) (e : exn) : Prop :=
  e = AttributeError \/ e = OverflowError \/ e = ValueError negative_dimensions
  \/ exists n m : Z, refused N n m = Some e.

(** A volatility whose square is beyond the range, and one whose square
    underflows to zero; the prices and the strike are positive. *)
Definition huge_volatility : Contract := mkContract call 1 1 1 1 0 0 (IZR (2 ^ 600)) 1.

Definition tiny_volatility : Contract := mkContract call 1 1 1 1 0 0 (/ IZR (2 ^ 600)) 1.

(** An argument that [float] converts: a [float], or an [int] within the
    range. *)
Definition convertible (v : pyval) : Prop :=
  match v with
  | PyInt n => bounded (IZR n)
  | PyFloat _ => True
  | _ => False
  end.

(** The object the constructor returns over the range of float64, when it
    returns one. *)
Definition constructed64 (ot vS0 vK vT vr vdiv vsig : pyval) (m : Z) (sim : option Z)
  : AsianOptionMC :=
  mkAsianOptionMC (Some ot) (Some (float_value vS0)) (Some (float_value vK))
    (Some (float_value vT)) (Some m) (Some (float_value vr))
    (Some (float_value vdiv)) (Some (float_value vsig)) sim
    (Some (F64.div (float_value vT) (of_int m)))
    (Some (F64.exp (F64.mul (F64.neg (float_value vr)) (float_value vT)))).
(** * Lemmas *)

(** ** Deciding comparisons of reals *)

Lemma Rlt_b_true x y : x < y -> Rlt_b x y = true.
Proof. intros H. unfold Rlt_b. destruct (Rlt_dec x y); [reflexivity | contradiction]. Qed.

Lemma Rlt_b_false x y : ~ x < y -> Rlt_b x y = false.
Proof. intros H. unfold Rlt_b. destruct (Rlt_dec x y); [contradiction | reflexivity]. Qed.

Lemma Rle_b_true x y : x <= y -> Rle_b x y = true.
Proof. intros H. unfold Rle_b. destruct (Rle_dec x y); [reflexivity | contradiction]. Qed.

Lemma Rle_b_false x y : ~ x <= y -> Rle_b x y = false.
Proof. intros H. unfold Rle_b. destruct (Rle_dec x y); [contradiction | reflexivity]. Qed.

Lemma Req_b_true x y : x = y -> Req_b x y = true.
Proof. intros H. unfold Req_b. destruct (Req_dec_T x y); [reflexivity | contradiction]. Qed.

Lemma Req_b_false x y : x <> y -> Req_b x y = false.
Proof. intros H. unfold Req_b. destruct (Req_dec_T x y); [contradiction | reflexivity]. Qed.

(** ** Operations on finite values *)

Lemma F_div_fin x y : y <> 0 -> F.div (Fin x) (Fin y) = Fin (x / y).
Proof. intros H. simpl. now rewrite Req_b_false. Qed.

Lemma py_div_fin x y : y <> 0 -> py_div (Fin x) (Fin y) = Ok (Fin (x / y)).
Proof. intros H. unfold py_div. rewrite Req_b_false by exact H. now rewrite F_div_fin. Qed.

Lemma py_div_zero a : py_div a (Fin 0) = Raise ZeroDivisionError.
Proof. unfold py_div. now rewrite Req_b_true. Qed.

Lemma F_sqrt_fin x : 0 <= x -> F.sqrt (Fin x) = Fin (sqrt x).
Proof. intros H. simpl. now rewrite Rle_b_true. Qed.

Lemma F_log_fin x : 0 < x -> F.log (Fin x) = Fin (ln x).
Proof. intros H. simpl. now rewrite Rlt_b_true. Qed.

Lemma F_log_zero : F.log (Fin 0) = NInf.
Proof. simpl. rewrite Rlt_b_false by lra. now rewrite Req_b_true. Qed.

Lemma F_add_assoc a b c : F.add a (F.add b c) = F.add (F.add a b) c.
Proof.
  destruct a, b, c; simpl; try reflexivity.
  f_equal. ring.
Qed.

Lemma sqrt2_neq_0 : sqrt 2 <> 0.
Proof. apply Rgt_not_eq, sqrt_lt_R0. lra. Qed.

Lemma F_sqrt_2 : F.sqrt (Fin 2) = Fin (sqrt 2).
Proof. apply F_sqrt_fin. lra. Qed.

Lemma N_py_fin x : N_py (Fin x) = Fin (N x).
Proof.
  unfold N_py, N. rewrite F_sqrt_2, F_div_fin by exact sqrt2_neq_0. reflexivity.
Qed.

Lemma F_add_fin x y : F.add (Fin x) (Fin y) = Fin (x + y).
Proof. reflexivity. Qed.
Lemma F_sub_fin x y : F.sub (Fin x) (Fin y) = Fin (x - y).
Proof. reflexivity. Qed.
Lemma F_mul_fin x y : F.mul (Fin x) (Fin y) = Fin (x * y).
Proof. reflexivity. Qed.
Lemma F_neg_fin x : F.neg (Fin x) = Fin (- x).
Proof. reflexivity. Qed.
Lemma F_exp_fin x : F.exp (Fin x) = Fin (exp x).
Proof. reflexivity. Qed.
Lemma F_pow2_fin x : F.pow2 (Fin x) = Fin (x * x).
Proof. reflexivity. Qed.
Lemma F_erf_fin x : F_erf (Fin x) = Fin (erf x).
Proof. reflexivity. Qed.
Lemma F_maximum_fin x y : F.maximum (Fin x) (Fin y) = Fin (Rmax x y).
Proof. reflexivity. Qed.

Create Rewrite HintDb fin.
#[global] Hint Rewrite F_add_fin F_sub_fin F_mul_fin F_neg_fin F_exp_fin
  F_pow2_fin F_erf_fin F_maximum_fin N_py_fin : fin.

Lemma of_int_succ m : of_int (m + 1) = F.add (of_int m) (Fin 1).
Proof. unfold of_int. rewrite plus_IZR. reflexivity. Qed.

Lemma of_int_double m : of_int (2 * m) = F.mul (Fin 2) (of_int m).
Proof. unfold of_int. rewrite mult_IZR. reflexivity. Qed.

Lemma of_int_6sq m : of_int (6 * m * m) = F.mul (Fin 6) (F.pow2 (of_int m)).
Proof. unfold of_int. rewrite !mult_IZR. simpl. f_equal. ring. Qed.

Lemma GeometricAsianOption_closed_form_py c :
  GeometricAsianOption (instance_of c) = closed_form_py c.
Proof.
  unfold GeometricAsianOption, closed_form_py, sigsqT_py, muT_py, instance_of, getattr.
  cbn [sigma T M r S0 strike discount rbind].
  repeat rewrite of_int_6sq. repeat rewrite of_int_succ. repeat rewrite of_int_double.
  destruct (py_div _ (F.mul (Fin 6) _)) as [s | e]; [| reflexivity].
  cbn [rbind].
  destruct (py_div _ (F.mul (Fin 2) _)) as [u | e]; [| reflexivity].
  cbn [rbind].
  destruct (py_div (Fin (c_S0 c)) _) as [q | e]; [| reflexivity].
  cbn [rbind].
  rewrite !F_add_assoc. reflexivity.
Qed.

Section ClosedForm.

Variable c : Contract.
Hypothesis Hvalid : valid c.

Lemma IZR_M_pos : 0 < IZR (c_M c).
Proof. apply IZR_lt. apply (valid_M Hvalid). Qed.

Lemma sigsqT_py_fin : sigsqT_py c = Ok (Fin (sigsqT c)).
Proof.
  pose proof IZR_M_pos as HM.
  unfold sigsqT_py, of_int. autorewrite with fin.
  rewrite py_div_fin by nra.
  do 2 f_equal. unfold sigsqT. field. lra.
Qed.

Lemma muT_py_fin : muT_py c (Fin (sigsqT c)) = Ok (Fin (muT c)).
Proof.
  pose proof IZR_M_pos as HM.
  unfold muT_py, of_int. autorewrite with fin.
  rewrite py_div_fin by nra. cbn [rbind]. autorewrite with fin.
  do 2 f_equal. unfold muT. field. lra.
Qed.

Lemma sigsqT_nonneg : 0 <= sigsqT c.
Proof.
  pose proof IZR_M_pos as HM. pose proof (valid_T Hvalid) as HT.
  unfold sigsqT. apply Rmult_le_pos.
  - apply Rmult_le_pos; [apply Rmult_le_pos; [apply Rmult_le_pos |] |]; try lra.
    apply pow2_ge_0.
  - apply Rlt_le, Rinv_0_lt_compat. nra.
Qed.

Lemma sigsqT_pos : 0 < c_sigma c -> 0 < sigsqT c.
Proof.
  intros Hs.
  pose proof IZR_M_pos as HM. pose proof (valid_T Hvalid) as HT.
  unfold sigsqT. apply Rmult_lt_0_compat.
  - apply Rmult_lt_0_compat; [apply Rmult_lt_0_compat; [apply Rmult_lt_0_compat |] |];
      try lra.
    apply pow_lt, Hs.
  - apply Rinv_0_lt_compat. nra.
Qed.

Lemma closed_form_py_fin :
  0 < c_S0 c -> 0 < c_strike c -> 0 < c_sigma c ->
  closed_form_py c = Ok (Fin (closed_form c)).
Proof.
  intros HS HK Hsig.
  pose proof (sigsqT_pos Hsig) as Hq.
  assert (Hsq : sqrt (sigsqT c) <> 0) by (apply Rgt_not_eq, sqrt_lt_R0, Hq).
  assert (Hratio : 0 < c_S0 c / c_strike c) by (apply Rdiv_lt_0_compat; assumption).
  unfold closed_form_py.
  rewrite sigsqT_py_fin. cbn [rbind].
  rewrite muT_py_fin. cbn [rbind].
  rewrite py_div_fin by lra. cbn [rbind].
  rewrite F_log_fin by exact Hratio.
  rewrite F_sqrt_fin by lra.
  autorewrite with fin.
  rewrite F_div_fin by exact Hsq.
  autorewrite with fin.
  reflexivity.
Qed.

End ClosedForm.

(** ** The generator and the path matrix *)

Lemma scan_mul_seq (f : nat -> R) n : forall k,
  scan_mul (Fin (prodn f k)) (map (fun j => Fin (f j)) (seq k n))
  = map (fun j => Fin (prodn f (S j))) (seq k n).
Proof.
  induction n as [| n IH]; intros k; [reflexivity |].
  cbn [seq map scan_mul]. rewrite F_mul_fin.
  change (prodn f k * f k) with (prodn f (S k)).
  now rewrite IH.
Qed.

Lemma np_cumprod_seq (f : nat -> R) n :
  np_cumprod (map (fun j => Fin (f j)) (seq 0 n))
  = map (fun j => Fin (prodn f (S j))) (seq 0 n).
Proof.
  destruct n as [| n]; [reflexivity |].
  cbn [seq map np_cumprod].
  replace (Fin (f 0%nat)) with (Fin (prodn f 1)) by (simpl; f_equal; ring).
  now rewrite scan_mul_seq.
Qed.

Section PathFacts.

Variable G : Generator.

Lemma rng_after_add m : forall k (s : rng G),
  rng_after G k (rng_after G m s) = rng_after G (m + k) s.
Proof.
  induction m as [| m IH]; intros k s; [reflexivity |].
  simpl. apply IH.
Qed.

Lemma nth_gauss_after m k (s : rng G) :
  nth_gauss G (rng_after G m s) k = nth_gauss G s (m + k).
Proof. unfold nth_gauss. now rewrite rng_after_add. Qed.

Lemma draws_spec k : forall s : rng G,
  draws G k s = (map (fun j => Fin (nth_gauss G s j)) (seq 0 k), rng_after G k s).
Proof.
  induction k as [| k IH]; intros s; [reflexivity |].
  cbn [draws]. destruct (next_gauss s) as [z s1] eqn:E.
  rewrite IH. cbn [seq map rng_after]. rewrite E. cbn [snd].
  f_equal. f_equal.
  - unfold nth_gauss. cbn [rng_after]. now rewrite E.
  - rewrite <- seq_shift, map_map. apply map_ext. intros j.
    unfold nth_gauss. cbn [rng_after]. now rewrite E.
Qed.

Lemma draw_rows_spec n m : forall s : rng G,
  draw_rows G n m s
  = (map (fun i => map (fun j => Fin (nth_gauss G s (i * m + j))) (seq 0 m)) (seq 0 n),
     rng_after G (n * m) s).
Proof.
  induction n as [| n IH]; intros s; [reflexivity |].
  cbn [draw_rows]. rewrite draws_spec, IH.
  cbn [seq map]. f_equal.
  - f_equal.
    rewrite <- seq_shift, map_map. apply map_ext. intros i.
    apply map_ext. intros j. rewrite nth_gauss_after. do 2 f_equal. simpl. lia.
  - rewrite rng_after_add. f_equal.
Qed.

Lemma S_path_prodn c i t :
  S_path G c i t = c_S0 c * prodn (fun t => growth c (Z_draw G c i t)) t.
Proof.
  induction t as [| t IH]; simpl; [ring |]. rewrite IH. ring.
Qed.

End PathFacts.

Section PricePath.

Variable G : Generator.
Variable c : Contract.
Hypothesis Hvalid : valid c.

Lemma time_unit_pos : 0 < c_T c / IZR (c_M c).
Proof.
  apply Rdiv_lt_0_compat; [apply (valid_T Hvalid) | apply IZR_M_pos, Hvalid].
Qed.

Lemma randn_valid (s : rng G) :
  np_random_randn G (c_simulations c) (c_M c) s
  = (Ok (map (fun i => map (fun j => Fin (nth_gauss G s (i * Z.to_nat (c_M c) + j)))
                           (seq 0 (Z.to_nat (c_M c))))
             (seq 0 (Z.to_nat (c_simulations c)))),
     rng_after G (Z.to_nat (c_simulations c) * Z.to_nat (c_M c)) s).
Proof.
  unfold np_random_randn.
  pose proof (valid_M Hvalid). pose proof (valid_simulations Hvalid).
  replace ((c_simulations c <? 0) || (c_M c <? 0))%Z with false
    by (symmetry; apply orb_false_iff; split; apply Z.ltb_ge; lia).
  now rewrite draw_rows_spec.
Qed.

Lemma price_path_row i :
  map (F.mul (Fin (c_S0 c)))
    (np_cumprod
       (map (fun x => F.exp (F.add
                 (F.mul (F.sub (Fin (c_r c)) (F.mul (Fin 0.5) (F.pow2 (Fin (c_sigma c)))))
                        (Fin (c_T c / IZR (c_M c))))
                 (F.mul (F.mul (Fin (c_sigma c)) (F.sqrt (Fin (c_T c / IZR (c_M c))))) x)))
          (map (fun j => Fin (Z_draw G c i j)) (seq 0 (Z.to_nat (c_M c))))))
  = map Fin (map (fun t => S_path G c i (S t)) (seq 0 (Z.to_nat (c_M c)))).
Proof.
  rewrite F_sqrt_fin by (apply Rlt_le, time_unit_pos).
  rewrite map_map.
  rewrite (map_ext _ (fun j => Fin (growth c (Z_draw G c i j)))).
  2:{ intros j. autorewrite with fin. unfold growth. do 2 f_equal. ring. }
  rewrite np_cumprod_seq, !map_map. apply map_ext. intros t.
  rewrite F_mul_fin. now rewrite <- S_path_prodn.
Qed.

Lemma price_path_valid (s : rng G) :
  price_path G (instance_of c) s
  = (Ok (map (map Fin) (simulated_paths G c)), rng_final G c).
Proof.
  unfold price_path, bind, modify, attr, lift, ret, instance_of, getattr.
  cbn [S0 r sigma time_unit simulations M].
  rewrite randn_valid. unfold rng_final. f_equal. f_equal.
  unfold simulated_paths. rewrite !map_map. apply map_ext. intros i.
  rewrite <- price_path_row. reflexivity.
Qed.

End PricePath.

(** ** Statistics of finite arrays *)

Lemma np_sum_fin xs : np_sum (map Fin xs) = Fin (Rsum xs).
Proof.
  induction xs as [| x xs IH]; [reflexivity |].
  cbn [map]. unfold np_sum in *. cbn [fold_right]. now rewrite IH.
Qed.

Lemma INR_length_neq_0 {A} (xs : list A) : xs <> [] -> INR (length xs) <> 0.
Proof.
  intros H. destruct xs as [| x xs]; [congruence |].
  apply not_0_INR. discriminate.
Qed.

Lemma np_mean_fin xs : xs <> [] -> np_mean (map Fin xs) = Fin (mean xs).
Proof.
  intros H. unfold np_mean, of_nat, mean.
  rewrite np_sum_fin, length_map. apply F_div_fin, INR_length_neq_0, H.
Qed.

Lemma Rsum_nonneg xs : Forall (fun x => 0 <= x) xs -> 0 <= Rsum xs.
Proof.
  induction 1 as [| x xs Hx _ IH]; simpl; lra.
Qed.

Lemma mean_nonneg xs : Forall (fun x => 0 <= x) xs -> 0 <= mean xs.
Proof.
  intros H. unfold mean. destruct xs as [| x xs].
  - simpl. unfold Rdiv. rewrite Rmult_0_l. lra.
  - apply Rmult_le_pos; [apply Rsum_nonneg, H |].
    apply Rlt_le, Rinv_0_lt_compat, lt_0_INR. simpl. lia.
Qed.

Lemma variance_nonneg xs : 0 <= variance xs.
Proof.
  unfold variance. apply mean_nonneg.
  apply Forall_forall. intros y Hy. apply in_map_iff in Hy.
  destruct Hy as [x [<- _]]. apply pow2_ge_0.
Qed.

Lemma stddev_nonneg xs : 0 <= stddev xs.
Proof. apply sqrt_pos. Qed.

Lemma np_std_fin xs : xs <> [] -> np_std (map Fin xs) = Fin (stddev xs).
Proof.
  intros H. unfold np_std. rewrite np_mean_fin by exact H.
  rewrite map_map.
  rewrite (map_ext _ (fun x => Fin ((x - mean xs) ^ 2))).
  2:{ intros x. autorewrite with fin. f_equal. ring. }
  rewrite <- (map_map (fun x => (x - mean xs) ^ 2) Fin).
  rewrite np_mean_fin by (destruct xs; [congruence | discriminate]).
  apply F_sqrt_fin, variance_nonneg.
Qed.

Lemma bounds_fin xs n :
  xs <> [] -> (0 < n)%Z ->
  lower_bound (np_mean (map Fin xs)) (np_std (map Fin xs)) n = Fin (lower95 xs n)
  /\ upper_bound (np_mean (map Fin xs)) (np_std (map Fin xs)) n = Fin (upper95 xs n).
Proof.
  intros H Hn.
  assert (Hs : 0 < sqrt (IZR n)) by (apply sqrt_lt_R0, IZR_lt, Hn).
  unfold lower_bound, upper_bound, of_int.
  rewrite np_mean_fin, np_std_fin by exact H.
  rewrite F_sqrt_fin by (apply Rlt_le, IZR_lt, Hn).
  autorewrite with fin. rewrite F_div_fin by lra. autorewrite with fin.
  split; reflexivity.
Qed.

(** The interval brackets the mean. *)
Lemma interval_brackets xs n :
  (0 < n)%Z -> lower95 xs n <= mean xs <= upper95 xs n.
Proof.
  intros Hn.
  assert (Hs : 0 < sqrt (IZR n)) by (apply sqrt_lt_R0, IZR_lt, Hn).
  pose proof (stddev_nonneg xs) as Hd.
  assert (0 <= 1.96 * stddev xs / sqrt (IZR n)).
  { apply Rmult_le_pos; [lra | apply Rlt_le, Rinv_0_lt_compat, Hs]. }
  unfold lower95, upper95. lra.
Qed.

(** ** The plain estimator on a valid contract *)

Section PlainEstimator.

Variable G : Generator.
Variable c : Contract.
Hypothesis Hvalid : valid c.

Lemma M_to_nat_neq_0 : Z.to_nat (c_M c) <> 0%nat.
Proof. pose proof (valid_M Hvalid). lia. Qed.

Lemma simulations_to_nat_neq_0 : Z.to_nat (c_simulations c) <> 0%nat.
Proof. pose proof (valid_simulations Hvalid). lia. Qed.

Lemma map_seq_nonempty {A} (f : nat -> A) n : n <> 0%nat -> map f (seq 0 n) <> [].
Proof. destruct n; [congruence | discriminate]. Qed.

Lemma simulated_paths_nonempty : simulated_paths G c <> [].
Proof. apply map_seq_nonempty, simulations_to_nat_neq_0. Qed.

Lemma simulated_path_nonempty path : In path (simulated_paths G c) -> path <> [].
Proof.
  intros H. apply in_map_iff in H. destruct H as [i [<- _]].
  apply map_seq_nonempty, M_to_nat_neq_0.
Qed.

Lemma row_means_fin :
  map np_mean (map (map Fin) (simulated_paths G c))
  = map Fin (map arithmetic_average (simulated_paths G c)).
Proof.
  rewrite !map_map. apply map_ext_in. intros path H.
  apply np_mean_fin, simulated_path_nonempty, H.
Qed.

Lemma payoffs_fin (avg : list R) :
  (if py_eq_str (PyStr (kind_name (c_kind c))) "call"
   then call_payoffs (Fin (exp (- c_r c * c_T c))) (Fin (c_strike c)) (map Fin avg)
   else put_payoffs (Fin (exp (- c_r c * c_T c))) (Fin (c_strike c)) (map Fin avg))
  = map Fin (map (fun a => payoff (c_kind c) a (c_strike c) * exp (- c_r c * c_T c)) avg).
Proof.
  destruct (c_kind c); cbn [kind_name py_eq_str py_ne_str String.eqb Ascii.eqb
                            Bool.eqb negb andb payoff];
    unfold call_payoffs, put_payoffs; rewrite !map_map; apply map_ext; intros a;
    autorewrite with fin; f_equal; ring.
Qed.

Lemma MCPayoff_valid (s : rng G) :
  MCPayoff G (instance_of c) s
  = (Ok (map Fin (map (arithmetic_payoff c) (simulated_paths G c))), rng_final G c).
Proof.
  transitivity
    (Ok (map Fin (map (fun a => payoff (c_kind c) a (c_strike c) * exp (- c_r c * c_T c))
                      (map arithmetic_average (simulated_paths G c)))),
     rng_final G c).
  - rewrite <- payoffs_fin, <- row_means_fin.
    unfold MCPayoff, bind, attr, lift, getattr, ret.
    cbn [instance_of option_type discount strike].
    destruct (py_eq_str _ _); cbn [instance_of option_type discount strike];
      now rewrite (price_path_valid G Hvalid).
  - now rewrite (map_map arithmetic_average).
Qed.

Lemma arithmetic_payoffs_nonempty : arithmetic_payoffs G c <> [].
Proof.
  unfold arithmetic_payoffs. pose proof simulated_paths_nonempty.
  destruct (simulated_paths G c); [congruence | discriminate].
Qed.

Lemma value_valid (s : rng G) :
  value G (instance_of c) s
  = (Ok (Fin (mean (arithmetic_payoffs G c)),
         Fin (lower95 (arithmetic_payoffs G c) (c_simulations c)),
         Fin (upper95 (arithmetic_payoffs G c) (c_simulations c))),
     rng_final G c).
Proof.
  destruct (bounds_fin arithmetic_payoffs_nonempty (valid_simulations Hvalid))
    as [Hlo Hup].
  unfold value, bind. rewrite !MCPayoff_valid.
  unfold attr, lift, getattr, ret. cbn [instance_of simulations].
  fold (arithmetic_payoffs G c). rewrite Hlo, Hup.
  now rewrite np_mean_fin by exact arithmetic_payoffs_nonempty.
Qed.

End PlainEstimator.

(** ** The control-variate estimator on a valid contract *)

Lemma map2_map {A B C D} (h : B -> C -> D) (f : A -> B) (g : A -> C) (l : list A) :
  map2 h (map f l) (map g l) = map (fun x => h (f x) (g x)) l.
Proof. induction l as [| x l IH]; simpl; [reflexivity | now rewrite IH]. Qed.

Lemma np_sub_map {A} (f g : A -> float64) (l : list A) :
  np_sub (map f l) (map g l) = Ok (map (fun x => F.sub (f x) (g x)) l).
Proof.
  unfold np_sub. rewrite !length_map, Nat.eqb_refl. now rewrite map2_map.
Qed.

Section ControlVariate.

Variable G : Generator.
Variable c : Contract.
Hypothesis Hvalid : valid c.

Lemma geometric_payoffs_np (w : float64) :
  w = F.div (Fin 1) (of_int (c_M c)) ->
  (if py_eq_str (PyStr (kind_name (c_kind c))) "call"
   then call_payoffs (Fin (exp (- c_r c * c_T c))) (Fin (c_strike c))
          (map F.exp (map (F.mul w)
             (map np_sum (map (map F.log) (map (map Fin) (simulated_paths G c))))))
   else put_payoffs (Fin (exp (- c_r c * c_T c))) (Fin (c_strike c))
          (map F.exp (map (F.mul w)
             (map np_sum (map (map F.log) (map (map Fin) (simulated_paths G c)))))))
  = map (fun path => geometric_payoff_np c (map Fin path)) (simulated_paths G c).
Proof.
  intros ->.
  destruct (c_kind c) eqn:E;
    cbn [kind_name py_eq_str py_ne_str String.eqb Ascii.eqb Bool.eqb negb andb];
    unfold call_payoffs, put_payoffs; rewrite !map_map; apply map_ext; intros path;
    unfold geometric_payoff_np, geometric_average_np; now rewrite E.
Qed.

Lemma one_over_M : py_div (Fin 1) (of_int (c_M c)) = Ok (F.div (Fin 1) (of_int (c_M c))).
Proof.
  unfold py_div, of_int. rewrite Req_b_false; [reflexivity |].
  apply Rgt_not_eq, IZR_M_pos, Hvalid.
Qed.

Lemma value_with_control_variate_valid (s : rng G) :
  value_with_control_variate G (instance_of c) s
  = (g <-- GeometricAsianOption (instance_of c) ;;
     Ok (estimate (corrected_values G c g) (c_simulations c)),
     rng_final G c).
Proof.
  unfold value_with_control_variate, bind.
  unfold attr at 1, lift at 1, getattr at 1. cbn [instance_of M].
  unfold lift at 1. rewrite one_over_M.
  rewrite (price_path_valid G Hvalid).
  unfold attr at 1, lift at 1, getattr at 1. cbn [instance_of option_type].
  pose proof (geometric_payoffs_np eq_refl) as Hgeo.
  destruct (py_eq_str (PyStr (kind_name (c_kind c))) "call");
    unfold attr, lift, getattr, ret; cbn [instance_of discount strike simulations];
    rewrite Hgeo, (MCPayoff_valid G Hvalid);
    (destruct (GeometricAsianOption _) as [g | e]; [| reflexivity]);
    cbn [rbind]; rewrite !map_map, np_sub_map; reflexivity.
Qed.

End ControlVariate.

(** ** Positive prices: the control-variate estimator over the reals *)

Lemma np_sum_log_fin (path : list R) :
  Forall (fun x => 0 < x) path ->
  np_sum (map F.log (map Fin path)) = Fin (Rsum (map ln path)).
Proof.
  induction 1 as [| x path Hx _ IH]; [reflexivity |].
  cbn [map]. unfold np_sum in *. cbn [fold_right].
  rewrite IH, F_log_fin by exact Hx. reflexivity.
Qed.

Section PositivePrices.

Variable G : Generator.
Variable c : Contract.
Hypothesis Hvalid : valid c.
Hypothesis HS0 : 0 < c_S0 c.

Lemma growth_pos z : 0 < growth c z.
Proof. apply exp_pos. Qed.

Lemma S_path_pos i t : 0 < S_path G c i t.
Proof.
  induction t as [| t IH]; simpl; [exact HS0 |].
  apply Rmult_lt_0_compat; [exact IH | apply growth_pos].
Qed.

Lemma simulated_path_pos path :
  In path (simulated_paths G c) -> Forall (fun x => 0 < x) path.
Proof.
  intros H. apply in_map_iff in H. destruct H as [i [<- _]].
  apply Forall_forall. intros x Hx. apply in_map_iff in Hx.
  destruct Hx as [t [<- _]]. apply S_path_pos.
Qed.

Lemma payoff_np_fin k a s : payoff_np k (Fin a) (Fin s) = Fin (payoff k a s).
Proof. destruct k; reflexivity. Qed.

Lemma geometric_payoff_np_fin path :
  Forall (fun x => 0 < x) path ->
  geometric_payoff_np c (map Fin path) = Fin (geometric_payoff c path).
Proof.
  intros H. unfold geometric_payoff_np, geometric_average_np, of_int.
  rewrite np_sum_log_fin by exact H.
  rewrite F_div_fin by (apply Rgt_not_eq, IZR_M_pos, Hvalid).
  autorewrite with fin. rewrite payoff_np_fin. autorewrite with fin.
  unfold geometric_payoff, geometric_average. f_equal. ring.
Qed.

Lemma corrected_values_fin g :
  corrected_values G c (Fin g) = map Fin (corrected_values_R G c g).
Proof.
  unfold corrected_values, corrected_values_R. rewrite map_map.
  apply map_ext_in. intros path H. unfold corrected_value.
  rewrite geometric_payoff_np_fin by (apply simulated_path_pos, H).
  reflexivity.
Qed.

Lemma corrected_values_R_nonempty g : corrected_values_R G c g <> [].
Proof.
  unfold corrected_values_R. pose proof (simulated_paths_nonempty G Hvalid).
  destruct (simulated_paths G c); [congruence | discriminate].
Qed.

Lemma value_with_control_variate_fin (s : rng G) :
  0 < c_strike c -> 0 < c_sigma c ->
  value_with_control_variate G (instance_of c) s
  = (Ok (Fin (mean (corrected_values_R G c (closed_form c))),
         Fin (lower95 (corrected_values_R G c (closed_form c)) (c_simulations c)),
         Fin (upper95 (corrected_values_R G c (closed_form c)) (c_simulations c))),
     rng_final G c).
Proof.
  intros HK Hsig.
  rewrite (value_with_control_variate_valid G Hvalid).
  rewrite GeometricAsianOption_closed_form_py.
  rewrite (closed_form_py_fin Hvalid HS0 HK Hsig). cbn [rbind].
  rewrite corrected_values_fin. unfold estimate.
  destruct (bounds_fin (corrected_values_R_nonempty (closed_form c))
              (valid_simulations Hvalid)) as [Hlo Hup].
  rewrite Hlo, Hup.
  now rewrite np_mean_fin by apply corrected_values_R_nonempty.
Qed.

End PositivePrices.

(** ** Variance of the corrected values *)

Section Moments.

Context {A : Type}.
Variable l : list A.

Lemma Rsum_map_plus (a b : A -> R) :
  Rsum (map (fun p => a p + b p) l) = Rsum (map a l) + Rsum (map b l).
Proof. induction l as [| x t IH]; simpl; [ring | rewrite IH; ring]. Qed.

Lemma Rsum_map_scal k (a : A -> R) :
  Rsum (map (fun p => k * a p) l) = k * Rsum (map a l).
Proof. induction l as [| x t IH]; simpl; [ring | rewrite IH; ring]. Qed.

Lemma Rsum_map_const k : Rsum (map (fun _ => k) l) = INR (length l) * k.
Proof.
  induction l as [| x t IH]; [simpl; ring |].
  cbn [map Rsum fold_right length]. fold (Rsum (map (fun _ => k) t)).
  rewrite IH, S_INR. ring.
Qed.

Lemma mean_map_plus (a b : A -> R) :
  mean (map (fun p => a p + b p) l) = mean (map a l) + mean (map b l).
Proof. unfold mean. rewrite !length_map, Rsum_map_plus. unfold Rdiv. ring. Qed.

Lemma mean_map_scal k (a : A -> R) :
  mean (map (fun p => k * a p) l) = k * mean (map a l).
Proof. unfold mean. rewrite !length_map, Rsum_map_scal. unfold Rdiv. ring. Qed.

Lemma mean_map_const k : l <> [] -> mean (map (fun _ => k) l) = k.
Proof.
  intros H. unfold mean. rewrite length_map, Rsum_map_const.
  field. apply INR_length_neq_0, H.
Qed.

Lemma covariance_map (f h : A -> R) :
  covariance (map f l) (map h l)
  = mean (map (fun p => (f p - mean (map f l)) * (h p - mean (map h l))) l).
Proof. unfold covariance. now rewrite map2_map. Qed.

Lemma variance_map (f : A -> R) :
  variance (map f l) = mean (map (fun p => (f p - mean (map f l)) ^ 2) l).
Proof. unfold variance. now rewrite map_map. Qed.

Lemma mean_corrected (f h : A -> R) g :
  l <> [] ->
  mean (map (fun p => f p + g - h p) l) = mean (map f l) + g - mean (map h l).
Proof.
  intros H.
  rewrite (map_ext _ (fun p => f p + ((fun _ => g) p + (-1) * h p)))
    by (intros p; ring).
  rewrite mean_map_plus, mean_map_plus, mean_map_scal, mean_map_const by exact H.
  ring.
Qed.

(** [Var(X + g - Y) = Var X - 2 Cov(X, Y) + Var Y]. *)
Lemma variance_corrected (f h : A -> R) g :
  l <> [] ->
  variance (map (fun p => f p + g - h p) l)
  = variance (map f l) - 2 * covariance (map f l) (map h l) + variance (map h l).
Proof.
  intros H.
  rewrite (variance_map (fun p => f p + g - h p)), mean_corrected by exact H.
  rewrite (map_ext _ (fun p =>
     (fun p => (f p - mean (map f l)) ^ 2) p
     + ((-2) * (fun p => (f p - mean (map f l)) * (h p - mean (map h l))) p
        + (fun p => (h p - mean (map h l)) ^ 2) p)))
    by (intros p; ring).
  rewrite mean_map_plus, mean_map_plus, mean_map_scal.
  rewrite <- !variance_map, <- covariance_map. ring.
Qed.

Lemma covariance_const x (h : A -> R) :
  l <> [] -> covariance (map (fun _ => x) l) (map h l) = 0.
Proof.
  intros H. rewrite covariance_map. rewrite (mean_map_const x H).
  rewrite (map_ext _ (fun _ => 0)) by (intros p; ring).
  now apply mean_map_const.
Qed.

End Moments.

(** The width of the 95% interval grows with the variance. *)
Lemma width_95 xs n :
  upper95 xs n - lower95 xs n = 2 * (1.96 * stddev xs / sqrt (IZR n)).
Proof. unfold upper95, lower95. ring. Qed.

Lemma width_le xs ys n :
  (0 < n)%Z -> variance xs <= variance ys ->
  upper95 xs n - lower95 xs n <= upper95 ys n - lower95 ys n.
Proof.
  intros Hn Hv. rewrite !width_95.
  assert (Hs : 0 < / sqrt (IZR n)) by (apply Rinv_0_lt_compat, sqrt_lt_R0, IZR_lt, Hn).
  assert (Hd : stddev xs <= stddev ys) by (apply sqrt_le_1_alt, Hv).
  unfold Rdiv. nra.
Qed.

Lemma width_lt xs ys n :
  (0 < n)%Z -> variance xs < variance ys ->
  upper95 xs n - lower95 xs n < upper95 ys n - lower95 ys n.
Proof.
  intros Hn Hv. rewrite !width_95.
  assert (Hs : 0 < / sqrt (IZR n)) by (apply Rinv_0_lt_compat, sqrt_lt_R0, IZR_lt, Hn).
  assert (Hd : stddev xs < stddev ys).
  { apply sqrt_lt_1_alt. split; [apply variance_nonneg | exact Hv]. }
  unfold Rdiv. nra.
Qed.

Section VarianceReduction.

Variable G : Generator.
Variable c : Contract.
Hypothesis Hvalid : valid c.

Lemma variance_corrected_values g :
  variance (corrected_values_R G c g)
  = variance (arithmetic_payoffs G c)
    - 2 * covariance (arithmetic_payoffs G c) (geometric_payoffs G c)
    + variance (geometric_payoffs G c).
Proof.
  unfold corrected_values_R, arithmetic_payoffs, geometric_payoffs.
  apply variance_corrected, simulated_paths_nonempty, Hvalid.
Qed.

End VarianceReduction.

(** ** Degenerate contracts: identical paths, no correlation *)

Section Degenerate.

Variable G : Generator.
Variable c : Contract.
Hypothesis Hvalid : valid c.
Hypothesis Hdeg : c_S0 c = 0 \/ c_sigma c = 0.

Lemma S_path_same i i' t : S_path G c i t = S_path G c i' t.
Proof.
  destruct Hdeg as [H0 | H0].
  - assert (Z0 : forall j, S_path G c j t = 0).
    { intros j. induction t as [| t IH]; simpl; [exact H0 | rewrite IH; ring]. }
    now rewrite !Z0.
  - induction t as [| t IH]; simpl; [reflexivity |].
    rewrite IH. f_equal. unfold growth. rewrite H0. f_equal. ring.
Qed.

Lemma covariance_degenerate :
  covariance (arithmetic_payoffs G c) (geometric_payoffs G c) = 0.
Proof.
  unfold arithmetic_payoffs, geometric_payoffs, simulated_paths.
  rewrite !map_map.
  set (row := map (fun t => S_path G c 0 (S t)) (seq 0 (Z.to_nat (c_M c)))).
  assert (Hrow : forall i, map (fun t => S_path G c i (S t)) (seq 0 (Z.to_nat (c_M c))) = row).
  { intros i. apply map_ext. intros t. apply S_path_same. }
  rewrite (map_ext _ (fun _ => arithmetic_payoff c row)) by (intros i; now rewrite Hrow).
  rewrite (map_ext (fun i => geometric_payoff c _) (fun _ => geometric_payoff c row))
    by (intros i; now rewrite Hrow).
  assert (Hne : seq 0 (Z.to_nat (c_simulations c)) <> []).
  { pose proof (valid_simulations Hvalid). destruct (Z.to_nat (c_simulations c)) eqn:E;
      [lia | discriminate]. }
  now apply covariance_const.
Qed.

End Degenerate.

Lemma correlated_nondegenerate G c :
  valid c ->
  0 < covariance (arithmetic_payoffs G c) (geometric_payoffs G c) ->
  0 < c_S0 c /\ 0 < c_sigma c.
Proof.
  intros Hv Hcov.
  pose proof (valid_S0 Hv). pose proof (valid_sigma Hv).
  split.
  - destruct (Req_dec_T (c_S0 c) 0) as [E | E]; [| lra].
    rewrite (covariance_degenerate G Hv (or_introl E)) in Hcov. lra.
  - destruct (Req_dec_T (c_sigma c) 0) as [E | E]; [| lra].
    rewrite (covariance_degenerate G Hv (or_intror E)) in Hcov. lra.
Qed.

(** ** The constructor on numeric arguments *)

Lemma trunc_IZR n : trunc (IZR n) = n.
Proof.
  unfold trunc. destruct (Rle_dec 0 (IZR n)) as [H | H].
  - rewrite Rle_b_true by exact H. symmetry. apply Int_part_spec. lra.
  - rewrite Rle_b_false by exact H. rewrite <- opp_IZR.
    rewrite <- (Int_part_spec (IZR (- n)) (- n)); [lia | lra].
Qed.

Section ConstructorFacts.

Variable float_of_str : string -> option float64.
Variable int_of_str : string -> option Z.

Lemma py_float_numeric v x : numeric v x -> py_float float_of_str v = Ok (Fin x).
Proof. intros [-> | [n [-> ->]]]; reflexivity. Qed.

Lemma py_int_integral v n : integral v n -> py_int int_of_str v = Ok n.
Proof. intros [-> | [x [-> <-]]]; reflexivity. Qed.

Lemma py_lt0_numeric v x : numeric v x -> py_lt0 v = Ok (Rlt_b x 0).
Proof.
  intros [-> | [n [-> ->]]]; [reflexivity |].
  simpl. f_equal. destruct (Z.ltb_spec n 0) as [H | H].
  - symmetry. apply Rlt_b_true. now apply IZR_lt.
  - symmetry. apply Rlt_b_false. apply Rle_not_lt. now apply IZR_le.
Qed.

Lemma py_le0_numeric v x : numeric v x -> py_le0 v = Ok (Rle_b x 0).
Proof.
  intros [-> | [n [-> ->]]]; [reflexivity |].
  simpl. f_equal. destruct (Z.leb_spec n 0) as [H | H].
  - symmetry. apply Rle_b_true. now apply IZR_le.
  - symmetry. apply Rle_b_false. apply Rlt_not_le. now apply IZR_lt.
Qed.

Lemma init_not_a_string ot vS0 vK vT vM vr vdiv vsig vn :
  isinstance_str ot = false ->
  __init__ float_of_str int_of_str ot vS0 vK vT vM vr vdiv vsig vn
  = ([], Raise AssertionError).
Proof.
  intros H. unfold __init__, init_body, bind at 1 2, try_except_ValueError.
  unfold coerce, bind at 1 2, setattr, modify, py_assert. rewrite H. reflexivity.
Qed.

Section NumericArguments.

Variables (s : string) (vS0 vK vT vM vr vdiv vsig vn : pyval).
Variables (xS0 xK xT : R) (m : Z) (xr xdiv xsig : R) (n : Z).
Hypothesis HS0 : numeric vS0 xS0.
Hypothesis HK : numeric vK xK.
Hypothesis HT : numeric vT xT.
Hypothesis HM : integral vM m.
Hypothesis Hr : numeric vr xr.
Hypothesis Hdiv : numeric vdiv xdiv.
Hypothesis Hsig : numeric vsig xsig.
Hypothesis Hn : integral vn n.

Lemma coerce_numeric out :
  coerce float_of_str int_of_str (PyStr s) vS0 vK vT vM vr vdiv vsig vn (blank, out)
  = (Ok tt, (coerced (PyStr s) xS0 xK xT m xr xdiv xsig n, out)).
Proof.
  unfold coerce, bind, setattr, modify, py_assert, lift, ret.
  cbn [isinstance_str fst snd].
  rewrite (py_float_numeric HS0), (py_float_numeric HK), (py_float_numeric HT),
    (py_int_integral HM), (py_float_numeric Hr), (py_float_numeric Hdiv),
    (py_float_numeric Hsig), (py_int_integral Hn).
  reflexivity.
Qed.

Lemma out_of_bounds_numeric :
  out_of_bounds vS0 vK vT vr vdiv vsig
  = Ok (Rlt_b xS0 0 || (Rlt_b xK 0 || (Rle_b xT 0 || (Rlt_b xr 0
        || (Rlt_b xdiv 0 || Rlt_b xsig 0))))).
Proof.
  unfold out_of_bounds.
  rewrite (py_lt0_numeric HS0), (py_lt0_numeric HK), (py_le0_numeric HT),
    (py_lt0_numeric Hr), (py_lt0_numeric Hdiv), (py_lt0_numeric Hsig).
  unfold py_or, rbind.
  destruct (Rlt_b xS0 0), (Rlt_b xK 0), (Rle_b xT 0), (Rlt_b xr 0), (Rlt_b xdiv 0),
    (Rlt_b xsig 0); reflexivity.
Qed.

Lemma init_numeric :
  __init__ float_of_str int_of_str (PyStr s) vS0 vK vT vM vr vdiv vsig vn
  = if negb (String.eqb s "call") && negb (String.eqb s "put")
    then ([], Raise (ValueError option_type_not_valid))
    else if Rlt_b xS0 0 || (Rlt_b xK 0 || (Rle_b xT 0 || (Rlt_b xr 0
                 || (Rlt_b xdiv 0 || Rlt_b xsig 0))))
    then ([], Raise (ValueError negative_inputs))
    else if Req_b (IZR m) 0
    then ([], Raise ZeroDivisionError)
    else ([], Ok (mkAsianOptionMC (Some (PyStr s)) (Some (Fin xS0)) (Some (Fin xK))
                    (Some (Fin xT)) (Some m) (Some (Fin xr)) (Some (Fin xdiv))
                    (Some (Fin xsig)) (Some n)
                    (Some (Fin (xT / IZR m))) (Some (Fin (exp (- xr * xT)))))).
Proof.
  unfold __init__, init_body, bind at 1 2, try_except_ValueError.
  rewrite coerce_numeric. unfold checks, bind at 1.
  cbn [py_ne_str].
  destruct (negb (String.eqb s "call") && negb (String.eqb s "put")); [reflexivity |].
  unfold ret at 1, bind at 1, lift at 1. rewrite out_of_bounds_numeric.
  destruct (Rlt_b xS0 0 || _); [reflexivity |].
  unfold ret at 1, derived, bind, self_attr, getattr, lift, setattr, modify, py_div, of_int.
  cbn [coerced T M r fst snd].
  destruct (Req_b (IZR m) 0) eqn:E; [reflexivity |].
  cbn [set_time_unit T M r fst snd].
  rewrite F_div_fin by (intros H; rewrite (Req_b_true H) in E; discriminate).
  reflexivity.
Qed.

Lemma init_in_bounds (k : kind) :
  s = kind_name k ->
  0 <= xS0 -> 0 <= xK -> 0 < xT -> 0 <= xr -> 0 <= xdiv -> 0 <= xsig -> m <> 0%Z ->
  __init__ float_of_str int_of_str (PyStr s) vS0 vK vT vM vr vdiv vsig vn
  = ([], Ok (instance_of (mkContract k xS0 xK xT m xr xdiv xsig n))).
Proof.
  intros Hs B1 B2 B3 B4 B5 B6 Bm. rewrite init_numeric, Hs.
  replace (negb (String.eqb (kind_name k) "call") && negb (String.eqb (kind_name k) "put"))
    with false by (destruct k; reflexivity).
  rewrite !Rlt_b_false, Rle_b_false by lra. cbn [orb].
  rewrite Req_b_false by (apply not_0_IZR, Bm).
  reflexivity.
Qed.

End NumericArguments.

End ConstructorFacts.

(** ** What the constructor prints and raises *)

Lemma quiet_bind {A B} (c : py ctor_state A) (k : A -> py ctor_state B) :
  quiet c -> (forall a, quiet (k a)) -> quiet (bind c k).
Proof.
  intros Hc Hk s. unfold bind. specialize (Hc s).
  destruct (c s) as [[a | e] s1]; cbn [snd] in *; [| exact Hc].
  now rewrite (Hk a s1).
Qed.

Lemma quiet_ret {A} (a : A) : quiet (ret a).
Proof. intros s. reflexivity. Qed.

Lemma quiet_raise {A} e : quiet (@raise ctor_state A e).
Proof. intros s. reflexivity. Qed.

Lemma quiet_lift {A} (x : result A) : quiet (lift x).
Proof. intros s. reflexivity. Qed.

Lemma quiet_setattr f : quiet (setattr f).
Proof. intros s. reflexivity. Qed.

Lemma quiet_self_attr {A} (f : AsianOptionMC -> option A) : quiet (self_attr f).
Proof. intros s. reflexivity. Qed.

Lemma quiet_assert b : quiet (py_assert b).
Proof. destruct b; [apply quiet_ret | apply quiet_raise]. Qed.

Lemma quiet_if {A} (b : bool) (c1 c2 : py ctor_state A) :
  quiet c1 -> quiet c2 -> quiet (if b then c1 else c2).
Proof. now destruct b. Qed.

Create HintDb quiet.
#[global] Hint Resolve quiet_ret quiet_raise quiet_lift quiet_setattr
  quiet_self_attr quiet_assert quiet_if : quiet.

Ltac quiet_steps :=
  repeat (apply quiet_bind; [| intros ?]); auto with quiet.

Lemma raises_only_bind {S A B} (P : exn -> Prop) (c : py S A) (k : A -> py S B) :
  raises_only P c -> (forall a, raises_only P (k a)) -> raises_only P (bind c k).
Proof.
  intros Hc Hk s e s'. unfold bind.
  destruct (c s) as [[a | e1] s1] eqn:E.
  - apply Hk.
  - intros H. inversion H; subst. eapply Hc, E.
Qed.

Lemma raises_only_ret {S A} P (a : A) : raises_only P (@ret S A a).
Proof. intros s e s' H. discriminate H. Qed.

Lemma raises_only_raise {S A} (P : exn -> Prop) e : P e -> raises_only P (@raise S A e).
Proof. intros He s e' s' H. inversion H; subst. exact He. Qed.

Lemma raises_only_setattr P f : raises_only P (setattr f).
Proof. intros s e s' H. discriminate H. Qed.

Lemma raises_only_self_attr {A} (P : exn -> Prop) (f : AsianOptionMC -> option A) :
  P AttributeError -> raises_only P (self_attr f).
Proof.
  intros He s e s'. unfold self_attr, getattr.
  destruct (f (fst s)); intros H; inversion H; subst. exact He.
Qed.

Lemma raises_only_py_div (P : exn -> Prop) a b :
  P ZeroDivisionError -> raises_only P (@lift ctor_state _ (py_div a b)).
Proof.
  intros He s e s'. unfold lift, py_div.
  destruct b as [y | | |]; try (intros H; discriminate H).
  destruct (Req_b y 0); intros H; inversion H; subst. exact He.
Qed.

Lemma py_lt0_raises v e : py_lt0 v = Raise e -> e = TypeError.
Proof. destruct v; simpl; intros H; inversion H; reflexivity. Qed.

Lemma py_le0_raises v e : py_le0 v = Raise e -> e = TypeError.
Proof. destruct v; simpl; intros H; inversion H; reflexivity. Qed.

Lemma py_or_raises a b e :
  (forall e', a = Raise e' -> e' = TypeError) ->
  (forall e', b = Raise e' -> e' = TypeError) ->
  py_or a b = Raise e -> e = TypeError.
Proof.
  intros Ha Hb. unfold py_or, rbind. destruct a as [[|] | e1].
  - discriminate.
  - apply Hb.
  - intros H. inversion H; subst. now apply Ha.
Qed.

Lemma out_of_bounds_raises vS0 vK vT vr vdiv vsig e :
  out_of_bounds vS0 vK vT vr vdiv vsig = Raise e -> e = TypeError.
Proof.
  unfold out_of_bounds.
  repeat (apply py_or_raises; [intros ?; first [apply py_lt0_raises | apply py_le0_raises]
                              | intros ?]).
  apply py_lt0_raises.
Qed.

Lemma checks_quiet ot vS0 vK vT vr vdiv vsig : quiet (checks ot vS0 vK vT vr vdiv vsig).
Proof. unfold checks. quiet_steps. Qed.

Lemma derived_quiet : quiet derived.
Proof. unfold derived. quiet_steps. Qed.

Lemma checks_raises ot vS0 vK vT vr vdiv vsig :
  raises_only after_try_error (checks ot vS0 vK vT vr vdiv vsig).
Proof.
  unfold checks, after_try_error. apply raises_only_bind.
  - destruct (_ && _); [apply raises_only_raise; tauto | apply raises_only_ret].
  - intros _. apply raises_only_bind.
    + intros s e s' H. unfold lift in H. inversion H as [[H1 H2]].
      apply out_of_bounds_raises in H1. tauto.
    + intros [|]; [apply raises_only_raise; tauto | apply raises_only_ret].
Qed.

Lemma derived_raises : raises_only after_try_error derived.
Proof.
  unfold derived, after_try_error.
  repeat (apply raises_only_bind; [| intros ?]);
    first [apply raises_only_self_attr; tauto
          | apply raises_only_py_div; tauto
          | apply raises_only_setattr].
Qed.

Section Coercion.

Variable float_of_str : string -> option float64.
Variable int_of_str : string -> option Z.

Lemma coerce_quiet ot vS0 vK vT vM vr vdiv vsig vn :
  quiet (coerce float_of_str int_of_str ot vS0 vK vT vM vr vdiv vsig vn).
Proof. unfold coerce. quiet_steps. Qed.

(** A [ValueError] of the [try] block is caught: the message is printed
    and construction goes on from the object as it stands. *)
Lemma init_after_caught ot vS0 vK vT vM vr vdiv vsig vn msg self out :
  coerce float_of_str int_of_str ot vS0 vK vT vM vr vdiv vsig vn (blank, [])
  = (Raise (ValueError msg), (self, out)) ->
  __init__ float_of_str int_of_str ot vS0 vK vT vM vr vdiv vsig vn
  = match bind (checks ot vS0 vK vT vr vdiv vsig) (fun _ => derived)
            (self, [error_passing]) with
    | (Ok _, (self', out')) => (out', Ok self')
    | (Raise e, (_, out')) => (out', Raise e)
    end.
Proof.
  intros H.
  assert (out = []) as ->.
  { pose proof (coerce_quiet ot vS0 vK vT vM vr vdiv vsig vn (blank, [])) as Q.
    rewrite H in Q. exact Q. }
  unfold __init__, init_body, bind at 1, try_except_ValueError. rewrite H.
  reflexivity.
Qed.

Lemma init_caught_outcome ot vS0 vK vT vM vr vdiv vsig vn msg st :
  coerce float_of_str int_of_str ot vS0 vK vT vM vr vdiv vsig vn (blank, [])
  = (Raise (ValueError msg), st) ->
  fst (__init__ float_of_str int_of_str ot vS0 vK vT vM vr vdiv vsig vn)
  = [error_passing]
  /\ forall e,
       snd (__init__ float_of_str int_of_str ot vS0 vK vT vM vr vdiv vsig vn) = Raise e ->
       after_try_error e.
Proof.
  destruct st as [self out]. intros H. rewrite (init_after_caught _ _ _ _ _ _ _ _ _ H).
  assert (Q : quiet (bind (checks ot vS0 vK vT vr vdiv vsig) (fun _ => derived))).
  { apply quiet_bind; [apply checks_quiet | intros _; apply derived_quiet]. }
  assert (E : raises_only after_try_error
                (bind (checks ot vS0 vK vT vr vdiv vsig) (fun _ => derived))).
  { apply raises_only_bind; [apply checks_raises | intros _; apply derived_raises]. }
  specialize (Q (self, [error_passing])). specialize (E (self, [error_passing])).
  destruct ((checks ot vS0 vK vT vr vdiv vsig ;;; derived) (self, [error_passing]))
    as [[u | e] [self' out']];
    cbn [fst snd] in *.
  - split; [exact Q | intros e H'; discriminate H'].
  - split; [exact Q |]. intros e' H'. inversion H'; subst. eapply E. reflexivity.
Qed.

End Coercion.

(** ** A coercion failure on the last argument *)

Section BadSimulations.

Variable float_of_str : string -> option float64.
Variable int_of_str : string -> option Z.

Variables (k : kind) (vS0 vK vT vM vr vdiv vsig : pyval) (t : string).
Variables (xS0 xK xT : R) (m : Z) (xr xdiv xsig : R).
Hypothesis HS0 : numeric vS0 xS0.
Hypothesis HK : numeric vK xK.
Hypothesis HT : numeric vT xT.
Hypothesis HM : integral vM m.
Hypothesis Hr : numeric vr xr.
Hypothesis Hdiv : numeric vdiv xdiv.
Hypothesis Hsig : numeric vsig xsig.
Hypothesis Ht : int_of_str t = None.

Lemma coerce_bad_simulations :
  coerce float_of_str int_of_str (PyStr (kind_name k)) vS0 vK vT vM vr vdiv vsig
    (PyStr t) (blank, [])
  = (Raise (ValueError could_not_convert), ((without_simulations k xS0 xK xT m xr xdiv xsig), [])).
Proof.
  unfold coerce, bind, setattr, modify, py_assert, lift, ret.
  cbn [isinstance_str fst snd].
  rewrite (py_float_numeric float_of_str HS0), (py_float_numeric float_of_str HK),
    (py_float_numeric float_of_str HT), (py_int_integral int_of_str HM),
    (py_float_numeric float_of_str Hr), (py_float_numeric float_of_str Hdiv),
    (py_float_numeric float_of_str Hsig).
  cbn [py_int]. rewrite Ht. reflexivity.
Qed.

Lemma init_bad_simulations :
  0 <= xS0 -> 0 <= xK -> 0 < xT -> 0 <= xr -> 0 <= xdiv -> 0 <= xsig -> m <> 0%Z ->
  __init__ float_of_str int_of_str (PyStr (kind_name k)) vS0 vK vT vM vr vdiv vsig
    (PyStr t)
  = ([error_passing],
     Ok (set_discount (Fin (exp (- xr * xT)))
           (set_time_unit (Fin (xT / IZR m)) (without_simulations k xS0 xK xT m xr xdiv xsig)))).
Proof.
  intros B1 B2 B3 B4 B5 B6 Bm.
  rewrite (init_after_caught _ _ _ _ _ _ _ _ _ _ _ coerce_bad_simulations).
  unfold checks, bind at 1 2.
  replace (py_ne_str (PyStr (kind_name k)) "call" && py_ne_str (PyStr (kind_name k)) "put")
    with false by (destruct k; reflexivity).
  unfold ret at 1, bind at 1, lift at 1.
  rewrite (out_of_bounds_numeric HS0 HK HT Hr Hdiv Hsig).
  rewrite !Rlt_b_false, Rle_b_false by lra. cbn [orb].
  unfold ret at 1, derived, bind, self_attr, getattr, lift, setattr, modify.
  cbn [without_simulations T M r fst snd].
  unfold of_int. rewrite py_div_fin by (apply not_0_IZR, Bm).
  reflexivity.
Qed.

End BadSimulations.

(** ** Independence of the generator's state *)

Lemma uniform_fst {S A} (c : py S A) :
  uniform c -> forall s1 s2, fst (c s1) = fst (c s2).
Proof.
  intros [[x H] | [x [s' H]]] s1 s2; now rewrite (H s1), (H s2).
Qed.

Lemma uniform_lift {S A} (x : result A) : uniform (@lift S A x).
Proof. left. exists x. reflexivity. Qed.

Lemma uniform_ret {S A} (a : A) : uniform (@ret S A a).
Proof. left. exists (Ok a). reflexivity. Qed.

Lemma uniform_bind {S A B} (c : py S A) (k : A -> py S B) :
  uniform c -> (forall a, uniform (k a)) -> uniform (bind c k).
Proof.
  intros [[x H] | [x [s' H]]] Hk; unfold bind.
  - destruct x as [a | e].
    + destruct (Hk a) as [[y Hy] | [y [s' Hy]]].
      * left. exists y. intros s. now rewrite H, Hy.
      * right. exists y, s'. intros s. now rewrite H, Hy.
    + left. exists (Raise e). intros s. now rewrite H.
  - destruct x as [a | e].
    + right. exists (fst (k a s')), (snd (k a s')). intros s. rewrite H.
      now destruct (k a s').
    + right. exists (Raise e), s'. intros s. now rewrite H.
Qed.

Lemma uniform_if {S A} (b : bool) (c1 c2 : py S A) :
  uniform c1 -> uniform c2 -> uniform (if b then c1 else c2).
Proof. now destruct b. Qed.

Section Reseeding.

Variable G : Generator.
Variable self : AsianOptionMC.

Lemma price_path_reseeds (s1 s2 : rng G) : price_path G self s1 = price_path G self s2.
Proof. reflexivity. Qed.

Lemma price_path_uniform : uniform (price_path G self).
Proof.
  right. exists (fst (price_path G self (np_random_seed G seed))),
                (snd (price_path G self (np_random_seed G seed))).
  intros s. rewrite (price_path_reseeds s (np_random_seed G seed)).
  now destruct (price_path G self _).
Qed.

Lemma attr_uniform {A} (f : AsianOptionMC -> option A) : uniform (attr G f self).
Proof. apply uniform_lift. Qed.

Ltac uniform_steps :=
  repeat first [ apply price_path_uniform
               | apply attr_uniform
               | apply uniform_lift
               | apply uniform_ret
               | apply uniform_if
               | apply uniform_bind; [| intros ?] ].

Lemma MCPayoff_uniform : uniform (MCPayoff G self).
Proof. unfold MCPayoff. uniform_steps. Qed.

Lemma value_uniform : uniform (value G self).
Proof.
  unfold value.
  repeat first [ apply MCPayoff_uniform | apply attr_uniform | apply uniform_ret
               | apply uniform_bind; [| intros ?] ].
Qed.

Lemma value_with_control_variate_uniform : uniform (value_with_control_variate G self).
Proof.
  unfold value_with_control_variate.
  repeat first [ apply MCPayoff_uniform | apply price_path_uniform
               | apply attr_uniform | apply uniform_lift | apply uniform_ret
               | apply uniform_if
               | apply uniform_bind; [| intros ?] ].
Qed.

End Reseeding.

(** ** Shape and entries of the path matrix *)

Lemma nth_map_seq {A} (f : nat -> A) n i d :
  (i < n)%nat -> nth i (map f (seq 0 n)) d = f i.
Proof.
  intros H. rewrite (nth_indep _ d (f 0%nat)) by (now rewrite length_map, length_seq).
  rewrite map_nth. now rewrite seq_nth.
Qed.

Lemma simulated_paths_entry G c i t :
  (i < Z.to_nat (c_simulations c))%nat -> (t < Z.to_nat (c_M c))%nat ->
  nth t (nth i (simulated_paths G c) []) 0 = S_path G c i (S t).
Proof.
  intros Hi Ht. unfold simulated_paths.
  rewrite nth_map_seq by exact Hi. now rewrite nth_map_seq by exact Ht.
Qed.

Lemma simulated_paths_rows G c path :
  In path (simulated_paths G c) -> length path = Z.to_nat (c_M c).
Proof.
  intros H. apply in_map_iff in H. destruct H as [i [<- _]].
  now rewrite length_map, length_seq.
Qed.

Lemma valid_with_kind k c : valid c -> valid (with_kind k c).
Proof. intros [? ? ? ? ? ? ? ?]. constructor; assumption. Qed.

Lemma estimate_fin xs n :
  xs <> [] -> (0 < n)%Z ->
  estimate (map Fin xs) n = (Fin (mean xs), Fin (lower95 xs n), Fin (upper95 xs n)).
Proof.
  intros H Hn. unfold estimate. destruct (bounds_fin H Hn) as [-> ->].
  now rewrite np_mean_fin.
Qed.

(** ** Facts about the instances *)

Lemma docstring_contract_valid : valid docstring_contract.
Proof. constructor; simpl; lra || lia. Qed.

Lemma two_by_two_at_valid K : 0 <= K -> valid (two_by_two_at K).
Proof. intros H. constructor; simpl; lra || lia. Qed.

Lemma two_by_two_valid : valid two_by_two.
Proof. apply two_by_two_at_valid. lra. Qed.

Lemma growth_two_by_two K z : growth (two_by_two_at K) z = exp z.
Proof.
  unfold growth. cbn [two_by_two_at c_r c_sigma c_T c_M]. f_equal.
  replace (2 / 2) with 1 by field. rewrite sqrt_1. ring.
Qed.

Lemma simulated_paths_two_by_two K z1 z2 z3 z4 :
  simulated_paths (replay [z1; z2; z3; z4]) (two_by_two_at K)
  = [[exp z1; exp z1 * exp z2]; [exp z3; exp z3 * exp z4]].
Proof.
  unfold simulated_paths. cbn [two_by_two_at c_M c_simulations].
  change (Z.to_nat 2) with 2%nat. cbn [seq map S_path].
  rewrite !growth_two_by_two.
  unfold Z_draw, nth_gauss. cbn [two_by_two_at c_M c_S0].
  change (Z.to_nat 2) with 2%nat.
  cbn [replay np_random_seed next_gauss rng_after Nat.mul Nat.add fst snd nth].
  repeat f_equal; ring.
Qed.

Lemma simulated_paths_flat K :
  simulated_paths (replay flat_draws) (two_by_two_at K) = [[9; 9]; [4; 4]].
Proof.
  unfold flat_draws. rewrite simulated_paths_two_by_two.
  rewrite exp_0, !exp_ln by lra.
  repeat f_equal; field.
Qed.

Lemma numeric_float x : numeric (PyFloat (Fin x)) x.
Proof. now left. Qed.

Lemma numeric_int n : numeric (PyInt n) (IZR n).
Proof. right. now exists n. Qed.

Lemma integral_int n : integral (PyInt n) n.
Proof. now left. Qed.

Lemma integral_float n : integral (PyFloat (Fin (IZR n))) n.
Proof. right. exists (IZR n). split; [reflexivity | apply trunc_IZR]. Qed.

Ltac decide_reals :=
  repeat first [ rewrite Rlt_b_false by lra | rewrite Rlt_b_true by lra
               | rewrite Rle_b_false by lra | rewrite Rle_b_true by lra
               | rewrite Req_b_false by lra | rewrite Req_b_true by lra ].

Lemma zero_strike_valid : valid zero_strike.
Proof. constructor; simpl; lra || lia. Qed.

Lemma zero_volatility_valid : valid zero_volatility.
Proof. constructor; simpl; lra || lia. Qed.

Lemma GeometricAsianOption_strike_0 c :
  valid c -> c_strike c = 0 ->
  GeometricAsianOption (instance_of c) = Raise ZeroDivisionError.
Proof.
  intros Hv HK.
  rewrite GeometricAsianOption_closed_form_py. unfold closed_form_py.
  rewrite (sigsqT_py_fin Hv). cbn [rbind].
  rewrite (muT_py_fin Hv). cbn [rbind].
  rewrite HK. now rewrite py_div_zero.
Qed.

Lemma GeometricAsianOption_zero_volatility :
  GeometricAsianOption (instance_of zero_volatility) = Ok NaN.
Proof.
  rewrite GeometricAsianOption_closed_form_py. unfold closed_form_py.
  rewrite (sigsqT_py_fin zero_volatility_valid). cbn [rbind].
  rewrite (muT_py_fin zero_volatility_valid). cbn [rbind].
  assert (Hq : sigsqT zero_volatility = 0) by (unfold sigsqT; simpl; field).
  assert (Hm : muT zero_volatility = 0) by (unfold muT; rewrite Hq; simpl; field).
  rewrite Hq, Hm. cbn [zero_volatility c_S0 c_strike c_r c_T].
  rewrite py_div_fin by lra. cbn [rbind].
  replace (1 / 1) with 1 by field.
  rewrite F_log_fin, ln_1 by lra.
  rewrite F_sqrt_fin, sqrt_0 by lra.
  autorewrite with fin.
  replace (F.div (Fin (0 + 0 + 0.5 * 0)) (Fin 0)) with NaN; [reflexivity |].
  simpl. rewrite Req_b_true by reflexivity.
  unfold F.inf_of_sign. now rewrite !Rlt_b_false by lra.
Qed.


Lemma mean_pair a b : mean [a; b] = (a + b) / 2.
Proof. unfold mean. simpl. field. Qed.

Lemma arithmetic_payoffs_flat K :
  0 <= K <= 4 ->
  arithmetic_payoffs (replay flat_draws) (two_by_two_at K)
  = [(9 - K) * exp (- (0.5) * 2); (4 - K) * exp (- (0.5) * 2)].
Proof.
  intros HK. unfold arithmetic_payoffs. rewrite simulated_paths_flat.
  cbn [map]. unfold arithmetic_payoff, arithmetic_average.
  rewrite !mean_pair. cbn [two_by_two_at c_kind c_strike c_r c_T payoff].
  rewrite !Rmax_left by lra. repeat (f_equal; try lra).
Qed.

Lemma geometric_payoffs_flat K :
  0 <= K <= 4 ->
  geometric_payoffs (replay flat_draws) (two_by_two_at K)
  = [(9 - K) * exp (- (0.5) * 2); (4 - K) * exp (- (0.5) * 2)].
Proof.
  intros HK. unfold geometric_payoffs. rewrite simulated_paths_flat.
  cbn [map]. unfold geometric_payoff, geometric_average.
  cbn [two_by_two_at c_kind c_strike c_r c_T c_M payoff map Rsum fold_right].
  replace (1 / 2 * (ln 9 + (ln 9 + 0))) with (ln 9) by field.
  replace (1 / 2 * (ln 4 + (ln 4 + 0))) with (ln 4) by field.
  rewrite !exp_ln by lra.
  rewrite !Rmax_left by lra. repeat (f_equal; try lra).
Qed.

Lemma covariance_flat K :
  0 <= K <= 4 ->
  covariance (arithmetic_payoffs (replay flat_draws) (two_by_two_at K))
             (geometric_payoffs (replay flat_draws) (two_by_two_at K))
  = 6.25 * (exp (- (0.5) * 2)) ^ 2.
Proof.
  intros HK. rewrite arithmetic_payoffs_flat, geometric_payoffs_flat by exact HK.
  unfold covariance. cbn [map2]. rewrite !mean_pair.
  generalize (exp (- (0.5) * 2)). intros e. nra.
Qed.

Lemma variance_geometric_flat K :
  0 <= K <= 4 ->
  variance (geometric_payoffs (replay flat_draws) (two_by_two_at K))
  = 6.25 * (exp (- (0.5) * 2)) ^ 2.
Proof.
  intros HK. rewrite geometric_payoffs_flat by exact HK.
  unfold variance. cbn [map]. rewrite !mean_pair.
  generalize (exp (- (0.5) * 2)). intros e. nra.
Qed.

Lemma discount_sq_pos : 0 < (exp (- (0.5) * 2)) ^ 2.
Proof. apply pow_lt, exp_pos. Qed.

(** * Further properties *)

(** ** The constructor on arbitrary arguments *)

Lemma bind_ok_inv {S A B} (c : py S A) (k : A -> py S B) s b s2 :
  bind c k s = (Ok b, s2) ->
  exists a s1, c s = (Ok a, s1) /\ k a s1 = (Ok b, s2).
Proof.
  unfold bind. destruct (c s) as [[a | e] s1]; [| discriminate].
  intros H. now exists a, s1.
Qed.

Lemma py_lt0_number v b : py_lt0 v = Ok b -> is_number v = true.
Proof. destruct v; simpl; intros H; congruence. Qed.

Lemma py_le0_number v b : py_le0 v = Ok b -> is_number v = true.
Proof. destruct v; simpl; intros H; congruence. Qed.

Lemma py_or_false a b : py_or a b = Ok false -> a = Ok false /\ b = Ok false.
Proof.
  unfold py_or, rbind. destruct a as [[|] | e]; try discriminate. now split.
Qed.

Lemma out_of_bounds_false vS0 vK vT vr vdiv vsig :
  out_of_bounds vS0 vK vT vr vdiv vsig = Ok false ->
  py_lt0 vS0 = Ok false /\ py_lt0 vK = Ok false /\ py_le0 vT = Ok false
  /\ py_lt0 vr = Ok false /\ py_lt0 vdiv = Ok false /\ py_lt0 vsig = Ok false.
Proof.
  unfold out_of_bounds. intros H.
  apply py_or_false in H. destruct H as [H1 H].
  apply py_or_false in H. destruct H as [H2 H].
  apply py_or_false in H. destruct H as [H3 H].
  apply py_or_false in H. destruct H as [H4 H].
  apply py_or_false in H. destruct H as [H5 H6].
  repeat split; assumption.
Qed.

Lemma checks_ok_inv ot vS0 vK vT vr vdiv vsig s a s' :
  checks ot vS0 vK vT vr vdiv vsig s = (Ok a, s') ->
  s' = s
  /\ (ot = PyStr "call" \/ ot = PyStr "put")
  /\ out_of_bounds vS0 vK vT vr vdiv vsig = Ok false.
Proof.
  unfold checks, bind, lift.
  destruct (py_ne_str ot "call" && py_ne_str ot "put") eqn:E; [discriminate |].
  unfold ret at 1.
  destruct (out_of_bounds vS0 vK vT vr vdiv vsig) as [[|] | e]; try discriminate.
  unfold ret. intros H. inversion H; subst. split; [reflexivity |]. split; [| reflexivity].
  destruct ot as [t | | |]; try discriminate E.
  cbn [py_ne_str] in E. apply andb_false_iff in E.
  destruct E as [E | E]; apply negb_false_iff, String.eqb_eq in E; subst; tauto.
Qed.

Lemma checks_pass ot vS0 vK vT vr vdiv vsig s :
  ot = PyStr "call" \/ ot = PyStr "put" ->
  out_of_bounds vS0 vK vT vr vdiv vsig = Ok false ->
  checks ot vS0 vK vT vr vdiv vsig s = (Ok tt, s).
Proof.
  intros Hot Hb. unfold checks, bind, lift. rewrite Hb.
  now destruct Hot as [-> | ->].
Qed.

Section ArbitraryArguments.

Variable float_of_str : string -> option float64.
Variable int_of_str : string -> option Z.

Lemma py_float_number v :
  is_number v = true -> py_float float_of_str v = Ok (float_value v).
Proof. destruct v; simpl; intros H; congruence. Qed.

Variables (ot vS0 vK vT vM vr vdiv vsig vn : pyval).
Hypothesis Hstr : isinstance_str ot = true.
Hypothesis HS0 : is_number vS0 = true.
Hypothesis HK : is_number vK = true.
Hypothesis HT : is_number vT = true.
Hypothesis Hr : is_number vr = true.
Hypothesis Hdiv : is_number vdiv = true.
Hypothesis Hsig : is_number vsig = true.

(** The [try] block when the option type is a string and the six floats
    are numbers: only the two integer coercions can fail. *)
Lemma coerce_numbers :
  coerce float_of_str int_of_str ot vS0 vK vT vM vr vdiv vsig vn (blank, [])
  = match py_int int_of_str vM with
    | Raise e =>
        (Raise e,
         (mkAsianOptionMC (Some ot) (Some (float_value vS0)) (Some (float_value vK))
            (Some (float_value vT)) None None None None None None None, []))
    | Ok m =>
        match py_int int_of_str vn with
        | Raise e =>
            (Raise e,
             (assigned ot (float_value vS0) (float_value vK) (float_value vT) m
                (float_value vr) (float_value vdiv) (float_value vsig) None, []))
        | Ok n =>
            (Ok tt,
             (assigned ot (float_value vS0) (float_value vK) (float_value vT) m
                (float_value vr) (float_value vdiv) (float_value vsig) (Some n), []))
        end
    end.
Proof.
  unfold coerce, bind, setattr, modify, py_assert, lift, ret.
  rewrite Hstr. cbn [fst snd].
  rewrite (py_float_number _ HS0), (py_float_number _ HK), (py_float_number _ HT).
  destruct (py_int int_of_str vM) as [m | e]; [| reflexivity].
  rewrite (py_float_number _ Hr), (py_float_number _ Hdiv), (py_float_number _ Hsig).
  destruct (py_int int_of_str vn) as [n | e]; reflexivity.
Qed.

End ArbitraryArguments.

Section ConstructorInversion.

Variable float_of_str : string -> option float64.
Variable int_of_str : string -> option Z.
Variables (ot vS0 vK vT vM vr vdiv vsig vn : pyval).

Lemma derived_assigned m sim out u s' :
  derived (assigned ot (float_value vS0) (float_value vK) (float_value vT) m
             (float_value vr) (float_value vdiv) (float_value vsig) sim, out)
  = (Ok u, s') ->
  m <> 0%Z /\ s' = (constructed ot vS0 vK vT vr vdiv vsig m sim, out).
Proof.
  unfold derived, bind, self_attr, getattr, lift, setattr, modify, py_div, of_int.
  cbn [assigned T M r fst snd].
  destruct (Req_b (IZR m) 0) eqn:E; [discriminate |].
  cbn [assigned set_time_unit set_discount T M r S0 strike option_type div sigma
         simulations time_unit discount fst snd].
  intros H. inversion H; subst. split; [| reflexivity].
  intros ->. rewrite Req_b_true in E by reflexivity. discriminate.
Qed.

Lemma init_ok_inv out o :
  __init__ float_of_str int_of_str ot vS0 vK vT vM vr vdiv vsig vn = (out, Ok o) ->
  (ot = PyStr "call" \/ ot = PyStr "put")
  /\ (py_lt0 vS0 = Ok false /\ py_lt0 vK = Ok false /\ py_le0 vT = Ok false
      /\ py_lt0 vr = Ok false /\ py_lt0 vdiv = Ok false /\ py_lt0 vsig = Ok false)
  /\ exists (m : Z) (sim : option Z),
       py_int int_of_str vM = Ok m /\ m <> 0%Z /\ o = constructed ot vS0 vK vT vr vdiv vsig m sim
       /\ ((exists n, py_int int_of_str vn = Ok n /\ sim = Some n /\ out = [])
           \/ (exists msg, py_int int_of_str vn = Raise (ValueError msg)
               /\ sim = None /\ out = [error_passing])).
Proof.
  unfold __init__.
  destruct (init_body _ _ _ _ _ _ _ _ _ _ _ (blank, [])) as [[u | e] [self out']] eqn:E;
    intros H; inversion H; subst; clear H.
  unfold init_body in E.
  apply bind_ok_inv in E. destruct E as (a1 & s1 & Htry & E).
  apply bind_ok_inv in E. destruct E as (a2 & s2 & Hchk & Hder).
  apply checks_ok_inv in Hchk. destruct Hchk as (-> & Hot & Hb).
  pose proof (out_of_bounds_false _ _ _ _ _ _ Hb) as (B1 & B2 & B3 & B4 & B5 & B6).
  split; [exact Hot |]. split; [repeat split; assumption |].
  assert (Hstr : isinstance_str ot = true) by (destruct Hot as [-> | ->]; reflexivity).
  unfold try_except_ValueError in Htry.
  rewrite (coerce_numbers float_of_str int_of_str _ _ _ _ vM _ _ _ vn Hstr
             (py_lt0_number _ B1) (py_lt0_number _ B2) (py_le0_number _ B3)
             (py_lt0_number _ B4) (py_lt0_number _ B5) (py_lt0_number _ B6)) in Htry.
  destruct (py_int int_of_str vM) as [m | e].
  - destruct (py_int int_of_str vn) as [n | e].
    + inversion Htry; subst. apply derived_assigned in Hder. destruct Hder as [Hm Hs].
      inversion Hs; subst. exists m, (Some n). repeat split; try assumption.
      left. now exists n.
    + destruct e; try discriminate Htry.
      unfold print, modify in Htry. cbn [fst snd app] in Htry.
      inversion Htry; subst. apply derived_assigned in Hder. destruct Hder as [Hm Hs].
      inversion Hs; subst. exists m, None. repeat split; try assumption.
      right. now exists msg.
  - destruct e; try discriminate Htry.
    unfold print, modify in Htry. cbn [fst snd app] in Htry.
    inversion Htry; subst. discriminate Hder.
Qed.

End ConstructorInversion.

(** ** More on means and payoffs *)

Lemma mean_bounds xs a b :
  xs <> [] -> Forall (fun x => a <= x <= b) xs -> a <= mean xs <= b.
Proof.
  intros Hne H. unfold mean.
  assert (Hn : 0 < INR (length xs)).
  { apply lt_0_INR. destruct xs; [congruence | simpl; lia]. }
  assert (Hs : INR (length xs) * a <= Rsum xs <= INR (length xs) * b).
  { clear Hne Hn. induction H as [| x xs Hx _ IH]; [simpl; lra |].
    cbn [Rsum fold_right length]. fold (Rsum xs). rewrite S_INR. lra. }
  split.
  - apply Rmult_le_reg_r with (INR (length xs)); [exact Hn |].
    unfold Rdiv. rewrite Rmult_assoc, Rinv_l by lra. lra.
  - apply Rmult_le_reg_r with (INR (length xs)); [exact Hn |].
    unfold Rdiv. rewrite Rmult_assoc, Rinv_l by lra. lra.
Qed.

Lemma Rsum_map_le {A} (f h : A -> R) (l : list A) :
  (forall p, In p l -> f p <= h p) -> Rsum (map f l) <= Rsum (map h l).
Proof.
  induction l as [| x l IH]; intros H; [simpl; lra |].
  cbn [map Rsum fold_right]. fold (Rsum (map f l)) (Rsum (map h l)).
  pose proof (H x (or_introl eq_refl)).
  assert (Rsum (map f l) <= Rsum (map h l)) by (apply IH; intros p Hp; apply H; now right).
  lra.
Qed.

Lemma mean_map_le {A} (f h : A -> R) (l : list A) :
  (forall p, In p l -> f p <= h p) -> mean (map f l) <= mean (map h l).
Proof.
  intros H. unfold mean. rewrite !length_map.
  apply Rmult_le_compat_r; [| now apply Rsum_map_le].
  destruct l as [| x l].
  - simpl. rewrite Rinv_0. lra.
  - apply Rlt_le, Rinv_0_lt_compat, lt_0_INR. simpl. lia.
Qed.

Lemma variance_map_const {A} (a : R) (l : list A) :
  variance (map (fun _ => a) l) = 0.
Proof.
  destruct l as [| x l].
  - unfold variance, mean. simpl. unfold Rdiv. ring.
  - assert (Hne : x :: l <> []) by discriminate.
    rewrite (variance_map (x :: l) (fun _ => a)).
    rewrite (mean_map_const a Hne).
    rewrite (map_ext _ (fun _ => 0)) by (intros p; ring).
    now apply mean_map_const.
Qed.

Lemma bounds_zero_variance xs n :
  variance xs = 0 -> lower95 xs n = mean xs /\ upper95 xs n = mean xs.
Proof.
  intros H. unfold lower95, upper95, stddev. rewrite H, sqrt_0.
  unfold Rdiv. split; ring.
Qed.

Lemma payoff_nonneg k a s : 0 <= payoff k a s.
Proof. destruct k; apply Rmax_r. Qed.

Lemma payoff_put_le a s : 0 <= a -> 0 <= s -> payoff put a s <= s.
Proof. intros Ha Hs. simpl. apply Rmax_lub; lra. Qed.

Lemma payoff_parity a s : payoff call a s - payoff put a s = a - s.
Proof.
  simpl. unfold Rmax.
  destruct (Rle_dec (a - s) 0), (Rle_dec (s - a) 0); lra.
Qed.

Lemma payoff_call_mono a b s : a <= b -> payoff call a s <= payoff call b s.
Proof. intros H. simpl. apply Rle_max_compat_r. lra. Qed.

Lemma payoff_put_anti a b s : a <= b -> payoff put b s <= payoff put a s.
Proof. intros H. simpl. apply Rle_max_compat_r. lra. Qed.

Lemma payoff_call_strike a s s' : s <= s' -> payoff call a s' <= payoff call a s.
Proof. intros H. simpl. apply Rle_max_compat_r. lra. Qed.

Lemma payoff_put_strike a s s' : s <= s' -> payoff put a s <= payoff put a s'.
Proof. intros H. simpl. apply Rle_max_compat_r. lra. Qed.

Section NonNegativePrices.

Variable G : Generator.
Variable c : Contract.
Hypothesis Hvalid : valid c.

Lemma S_path_nonneg i t : 0 <= S_path G c i t.
Proof.
  induction t as [| t IH]; simpl; [apply (valid_S0 Hvalid) |].
  apply Rmult_le_pos; [exact IH | apply Rlt_le, exp_pos].
Qed.

Lemma arithmetic_average_nonneg path :
  In path (simulated_paths G c) -> 0 <= arithmetic_average path.
Proof.
  intros H. apply mean_nonneg.
  apply in_map_iff in H. destruct H as [i [<- _]].
  apply Forall_forall. intros x Hx. apply in_map_iff in Hx.
  destruct Hx as [t [<- _]]. apply S_path_nonneg.
Qed.

Lemma arithmetic_payoff_nonneg path : 0 <= arithmetic_payoff c path.
Proof.
  unfold arithmetic_payoff.
  apply Rmult_le_pos; [apply payoff_nonneg | apply Rlt_le, exp_pos].
Qed.

End NonNegativePrices.

(** ** Objects with a missing attribute *)

Section MissingSimulations.

Variable G : Generator.
Variable self : AsianOptionMC.
Hypothesis Hmissing : simulations self = None.

Lemma price_path_missing (s : rng G) :
  price_path G self s = (Raise AttributeError, np_random_seed G seed).
Proof.
  unfold price_path, bind, modify, attr, lift, getattr.
  destruct (S0 self), (r self), (sigma self), (time_unit self);
    try reflexivity.
  now rewrite Hmissing.
Qed.

Lemma MCPayoff_missing (s : rng G) :
  exists s', MCPayoff G self s = (Raise AttributeError, s').
Proof.
  unfold MCPayoff, bind, attr, lift, getattr.
  destruct (option_type self) as [ot |]; [| now exists s].
  destruct (py_eq_str ot "call").
  - destruct (discount self); [| now exists s].
    rewrite price_path_missing. now eexists.
  - destruct (discount self); [| now exists s].
    destruct (strike self); [| now exists s].
    rewrite price_path_missing. now eexists.
Qed.

Lemma value_missing (s : rng G) : fst (value G self s) = Raise AttributeError.
Proof.
  unfold value, bind. destruct (MCPayoff_missing s) as [s' ->]. reflexivity.
Qed.

Lemma value_with_control_variate_missing (s : rng G) :
  M self <> Some 0%Z ->
  fst (value_with_control_variate G self s) = Raise AttributeError.
Proof.
  intros HM. unfold value_with_control_variate, bind.
  unfold attr at 1, lift at 1, getattr at 1.
  destruct (M self) as [m |]; [| reflexivity].
  unfold lift at 1, py_div, of_int.
  rewrite Req_b_false.
  - now rewrite price_path_missing.
  - apply not_0_IZR. intros ->. now apply HM.
Qed.

End MissingSimulations.

(** ** Contracts that differ in one parameter *)

Lemma valid_with_strike K c : valid c -> 0 <= K -> valid (with_strike K c).
Proof. intros [? ? ? ? ? ? ? ?] HK. constructor; assumption. Qed.

(** The paths depend on [S0], [T], [M], [r], [sigma] and [simulations]
    only. *)
Lemma simulated_paths_same G c c' :
  c_S0 c' = c_S0 c -> c_T c' = c_T c -> c_M c' = c_M c -> c_r c' = c_r c ->
  c_sigma c' = c_sigma c -> c_simulations c' = c_simulations c ->
  simulated_paths G c' = simulated_paths G c.
Proof.
  intros H0 HT HM Hr Hs Hn.
  assert (Hg : forall z, growth c' z = growth c z).
  { intros z. unfold growth. now rewrite HT, HM, Hr, Hs. }
  assert (Hz : forall i t, Z_draw G c' i t = Z_draw G c i t).
  { intros i t. unfold Z_draw. now rewrite HM. }
  assert (Hp : forall i t, S_path G c' i t = S_path G c i t).
  { intros i t. induction t as [| t IH]; simpl; [exact H0 |].
    now rewrite IH, Hg, Hz. }
  unfold simulated_paths. rewrite HM, Hn.
  apply map_ext. intros i. apply map_ext. intros t. apply Hp.
Qed.

Lemma simulated_paths_with_kind G k c :
  simulated_paths G (with_kind k c) = simulated_paths G c.
Proof. now apply simulated_paths_same. Qed.

Lemma simulated_paths_with_strike G K c :
  simulated_paths G (with_strike K c) = simulated_paths G c.
Proof. now apply simulated_paths_same. Qed.

Lemma arithmetic_payoff_parity c path :
  arithmetic_payoff (with_kind call c) path
  = arithmetic_payoff (with_kind put c) path
    + (exp (- c_r c * c_T c) * arithmetic_average path
       + - (c_strike c * exp (- c_r c * c_T c))).
Proof.
  unfold arithmetic_payoff. cbn [with_kind c_kind c_strike c_r c_T].
  pose proof (payoff_parity (arithmetic_average path) (c_strike c)) as H.
  replace (payoff call (arithmetic_average path) (c_strike c))
    with (payoff put (arithmetic_average path) (c_strike c)
          + (arithmetic_average path - c_strike c)) by lra.
  ring.
Qed.

Lemma mean_arithmetic_payoffs_parity G c :
  valid c ->
  mean (arithmetic_payoffs G (with_kind call c))
  - mean (arithmetic_payoffs G (with_kind put c))
  = exp (- c_r c * c_T c)
    * (mean (map arithmetic_average (simulated_paths G c)) - c_strike c).
Proof.
  intros Hv. unfold arithmetic_payoffs.
  rewrite !simulated_paths_with_kind.
  rewrite (map_ext _ _ (arithmetic_payoff_parity c)).
  rewrite (mean_map_plus (simulated_paths G c)
             (arithmetic_payoff (with_kind put c))
             (fun path => exp (- c_r c * c_T c) * arithmetic_average path
                          + - (c_strike c * exp (- c_r c * c_T c)))).
  rewrite (mean_map_plus (simulated_paths G c)
             (fun path => exp (- c_r c * c_T c) * arithmetic_average path)
             (fun _ => - (c_strike c * exp (- c_r c * c_T c)))).
  rewrite mean_map_scal.
  rewrite (mean_map_const _ (simulated_paths_nonempty G Hv)).
  ring.
Qed.

(** ** The geometric average is at most the arithmetic average *)

Lemma mean_pos xs : xs <> [] -> Forall (fun x => 0 < x) xs -> 0 < mean xs.
Proof.
  intros Hne H. unfold mean. apply Rdiv_lt_0_compat.
  - destruct H as [| x xs Hx Hxs]; [congruence |].
    cbn [Rsum fold_right]. fold (Rsum xs).
    assert (0 <= Rsum xs).
    { apply Rsum_nonneg. apply Forall_forall. intros y Hy.
      apply Rlt_le. apply (proj1 (Forall_forall _ _) Hxs y Hy). }
    lra.
  - apply lt_0_INR. destruct xs; [congruence | simpl; lia].
Qed.

Lemma ln_le_tangent x a : 0 < x -> 0 < a -> ln x <= ln a - 1 + / a * x.
Proof.
  intros Hx Ha.
  pose proof (exp_ineq1_le (ln (x / a))) as H.
  rewrite exp_ln in H by (apply Rdiv_lt_0_compat; assumption).
  unfold Rdiv in H. rewrite ln_mult in H by (try apply Rinv_0_lt_compat; assumption).
  rewrite ln_Rinv in H by assumption. lra.
Qed.

Lemma am_gm xs :
  xs <> [] -> Forall (fun x => 0 < x) xs ->
  exp (Rsum (map ln xs) / INR (length xs)) <= mean xs.
Proof.
  intros Hne Hpos.
  pose proof (mean_pos Hne Hpos) as HA.
  assert (Hn : 0 < INR (length xs)).
  { apply lt_0_INR. destruct xs; [congruence | simpl; lia]. }
  assert (Hsum : Rsum xs = INR (length xs) * mean xs).
  { unfold mean. field. lra. }
  assert (Hle : Rsum (map ln xs) <= INR (length xs) * ln (mean xs)).
  { transitivity (Rsum (map (fun x => (fun _ => ln (mean xs) - 1) x
                                      + / mean xs * (fun y => y) x) xs)).
    - apply Rsum_map_le. intros x Hx. apply ln_le_tangent; [| exact HA].
      apply (proj1 (Forall_forall _ _) Hpos x Hx).
    - rewrite (Rsum_map_plus xs (fun _ => ln (mean xs) - 1)
                 (fun x => / mean xs * (fun y => y) x)).
      rewrite Rsum_map_const, (Rsum_map_scal xs (/ mean xs) (fun y => y)).
      rewrite map_id, Hsum.
      replace (/ mean xs * (INR (length xs) * mean xs)) with (INR (length xs))
        by (field; lra).
      lra. }
  rewrite <- (exp_ln (mean xs)) at 1 by exact HA.
  destruct (Rle_lt_or_eq_dec _ _ Hle) as [Hlt | Heq].
  - apply Rlt_le, exp_increasing.
    apply Rmult_lt_reg_r with (INR (length xs)); [exact Hn |].
    unfold Rdiv. rewrite Rmult_assoc, Rinv_l by lra. lra.
  - rewrite Heq. replace (INR (length xs) * ln (mean xs) / INR (length xs))
      with (ln (mean xs)) by (field; lra). lra.
Qed.

Section Averages.

Variable G : Generator.
Variable c : Contract.
Hypothesis Hvalid : valid c.
Hypothesis HS0 : 0 < c_S0 c.

Lemma geometric_le_arithmetic path :
  In path (simulated_paths G c) ->
  geometric_average c path <= arithmetic_average path.
Proof.
  intros H.
  pose proof (simulated_paths_rows G c path H) as Hlen.
  unfold geometric_average, arithmetic_average.
  replace (1 / IZR (c_M c) * Rsum (map ln path))
    with (Rsum (map ln path) / INR (length path)).
  - apply am_gm; [eapply simulated_path_nonempty; eassumption
                 | eapply simulated_path_pos; eassumption].
  - rewrite Hlen, INR_IZR_INZ, Z2Nat.id by (pose proof (valid_M Hvalid); lia).
    unfold Rdiv. ring.
Qed.

Lemma corrected_value_call path :
  c_kind c = call -> In path (simulated_paths G c) ->
  geometric_payoff c path <= arithmetic_payoff c path.
Proof.
  intros Hk H. unfold geometric_payoff, arithmetic_payoff. rewrite Hk.
  apply Rmult_le_compat_r; [apply Rlt_le, exp_pos |].
  apply payoff_call_mono, geometric_le_arithmetic, H.
Qed.

Lemma corrected_value_put path :
  c_kind c = put -> In path (simulated_paths G c) ->
  arithmetic_payoff c path <= geometric_payoff c path.
Proof.
  intros Hk H. unfold geometric_payoff, arithmetic_payoff. rewrite Hk.
  apply Rmult_le_compat_r; [apply Rlt_le, exp_pos |].
  apply payoff_put_anti, geometric_le_arithmetic, H.
Qed.

End Averages.

(** ** Intervals of zero width *)

Lemma variance_singleton x : variance [x] = 0.
Proof. unfold variance, mean. simpl. field. Qed.

Lemma arithmetic_payoffs_degenerate G c :
  c_S0 c = 0 \/ c_sigma c = 0 ->
  arithmetic_payoffs G c
  = map (fun _ => arithmetic_payoff c
                    (map (fun t => S_path G c 0 (S t)) (seq 0 (Z.to_nat (c_M c)))))
        (seq 0 (Z.to_nat (c_simulations c))).
Proof.
  intros Hdeg. unfold arithmetic_payoffs, simulated_paths. rewrite map_map.
  apply map_ext. intros i. f_equal. apply map_ext. intros t.
  apply (S_path_same G c Hdeg).
Qed.

Lemma S_path_zero_volatility G c i t :
  c_sigma c = 0 ->
  S_path G c i t = c_S0 c * exp (c_r c * (c_T c / IZR (c_M c)) * INR t).
Proof.
  intros Hs. induction t as [| t IH].
  - simpl. rewrite Rmult_0_r, exp_0. ring.
  - cbn [S_path]. rewrite IH, S_INR. unfold growth. rewrite Hs.
    rewrite Rmult_assoc, <- exp_plus. do 2 f_equal. ring.
Qed.

Section OneStep.

Variable G : Generator.
Variable c : Contract.
Hypothesis Hvalid : valid c.
Hypothesis HS0 : 0 < c_S0 c.
Hypothesis HM : c_M c = 1%Z.

Lemma one_step_payoffs_agree path :
  In path (simulated_paths G c) ->
  geometric_payoff c path = arithmetic_payoff c path.
Proof.
  intros H.
  pose proof (simulated_paths_rows G c path H) as Hlen.
  pose proof (simulated_path_pos G c HS0 path H) as Hpos.
  rewrite HM in Hlen. change (Z.to_nat 1) with 1%nat in Hlen.
  destruct path as [| x [| y path]]; try discriminate Hlen.
  inversion Hpos as [| ? ? Hx _]; subst.
  unfold geometric_payoff, arithmetic_payoff, geometric_average, arithmetic_average, mean.
  rewrite HM. cbn [map Rsum fold_right length INR].
  replace (1 / 1 * (ln x + 0)) with (ln x) by field.
  rewrite exp_ln by exact Hx.
  replace ((x + 0) / 1) with x by field. reflexivity.
Qed.

Lemma one_step_corrected_values g :
  corrected_values_R G c g = map (fun _ => g) (simulated_paths G c).
Proof.
  unfold corrected_values_R. apply map_ext_in. intros path H.
  rewrite (one_step_payoffs_agree path H). ring.
Qed.

End OneStep.

(** ** Scaling [S0] and [strike] *)

Lemma Rsum_scal k xs : Rsum (map (Rmult k) xs) = k * Rsum xs.
Proof.
  induction xs as [| x xs IH]; [simpl; ring |].
  cbn [map Rsum fold_right]. fold (Rsum (map (Rmult k) xs)) (Rsum xs).
  rewrite IH. ring.
Qed.

Lemma mean_scal k xs : mean (map (Rmult k) xs) = k * mean xs.
Proof. unfold mean. rewrite length_map, Rsum_scal. unfold Rdiv. ring. Qed.

Lemma variance_scal k xs : variance (map (Rmult k) xs) = k ^ 2 * variance xs.
Proof.
  unfold variance. rewrite mean_scal, map_map.
  rewrite (map_ext _ (fun x => k ^ 2 * (fun y => (y - mean xs) ^ 2) x))
    by (intros x; ring).
  rewrite <- (map_map (fun y => (y - mean xs) ^ 2) (Rmult (k ^ 2))).
  apply mean_scal.
Qed.

Lemma stddev_scal k xs : 0 <= k -> stddev (map (Rmult k) xs) = k * stddev xs.
Proof.
  intros Hk. unfold stddev. rewrite variance_scal.
  rewrite sqrt_mult by (try apply pow2_ge_0; apply variance_nonneg).
  f_equal. replace (k ^ 2) with (k * k) by ring. now apply sqrt_square.
Qed.

Lemma bounds_scal k xs n :
  0 <= k ->
  lower95 (map (Rmult k) xs) n = k * lower95 xs n
  /\ upper95 (map (Rmult k) xs) n = k * upper95 xs n.
Proof.
  intros Hk. unfold lower95, upper95.
  rewrite mean_scal, stddev_scal by exact Hk. unfold Rdiv. split; ring.
Qed.

Lemma payoff_scal kd k a s : 0 <= k -> payoff kd (k * a) (k * s) = k * payoff kd a s.
Proof.
  intros Hk. destruct kd; simpl; unfold Rmax;
    destruct (Rle_dec _ _), (Rle_dec _ _); nra.
Qed.

Section Scaling.

Variable G : Generator.
Variable c : Contract.
Variable k : R.
Hypothesis Hk : 0 < k.

Lemma S_path_scaled i t : S_path G (scaled k c) i t = k * S_path G c i t.
Proof.
  induction t as [| t IH]; [reflexivity |].
  cbn [S_path]. rewrite IH.
  change (growth (scaled k c)) with (growth c).
  change (Z_draw G (scaled k c)) with (Z_draw G c). ring.
Qed.

Lemma simulated_paths_scaled :
  simulated_paths G (scaled k c) = map (map (Rmult k)) (simulated_paths G c).
Proof.
  unfold simulated_paths. cbn [scaled c_M c_simulations].
  rewrite map_map. apply map_ext. intros i.
  rewrite map_map. apply map_ext. intros t. apply S_path_scaled.
Qed.

Lemma arithmetic_payoff_scaled path :
  arithmetic_payoff (scaled k c) (map (Rmult k) path) = k * arithmetic_payoff c path.
Proof.
  unfold arithmetic_payoff, arithmetic_average.
  cbn [scaled c_kind c_strike c_r c_T].
  rewrite mean_scal, payoff_scal by lra. ring.
Qed.

Lemma arithmetic_payoffs_scaled :
  arithmetic_payoffs G (scaled k c) = map (Rmult k) (arithmetic_payoffs G c).
Proof.
  unfold arithmetic_payoffs. rewrite simulated_paths_scaled, !map_map.
  apply map_ext. intros path. apply arithmetic_payoff_scaled.
Qed.

Lemma valid_scaled : valid c -> valid (scaled k c).
Proof.
  intros [? ? ? ? ? ? ? ?]. constructor; cbn [scaled c_S0 c_strike c_T c_M c_r c_div
    c_sigma c_simulations]; try assumption; apply Rmult_le_pos; lra.
Qed.

Lemma closed_form_scaled :
  c_strike c <> 0 -> closed_form (scaled k c) = k * closed_form c.
Proof.
  intros HK. unfold closed_form, d2, d1.
  change (muT (scaled k c)) with (muT c).
  change (sigsqT (scaled k c)) with (sigsqT c).
  cbn [scaled c_S0 c_strike c_r c_T].
  replace (k * c_S0 c / (k * c_strike c)) with (c_S0 c / c_strike c) by (field; lra).
  ring.
Qed.

End Scaling.

Lemma Rsum_ln_scal k path :
  0 < k -> Forall (fun x => 0 < x) path ->
  Rsum (map ln (map (Rmult k) path)) = INR (length path) * ln k + Rsum (map ln path).
Proof.
  intros Hk H. induction H as [| x path Hx _ IH]; [simpl; ring |].
  cbn [map Rsum fold_right length].
  fold (Rsum (map ln (map (Rmult k) path))) (Rsum (map ln path)).
  rewrite IH, ln_mult, S_INR by assumption. ring.
Qed.

Section ScalingControlVariate.

Variable G : Generator.
Variable c : Contract.
Variable k : R.
Hypothesis Hk : 0 < k.
Hypothesis Hvalid : valid c.
Hypothesis HS0 : 0 < c_S0 c.

Lemma geometric_payoff_scaled path :
  In path (simulated_paths G c) ->
  geometric_payoff (scaled k c) (map (Rmult k) path) = k * geometric_payoff c path.
Proof.
  intros H.
  pose proof (simulated_paths_rows G c path H) as Hlen.
  pose proof (simulated_path_pos G c HS0 path H) as Hpos.
  assert (HM : INR (length path) = IZR (c_M c)).
  { rewrite Hlen, INR_IZR_INZ, Z2Nat.id by (pose proof (valid_M Hvalid); lia).
    reflexivity. }
  pose proof (IZR_M_pos Hvalid) as HMpos.
  unfold geometric_payoff, geometric_average.
  cbn [scaled c_kind c_strike c_r c_T c_M].
  rewrite (Rsum_ln_scal Hk Hpos), HM.
  replace (1 / IZR (c_M c) * (IZR (c_M c) * ln k + Rsum (map ln path)))
    with (ln k + 1 / IZR (c_M c) * Rsum (map ln path)) by (field; lra).
  rewrite exp_plus, exp_ln by exact Hk.
  rewrite payoff_scal by lra. ring.
Qed.

Lemma corrected_values_scaled g :
  corrected_values_R G (scaled k c) (k * g) = map (Rmult k) (corrected_values_R G c g).
Proof.
  unfold corrected_values_R. rewrite (simulated_paths_scaled G c k), !map_map.
  apply map_ext_in. intros path H.
  rewrite arithmetic_payoff_scaled by exact Hk.
  rewrite (geometric_payoff_scaled path H). ring.
Qed.

End ScalingControlVariate.

(** ** The analytic value at the edges of the domain *)

Lemma N_py_PInf : N_py PInf = Fin 1.
Proof.
  unfold N_py. rewrite F_sqrt_2. cbn [F.div].
  rewrite Rlt_b_false by (pose proof (sqrt_pos 2); lra).
  cbn [F_erf F.add F.mul]. f_equal. lra.
Qed.

Lemma N_py_NInf : N_py NInf = Fin 0.
Proof.
  unfold N_py. rewrite F_sqrt_2. cbn [F.div].
  rewrite Rlt_b_false by (pose proof (sqrt_pos 2); lra).
  cbn [F_erf F.add F.mul]. f_equal. lra.
Qed.

Lemma sigsqT_zero_volatility c : c_sigma c = 0 -> sigsqT c = 0.
Proof. intros H. unfold sigsqT. rewrite H. unfold Rdiv. ring. Qed.

Lemma muT_zero_volatility c :
  valid c -> c_sigma c = 0 ->
  muT c = c_r c * c_T c * (IZR (c_M c) + 1) / (2 * IZR (c_M c)).
Proof.
  intros Hv H. unfold muT. rewrite (sigsqT_zero_volatility c H), H.
  pose proof (IZR_M_pos Hv). field. lra.
Qed.

Section ZeroVolatilityAnalytic.

Variable c : Contract.
Hypothesis Hvalid : valid c.
Hypothesis Hsig : c_sigma c = 0.
Hypothesis HS0 : 0 < c_S0 c.
Hypothesis HK : 0 < c_strike c.

(** The analytic value up to the quotient by [sqrt sigsqT = 0]. *)
Lemma closed_form_py_zero_volatility :
  closed_form_py c
  = Ok (F.mul (Fin (exp (- c_r c * c_T c)))
          (F.sub
             (F.mul (Fin (c_S0 c * exp (muT c)))
                (N_py (F.inf_of_sign (ln (c_S0 c / c_strike c) + muT c))))
             (F.mul (Fin (c_strike c))
                (N_py (F.sub (F.inf_of_sign (ln (c_S0 c / c_strike c) + muT c))
                             (Fin 0)))))).
Proof.
  unfold closed_form_py.
  rewrite (sigsqT_py_fin Hvalid). cbn [rbind].
  rewrite (muT_py_fin Hvalid). cbn [rbind].
  rewrite py_div_fin by lra. cbn [rbind].
  rewrite F_log_fin by (apply Rdiv_lt_0_compat; assumption).
  rewrite (sigsqT_zero_volatility c Hsig).
  rewrite F_sqrt_fin, sqrt_0 by lra.
  autorewrite with fin.
  replace (F.div (Fin (ln (c_S0 c / c_strike c) + muT c + 0.5 * 0)) (Fin 0))
    with (F.inf_of_sign (ln (c_S0 c / c_strike c) + muT c)).
  - reflexivity.
  - cbn [F.div]. rewrite Req_b_true by reflexivity. f_equal. ring.
Qed.

Lemma analytic_in_the_money :
  0 < ln (c_S0 c / c_strike c) + muT c ->
  closed_form_py c
  = Ok (Fin (exp (- c_r c * c_T c) * (c_S0 c * exp (muT c) - c_strike c))).
Proof.
  intros H. rewrite closed_form_py_zero_volatility.
  unfold F.inf_of_sign. rewrite Rlt_b_true by exact H.
  cbn [F.sub F.neg F.add]. rewrite N_py_PInf. autorewrite with fin.
  do 2 f_equal. ring.
Qed.

Lemma analytic_out_of_the_money :
  ln (c_S0 c / c_strike c) + muT c < 0 ->
  closed_form_py c = Ok (Fin 0).
Proof.
  intros H. rewrite closed_form_py_zero_volatility.
  unfold F.inf_of_sign. rewrite Rlt_b_false, Rlt_b_true by lra.
  cbn [F.sub F.neg F.add]. rewrite N_py_NInf. autorewrite with fin.
  do 2 f_equal. ring.
Qed.

Lemma analytic_at_the_money :
  ln (c_S0 c / c_strike c) + muT c = 0 ->
  closed_form_py c = Ok NaN.
Proof.
  intros H. rewrite closed_form_py_zero_volatility.
  unfold F.inf_of_sign. rewrite !Rlt_b_false by lra. reflexivity.
Qed.

End ZeroVolatilityAnalytic.

(** ** An initial price of zero *)

Lemma np_sum_NInf {A} (l : list A) :
  l <> [] -> np_sum (map (fun _ => NInf) l) = NInf.
Proof.
  intros H. induction l as [| x l IH]; [congruence |].
  destruct l as [| y l]; [reflexivity |].
  cbn [map np_sum fold_right] in *. fold (np_sum (NInf :: map (fun _ => NInf) l)).
  change (fold_right F.add (Fin 0) (NInf :: map (fun _ : A => NInf) l))
    with (np_sum (map (fun _ : A => NInf) (y :: l))).
  rewrite IH by discriminate. reflexivity.
Qed.

Section ZeroSpot.

Variable G : Generator.
Variable c : Contract.
Hypothesis Hvalid : valid c.
Hypothesis HS0 : c_S0 c = 0.

Lemma S_path_zero i t : S_path G c i t = 0.
Proof. induction t as [| t IH]; simpl; [exact HS0 | rewrite IH; ring]. Qed.

Lemma simulated_paths_zero :
  simulated_paths G c
  = map (fun _ => map (fun _ => 0) (seq 0 (Z.to_nat (c_M c))))
        (seq 0 (Z.to_nat (c_simulations c))).
Proof.
  unfold simulated_paths. apply map_ext. intros i. apply map_ext. intros t.
  apply S_path_zero.
Qed.

Lemma steps_nonempty : seq 0 (Z.to_nat (c_M c)) <> [].
Proof.
  pose proof (valid_M Hvalid). destruct (Z.to_nat (c_M c)) eqn:E; [lia | discriminate].
Qed.

Lemma runs_nonempty : seq 0 (Z.to_nat (c_simulations c)) <> [].
Proof.
  pose proof (valid_simulations Hvalid).
  destruct (Z.to_nat (c_simulations c)) eqn:E; [lia | discriminate].
Qed.

Lemma arithmetic_payoff_zero_path :
  arithmetic_payoff c (map (fun _ => 0) (seq 0 (Z.to_nat (c_M c))))
  = payoff (c_kind c) 0 (c_strike c) * exp (- c_r c * c_T c).
Proof.
  unfold arithmetic_payoff, arithmetic_average.
  now rewrite (mean_map_const 0 steps_nonempty).
Qed.

Lemma geometric_payoff_np_zero_path :
  geometric_payoff_np c (map Fin (map (fun _ => 0) (seq 0 (Z.to_nat (c_M c)))))
  = Fin (exp (- c_r c * c_T c) * payoff (c_kind c) 0 (c_strike c)).
Proof.
  pose proof (IZR_M_pos Hvalid) as HM.
  unfold geometric_payoff_np, geometric_average_np, of_int.
  rewrite !map_map.
  rewrite (map_ext _ (fun _ => NInf)) by (intros t; apply F_log_zero).
  rewrite (np_sum_NInf steps_nonempty).
  rewrite F_div_fin by lra. cbn [F.mul]. unfold F.inf_of_sign.
  assert (0 < 1 / IZR (c_M c)) by (apply Rdiv_lt_0_compat; lra).
  rewrite Rlt_b_false, Rlt_b_true by lra.
  cbn [F.exp]. now destruct (c_kind c).
Qed.

Lemma corrected_values_zero_spot :
  corrected_values G c (Fin 0)
  = map Fin (map (fun _ => 0) (seq 0 (Z.to_nat (c_simulations c)))).
Proof.
  unfold corrected_values. rewrite simulated_paths_zero, !map_map.
  apply map_ext. intros i. unfold corrected_value.
  rewrite geometric_payoff_np_zero_path, arithmetic_payoff_zero_path.
  autorewrite with fin. apply f_equal. ring.
Qed.

Lemma closed_form_py_zero_spot :
  0 < c_strike c -> 0 < c_sigma c -> closed_form_py c = Ok (Fin 0).
Proof.
  intros HK Hsig.
  pose proof (sigsqT_pos Hvalid Hsig) as Hq.
  assert (Hs : 0 < sqrt (sigsqT c)) by (apply sqrt_lt_R0, Hq).
  unfold closed_form_py.
  rewrite (sigsqT_py_fin Hvalid). cbn [rbind].
  rewrite (muT_py_fin Hvalid). cbn [rbind].
  rewrite HS0, py_div_fin by lra. cbn [rbind].
  replace (0 / c_strike c) with 0 by (field; lra).
  rewrite F_log_zero, F_sqrt_fin by lra.
  cbn [F.add F.mul F.div F.sub F.neg].
  rewrite Rlt_b_false by lra. cbn [F.add F.sub F.neg].
  rewrite N_py_NInf. autorewrite with fin. do 2 apply f_equal. ring.
Qed.

End ZeroSpot.

Lemma py_div_of_int a n : n <> 0%Z -> py_div a (of_int n) = Ok (F.div a (of_int n)).
Proof.
  intros H. unfold py_div, of_int. rewrite Req_b_false; [reflexivity |].
  intros E. now apply eq_IZR_R0 in E.
Qed.

(** ** The exceptions of the queries *)

Lemma py_div_raises a b e : py_div a b = Raise e -> e = ZeroDivisionError.
Proof.
  unfold py_div. destruct b as [y | | |]; try discriminate.
  destruct (Req_b y 0); [| discriminate]. now intros [= <-].
Qed.

Lemma getattr_raises {A} (f : AsianOptionMC -> option A) self e :
  getattr f self = Raise e -> e = AttributeError.
Proof. unfold getattr. destruct (f self); [discriminate |]. now intros [= <-]. Qed.

Ltac attribute_or_division :=
  repeat match goal with
  | |- context [rbind (getattr ?f ?self) _] =>
      destruct (getattr f self) eqn:?; cbn [rbind];
      [| intros [= <-]; left; eapply getattr_raises; eassumption]
  | |- context [rbind (py_div ?a ?b) _] =>
      destruct (py_div a b) eqn:?; cbn [rbind];
      [| intros [= <-]; right; eapply py_div_raises; eassumption]
  end.

Lemma GeometricAsianOption_raises self e :
  GeometricAsianOption self = Raise e -> e = AttributeError \/ e = ZeroDivisionError.
Proof. unfold GeometricAsianOption. attribute_or_division. discriminate. Qed.

Section QueryExceptions.

Variable G : Generator.
Variable self : AsianOptionMC.

Lemma np_random_randn_raises n m (s : rng G) e :
  fst (np_random_randn G n m s) = Raise e -> e = ValueError negative_dimensions.
Proof.
  unfold np_random_randn. destruct ((n <? 0) || (m <? 0))%Z; cbn.
  - now intros [= <-].
  - destruct (draw_rows _ _ _ _). discriminate.
Qed.

Lemma price_path_raises (s : rng G) e :
  fst (price_path G self s) = Raise e -> simulation_error e.
Proof.
  unfold price_path, bind, modify, attr, lift, ret.
  repeat match goal with
  | |- context [getattr ?f self] =>
      destruct (getattr f self) eqn:?; cbn [fst];
      [| intros [= <-]; left; eapply getattr_raises; eassumption]
  end.
  match goal with
  | |- context [np_random_randn G ?n ?m ?s] =>
      pose proof (@np_random_randn_raises n m s) as H;
      destruct (np_random_randn G n m s) as [[z | e'] s']
  end; cbn [fst] in *; [discriminate |].
  intros [= <-]. right. now apply H.
Qed.

Lemma MCPayoff_cases (s : rng G) :
  (exists pay P, fst (MCPayoff G self s) = Ok pay
                 /\ fst (price_path G self s) = Ok P /\ length pay = length P)
  \/ (exists e, fst (MCPayoff G self s) = Raise e /\ simulation_error e).
Proof.
  pose proof (@price_path_raises s) as HP.
  unfold MCPayoff, bind, attr, lift, ret.
  destruct (getattr option_type self) as [ot | e] eqn:Eot;
    [| right; exists e; split; [reflexivity | left; eapply getattr_raises; eassumption]].
  destruct (py_eq_str ot "call");
    (destruct (getattr discount self) as [d | e] eqn:Ed;
     [| right; exists e; split; [reflexivity | left; eapply getattr_raises; eassumption]]).
  - destruct (price_path G self s) as [[P | e] s'];
      [| right; exists e; split; [reflexivity | now apply HP]].
    destruct (getattr strike self) as [k | e] eqn:Ek;
      [| right; exists e; split; [reflexivity | left; eapply getattr_raises; eassumption]].
    left. exists (call_payoffs d k (map np_mean P)), P.
    repeat split. unfold call_payoffs. now rewrite !length_map.
  - destruct (getattr strike self) as [k | e] eqn:Ek;
      [| right; exists e; split; [reflexivity | left; eapply getattr_raises; eassumption]].
    destruct (price_path G self s) as [[P | e] s'];
      [| right; exists e; split; [reflexivity | now apply HP]].
    left. exists (put_payoffs d k (map np_mean P)), P.
    repeat split. unfold put_payoffs. now rewrite !length_map.
Qed.

Lemma MCPayoff_raises (s : rng G) e :
  fst (MCPayoff G self s) = Raise e -> simulation_error e.
Proof.
  destruct (MCPayoff_cases s) as [(pay & P & H & _) | (e' & H & He)];
    rewrite H; [discriminate | now intros [= <-]].
Qed.

Lemma value_raises (s : rng G) e :
  fst (value G self s) = Raise e -> simulation_error e.
Proof.
  unfold value, bind.
  pose proof (@MCPayoff_raises s) as H1.
  destruct (MCPayoff G self s) as [[pay | e1] s1]; cbn [fst] in *;
    [| intros [= <-]; now apply H1].
  pose proof (@MCPayoff_raises s1) as H2.
  destruct (MCPayoff G self s1) as [[pay' | e2] s2]; cbn [fst] in *;
    [| intros [= <-]; now apply H2].
  unfold attr, lift, ret.
  destruct (getattr simulations self) as [n | e3] eqn:E; cbn [fst];
    [discriminate | intros [= <-]; left; eapply getattr_raises; eassumption].
Qed.

Lemma np_sub_same_length a b :
  length a = length b -> np_sub a b = Ok (map2 F.sub a b).
Proof. intros H. unfold np_sub. now rewrite H, Nat.eqb_refl. Qed.

Lemma value_with_control_variate_raises (s : rng G) e :
  fst (value_with_control_variate G self s) = Raise e ->
  e = ZeroDivisionError \/ simulation_error e.
Proof.
  unfold value_with_control_variate, bind, attr, lift, ret.
  destruct (getattr M self) as [m | e0] eqn:EM;
    [| intros [= <-]; right; left; eapply getattr_raises; eassumption].
  destruct (py_div (Fin 1) (of_int m)) as [w | e0] eqn:Ew;
    [| intros [= <-]; left; eapply py_div_raises; eassumption].
  pose proof (@price_path_raises s) as HP.
  destruct (price_path G self s) as [[P | e0] s1] eqn:EP; cbn [fst] in HP;
    [| intros [= <-]; right; now apply HP].
  destruct (getattr option_type self) as [ot | e0] eqn:Eot;
    [| intros [= <-]; right; left; eapply getattr_raises; eassumption].
  destruct (getattr discount self) as [d | e0] eqn:Ed;
    [| destruct (py_eq_str ot "call"); intros [= <-]; right; left;
       eapply getattr_raises; eassumption].
  destruct (getattr strike self) as [k | e0] eqn:Ek;
    [| destruct (py_eq_str ot "call"); intros [= <-]; right; left;
       eapply getattr_raises; eassumption].
  destruct (MCPayoff_cases s1) as [(pay & P' & H & HP' & Hlen) | (e' & H & He)].
  - rewrite (price_path_reseeds G self s1 s), EP in HP'. injection HP' as <-.
    destruct (py_eq_str ot "call");
      (destruct (MCPayoff G self s1) as [r1 s2]; cbn [fst] in H; subst r1;
       destruct (GeometricAsianOption self) as [g | e0] eqn:Eg;
       [ rewrite np_sub_same_length
           by (unfold call_payoffs, put_payoffs; rewrite !length_map; congruence);
         destruct (getattr simulations self) as [n | e0] eqn:En; cbn [fst];
         [ discriminate
         | intros [= <-]; right; left; eapply getattr_raises; eassumption ]
       | intros [= <-]; apply GeometricAsianOption_raises in Eg;
         destruct Eg; [right; now left | now left] ]).
  - destruct (py_eq_str ot "call");
      (destruct (MCPayoff G self s1) as [r1 s2]; cbn [fst] in H; subst r1;
       intros [= <-]; now right).
Qed.

End QueryExceptions.

(** ** Truncation of a small [M] *)

Lemma trunc_small x : -1 < x < 1 -> trunc x = 0%Z.
Proof.
  intros [Hl Hu]. unfold trunc, Rle_b.
  destruct (Rle_dec 0 x) as [H | H].
  - symmetry. apply Int_part_spec. simpl. lra.
  - replace (Int_part (- x)) with 0%Z; [reflexivity |].
    apply Int_part_spec. simpl. lra.
Qed.

(** * The program over the range of float64: lemmas *)

(** ** The range *)

Lemma overflow_threshold_large : 1000000000000 < overflow_threshold.
Proof. unfold overflow_threshold. apply IZR_lt. now vm_compute. Qed.

Lemma underflow_threshold_pos : 0 < underflow_threshold.
Proof. unfold underflow_threshold. apply Rinv_0_lt_compat, IZR_lt. now vm_compute. Qed.

Lemma underflow_threshold_small : underflow_threshold < / 1000000000000.
Proof.
  unfold underflow_threshold. apply Rinv_lt_contravar.
  - apply Rmult_lt_0_compat; [lra | apply IZR_lt; now vm_compute].
  - apply IZR_lt. now vm_compute.
Qed.

Lemma overflows_false x : bounded x -> overflows x = false.
Proof. intros H. apply Rle_b_false. unfold bounded in H. lra. Qed.

Lemma overflows_true x : overflow_threshold <= Rabs x -> overflows x = true.
Proof. intros H. now apply Rle_b_true. Qed.

Lemma normal_bounded x : normal x -> bounded x.
Proof.
  intros [-> | [_ H]]; [| exact H].
  unfold bounded. rewrite Rabs_R0. pose proof overflow_threshold_large. lra.
Qed.

Lemma normal_0 : normal 0.
Proof. now left. Qed.

Lemma bounded_0 : bounded 0.
Proof. apply normal_bounded, normal_0. Qed.

Lemma normal_opp x : normal x -> normal (- x).
Proof.
  intros [-> | H]; [left; ring | right]. now rewrite Rabs_Ropp.
Qed.

Lemma bounded_opp x : bounded x -> bounded (- x).
Proof. unfold bounded. now rewrite Rabs_Ropp. Qed.

Lemma bounded_minus_sym x y : bounded (x - y) -> bounded (y - x).
Proof. unfold bounded. now rewrite Rabs_minus_sym. Qed.

(** A number of moderate size is within the range. *)
Lemma moderate_bounded x : Rabs x <= 1000000000000 -> bounded x.
Proof. intros H. unfold bounded. pose proof overflow_threshold_large. lra. Qed.

Lemma moderate_normal x :
  / 1000000000000 <= Rabs x <= 1000000000000 -> normal x.
Proof.
  intros [Hl Hu]. right.
  pose proof overflow_threshold_large. pose proof underflow_threshold_small. lra.
Qed.

Lemma round_normal x : normal x -> F64.round x = Fin x.
Proof.
  intros H. unfold F64.round. rewrite (overflows_false (normal_bounded H)).
  destruct H as [-> | [H _]].
  - unfold underflows. rewrite Rle_b_true; [reflexivity |].
    rewrite Rabs_R0. apply Rlt_le, underflow_threshold_pos.
  - unfold underflows. rewrite Rle_b_false by lra. reflexivity.
Qed.

Lemma round_sum_bounded x : bounded x -> F64.round_sum x = Fin x.
Proof. intros H. unfold F64.round_sum. now rewrite (overflows_false H). Qed.

(** ** Operations on finite values within the range *)

Lemma F64_add_fin x y : bounded (x + y) -> F64.add (Fin x) (Fin y) = Fin (x + y).
Proof. intros H. unfold F64.add. cbn [F.add F64.clip_sum]. now apply round_sum_bounded. Qed.

Lemma F64_sub_fin x y : bounded (x - y) -> F64.sub (Fin x) (Fin y) = Fin (x - y).
Proof.
  intros H. unfold F64.sub, F64.neg. cbn [F.neg]. now rewrite F64_add_fin.
Qed.

Lemma F64_mul_fin x y : normal (x * y) -> F64.mul (Fin x) (Fin y) = Fin (x * y).
Proof. intros H. unfold F64.mul. cbn [F.mul F64.clip]. now apply round_normal. Qed.

Lemma F64_div_fin x y :
  y <> 0 -> normal (x / y) -> F64.div (Fin x) (Fin y) = Fin (x / y).
Proof.
  intros Hy H. unfold F64.div. rewrite F_div_fin by exact Hy.
  cbn [F64.clip]. now apply round_normal.
Qed.

Lemma F64_exp_fin x : normal (exp x) -> F64.exp (Fin x) = Fin (exp x).
Proof. intros H. unfold F64.exp. cbn [F.exp F64.clip]. now apply round_normal. Qed.

Lemma F64_pow2_fin x : normal (x * x) -> F64.pow2 (Fin x) = Ok (Fin (x * x)).
Proof.
  intros H. unfold F64.pow2. rewrite (overflows_false (normal_bounded H)).
  now rewrite round_normal.
Qed.

Lemma F64_sqrt_fin x : 0 <= x -> F64.sqrt (Fin x) = Fin (sqrt x).
Proof. apply F_sqrt_fin. Qed.

Lemma F64_log_fin x : 0 < x -> F64.log (Fin x) = Fin (ln x).
Proof. apply F_log_fin. Qed.

Lemma F64_maximum_fin x y : F64.maximum (Fin x) (Fin y) = Fin (Rmax x y).
Proof. reflexivity. Qed.

Lemma float_of_int_fin n : bounded (IZR n) -> float_of_int n = Ok (Fin (IZR n)).
Proof. intros H. unfold float_of_int. now rewrite (overflows_false H). Qed.

Lemma float_of_int_overflow n :
  overflow_threshold <= Rabs (IZR n) -> float_of_int n = Raise OverflowError.
Proof. intros H. unfold float_of_int. now rewrite (overflows_true _ H). Qed.

Lemma truediv_fin x y :
  y <> 0 -> normal (x / y) -> truediv (Fin x) (Fin y) = Ok (Fin (x / y)).
Proof.
  intros Hy H. unfold truediv. rewrite Req_b_false by exact Hy.
  now rewrite F64_div_fin.
Qed.

Lemma truediv_zero a : truediv a (Fin 0) = Raise ZeroDivisionError.
Proof. unfold truediv. now rewrite Req_b_true. Qed.

Lemma truediv_raises a b e : truediv a b = Raise e -> e = ZeroDivisionError.
Proof.
  unfold truediv. destruct b as [y | | |]; try discriminate.
  destruct (Req_b y 0); [| discriminate]. now intros [= <-].
Qed.

Lemma float_of_int_raises n e : float_of_int n = Raise e -> e = OverflowError.
Proof.
  unfold float_of_int. destruct (overflows (IZR n)); [| discriminate].
  now intros [= <-].
Qed.

Lemma F64_pow2_raises a e : F64.pow2 a = Raise e -> e = OverflowError.
Proof.
  unfold F64.pow2. destruct a as [x | | |]; try discriminate.
  destruct (overflows (x * x)); [| discriminate]. now intros [= <-].
Qed.

(** ** Sums, means and deviations within the range *)

Lemma Rabs_Rsum xs : Rabs (Rsum xs) <= Rsum (map Rabs xs).
Proof.
  induction xs as [| x xs IH]; cbn [map Rsum fold_right].
  - rewrite Rabs_R0. lra.
  - eapply Rle_trans; [apply Rabs_triang |]. unfold Rsum in *. lra.
Qed.

Lemma Rsum_abs_nonneg xs : 0 <= Rsum (map Rabs xs).
Proof.
  induction xs as [| x xs IH]; cbn [map Rsum fold_right]; [lra |].
  pose proof (Rabs_pos x). unfold Rsum in *. lra.
Qed.

Lemma summable_tail x xs : summable (x :: xs) -> summable xs.
Proof.
  unfold summable, bounded. cbn [map Rsum fold_right].
  pose proof (Rabs_pos x). pose proof (Rsum_abs_nonneg xs).
  rewrite !(Rabs_right (Rsum _)) by (apply Rle_ge, Rsum_abs_nonneg).
  fold (Rsum (map Rabs xs)).
  rewrite (Rabs_right (_ + _)) by lra. lra.
Qed.

Lemma summable_bounded xs : summable xs -> bounded (Rsum xs).
Proof.
  unfold summable, bounded. intros H.
  pose proof (Rabs_Rsum xs). pose proof (Rsum_abs_nonneg xs).
  rewrite (Rabs_right (Rsum (map Rabs xs))) in H by lra. lra.
Qed.

Lemma map_Rabs_nonneg xs : Forall (fun x => 0 <= x) xs -> map Rabs xs = xs.
Proof.
  induction 1 as [| x xs Hx _ IH]; [reflexivity |].
  cbn [map]. rewrite IH. f_equal. apply Rabs_right. lra.
Qed.

Lemma summable_nonneg xs :
  Forall (fun x => 0 <= x) xs -> bounded (Rsum xs) -> summable xs.
Proof. intros Hpos H. unfold summable. now rewrite (map_Rabs_nonneg Hpos). Qed.

Lemma np_sum64_fin xs : summable xs -> Float64.np_sum (map Fin xs) = Fin (Rsum xs).
Proof.
  induction xs as [| x xs IH]; intros H; [reflexivity |].
  cbn [map]. unfold Float64.np_sum in *. cbn [fold_right].
  rewrite IH by (eapply summable_tail; exact H).
  apply F64_add_fin. apply (summable_bounded H).
Qed.

Lemma np_mean64_fin xs :
  xs <> [] -> summable xs -> normal (mean xs) ->
  Float64.np_mean (map Fin xs) = Fin (mean xs).
Proof.
  intros Hne Hs Hm. unfold Float64.np_mean, of_nat, mean.
  rewrite np_sum64_fin, length_map by exact Hs.
  apply F64_div_fin; [apply INR_length_neq_0, Hne | exact Hm].
Qed.

Lemma np_std64_fin xs n :
  xs <> [] -> estimate_in_range xs n ->
  Float64.np_std (map Fin xs) = Fin (stddev xs).
Proof.
  intros Hne [Hs Hm Hd Hq Hqs Hv _ _ _ _]. unfold Float64.np_std.
  rewrite np_mean64_fin by assumption.
  rewrite map_map.
  rewrite (map_ext_in _ (fun x => Fin ((x - mean xs) ^ 2))).
  2:{ intros x Hx. rewrite Forall_forall in Hd, Hq.
      rewrite F64_sub_fin by (apply Hd, Hx).
      rewrite F64_mul_fin.
      - f_equal. ring.
      - replace ((x - mean xs) * (x - mean xs)) with ((x - mean xs) ^ 2) by ring.
        apply Hq, Hx. }
  rewrite <- (map_map (fun x => (x - mean xs) ^ 2) Fin).
  rewrite np_mean64_fin.
  - apply F64_sqrt_fin, variance_nonneg.
  - destruct xs; [congruence | discriminate].
  - exact Hqs.
  - exact Hv.
Qed.

Lemma bounds64_fin xs n :
  xs <> [] -> (0 < n)%Z -> estimate_in_range xs n ->
  Float64.np_mean (map Fin xs) = Fin (mean xs)
  /\ Float64.lower_bound (Float64.np_mean (map Fin xs)) (Float64.np_std (map Fin xs)) n
     = Fin (lower95 xs n)
  /\ Float64.upper_bound (Float64.np_mean (map Fin xs)) (Float64.np_std (map Fin xs)) n
     = Fin (upper95 xs n).
Proof.
  intros Hne Hn He.
  assert (Hs : 0 < sqrt (IZR n)) by (apply sqrt_lt_R0, IZR_lt, Hn).
  unfold Float64.lower_bound, Float64.upper_bound, of_int.
  rewrite (np_std64_fin Hne He).
  destruct He as [Hsum Hm _ _ _ _ Hsc Hh Hlo Hup].
  rewrite np_mean64_fin by assumption.
  rewrite F64_sqrt_fin by (apply Rlt_le, IZR_lt, Hn).
  rewrite F64_mul_fin by exact Hsc.
  rewrite F64_div_fin by (lra || exact Hh).
  rewrite F64_sub_fin by exact Hlo.
  rewrite F64_add_fin by exact Hup.
  repeat split; reflexivity.
Qed.

(** ** The path matrix within the range *)

Lemma scan_mul64_seq (f : nat -> R) n : forall k,
  (forall j, (k <= j < k + n)%nat -> normal (prodn f (S j))) ->
  Float64.scan_mul (Fin (prodn f k)) (map (fun j => Fin (f j)) (seq k n))
  = map (fun j => Fin (prodn f (S j))) (seq k n).
Proof.
  induction n as [| n IH]; intros k H; [reflexivity |].
  cbn [seq map Float64.scan_mul].
  rewrite F64_mul_fin by (apply (H k); lia).
  change (prodn f k * f k) with (prodn f (S k)).
  rewrite IH; [reflexivity |]. intros j Hj. apply H. lia.
Qed.

Lemma np_cumprod64_seq (f : nat -> R) n :
  (forall j, (j < n)%nat -> normal (prodn f (S j))) ->
  Float64.np_cumprod (map (fun j => Fin (f j)) (seq 0 n))
  = map (fun j => Fin (prodn f (S j))) (seq 0 n).
Proof.
  intros H. destruct n as [| n]; [reflexivity |].
  cbn [seq map Float64.np_cumprod].
  replace (Fin (f 0%nat)) with (Fin (prodn f 1)) by (simpl; f_equal; ring).
  rewrite scan_mul64_seq; [reflexivity |]. intros j Hj. apply H. lia.
Qed.

Lemma growth_drift_vol c z : growth c z = exp (drift c + vol c * z).
Proof. unfold growth, drift, vol, sigma_sq. f_equal. ring. Qed.

Section PricePath64.

Variable N : Numpy.
Variable c : Contract.
Hypothesis Hvalid : valid c.
Hypothesis Hsim : simulation_in_range N c.

Lemma randn64_valid (s : rng N) :
  Float64.np_random_randn N (c_simulations c) (c_M c) s
  = (Ok (map (fun i => map (fun j => Fin (nth_gauss N s (i * Z.to_nat (c_M c) + j)))
                           (seq 0 (Z.to_nat (c_M c))))
             (seq 0 (Z.to_nat (c_simulations c)))),
     rng_after N (Z.to_nat (c_simulations c) * Z.to_nat (c_M c)) s).
Proof.
  unfold Float64.np_random_randn.
  pose proof (valid_M Hvalid). pose proof (valid_simulations Hvalid).
  replace ((c_simulations c <? 0) || (c_M c <? 0))%Z with false
    by (symmetry; apply orb_false_iff; split; apply Z.ltb_ge; lia).
  rewrite (sim_created Hsim). now rewrite draw_rows_spec.
Qed.

Lemma price_path64_row i :
  (i < Z.to_nat (c_simulations c))%nat ->
  map (F64.mul (Fin (c_S0 c)))
    (Float64.np_cumprod
       (map (fun x => F64.exp (F64.add (Fin (drift c)) (F64.mul (Fin (vol c)) x)))
          (map (fun j => Fin (Z_draw N c i j)) (seq 0 (Z.to_nat (c_M c))))))
  = map Fin (map (fun t => S_path N c i (S t)) (seq 0 (Z.to_nat (c_M c)))).
Proof.
  intros Hi. rewrite map_map.
  rewrite (map_ext_in _ (fun j => Fin (growth c (Z_draw N c i j)))).
  2:{ intros j Hj. apply in_seq in Hj.
      destruct (sim_draw Hsim Hi (t := j)) as (H1 & H2 & H3 & _); [lia |].
      rewrite F64_mul_fin by exact H1. rewrite F64_add_fin by exact H2.
      rewrite growth_drift_vol in H3. rewrite F64_exp_fin by exact H3.
      now rewrite growth_drift_vol. }
  rewrite np_cumprod64_seq.
  2:{ intros j Hj. destruct (sim_draw Hsim Hi Hj) as (_ & _ & _ & H4 & _). exact H4. }
  rewrite !map_map. apply map_ext_in. intros t Ht. apply in_seq in Ht.
  destruct (sim_draw Hsim Hi (t := t)) as (_ & _ & _ & _ & H5); [lia |].
  rewrite S_path_prodn in H5 |- *. now apply F64_mul_fin.
Qed.

Lemma price_path64_valid (s : rng N) :
  Float64.price_path N (instance_of c) s
  = (Ok (map (map Fin) (simulated_paths N c)), rng_final N c).
Proof.
  unfold Float64.price_path, bind, modify, attr, lift, ret, instance_of, getattr.
  cbn [S0 r sigma time_unit simulations M].
  rewrite F64_pow2_fin by exact (sim_square Hsim).
  rewrite randn64_valid. unfold rng_final. f_equal. f_equal.
  rewrite F64_mul_fin by exact (sim_half Hsim).
  rewrite F64_sub_fin by exact (sim_rate Hsim).
  rewrite F64_mul_fin by exact (sim_drift Hsim).
  rewrite F64_sqrt_fin by (apply Rlt_le, (time_unit_pos Hvalid)).
  rewrite F64_mul_fin by exact (sim_vol Hsim).
  unfold simulated_paths. rewrite !map_map. apply map_ext_in. intros i Hi.
  apply in_seq in Hi. rewrite <- price_path64_row by lia. reflexivity.
Qed.

End PricePath64.

(** ** The plain estimator within the range *)

Section PlainEstimator64.

Variable N : Numpy.
Variable c : Contract.
Hypothesis Hvalid : valid c.
Hypothesis Hsim : simulation_in_range N c.
Hypothesis Hpay : payoffs_in_range N c.

Lemma row_means64_fin :
  map Float64.np_mean (map (map Fin) (simulated_paths N c))
  = map Fin (map arithmetic_average (simulated_paths N c)).
Proof.
  rewrite !map_map. apply map_ext_in. intros path H.
  destruct (pay_path Hpay path H) as (H1 & H2 & _).
  apply np_mean64_fin; [apply (simulated_path_nonempty N Hvalid), H | exact H1 | exact H2].
Qed.

Lemma payoff64_fin path :
  In path (simulated_paths N c) ->
  F64.mul (Fin (exp (- c_r c * c_T c)))
    (match c_kind c with
     | call => F64.maximum (F64.sub (Fin (arithmetic_average path)) (Fin (c_strike c)))
                 (Fin 0)
     | put => F64.maximum (F64.sub (Fin (c_strike c)) (Fin (arithmetic_average path)))
                (Fin 0)
     end)
  = Fin (arithmetic_payoff c path).
Proof.
  intros H. destruct (pay_path Hpay path H) as (_ & _ & H3 & H4).
  unfold arithmetic_payoff in *.
  destruct (c_kind c); cbn [payoff] in *.
  - rewrite F64_sub_fin by exact H3. rewrite F64_maximum_fin.
    rewrite F64_mul_fin; [f_equal; ring |].
    now rewrite Rmult_comm.
  - rewrite F64_sub_fin by (apply bounded_minus_sym, H3). rewrite F64_maximum_fin.
    rewrite F64_mul_fin; [f_equal; ring |].
    now rewrite Rmult_comm.
Qed.

Lemma MCPayoff64_valid (s : rng N) :
  Float64.MCPayoff N (instance_of c) s
  = (Ok (map Fin (arithmetic_payoffs N c)), rng_final N c).
Proof.
  unfold Float64.MCPayoff, bind, attr, lift, getattr, ret.
  cbn [instance_of option_type discount strike].
  assert (Hout :
    (if py_eq_str (PyStr (kind_name (c_kind c))) "call"
     then Float64.call_payoffs (Fin (exp (- c_r c * c_T c))) (Fin (c_strike c))
            (map Float64.np_mean (map (map Fin) (simulated_paths N c)))
     else Float64.put_payoffs (Fin (exp (- c_r c * c_T c))) (Fin (c_strike c))
            (map Float64.np_mean (map (map Fin) (simulated_paths N c))))
    = map Fin (arithmetic_payoffs N c)).
  { rewrite row_means64_fin. unfold arithmetic_payoffs.
    pose proof payoff64_fin as P.
    destruct (c_kind c); cbn [kind_name py_eq_str py_ne_str String.eqb Ascii.eqb
                              Bool.eqb negb andb] in *;
      unfold Float64.call_payoffs, Float64.put_payoffs; rewrite !map_map;
      apply map_ext_in; intros path Hp; apply (P path Hp). }
  destruct (py_eq_str _ _); cbn [instance_of option_type discount strike];
    rewrite (price_path64_valid Hvalid Hsim); cbn [fst snd]; now rewrite Hout.
Qed.

Hypothesis Hest : estimate_in_range (arithmetic_payoffs N c) (c_simulations c).

Lemma value64_valid (s : rng N) :
  Float64.value N (instance_of c) s
  = (Ok (Fin (mean (arithmetic_payoffs N c)),
         Fin (lower95 (arithmetic_payoffs N c) (c_simulations c)),
         Fin (upper95 (arithmetic_payoffs N c) (c_simulations c))),
     rng_final N c).
Proof.
  destruct (bounds64_fin (arithmetic_payoffs_nonempty N Hvalid)
              (valid_simulations Hvalid) Hest) as (Hm & Hlo & Hup).
  unfold Float64.value, bind. rewrite !MCPayoff64_valid.
  unfold attr, lift, getattr, ret. cbn [instance_of simulations].
  now rewrite Hlo, Hup, Hm.
Qed.

End PlainEstimator64.

(** ** The constructor over the range of float64 *)

Lemma float_argument_numeric v x : float_argument v x -> numeric v x.
Proof. intros [-> | (n & -> & -> & _)]; [now left | right; now exists n]. Qed.

Lemma bounded_nonzero_int m : bounded (IZR m) -> m <> 0%Z -> normal (IZR m).
Proof.
  intros Hb Hm. right. split; [| exact Hb].
  pose proof underflow_threshold_small as Hu.
  assert (1 <= Rabs (IZR m)).
  { rewrite <- abs_IZR. apply IZR_le. lia. }
  lra.
Qed.

Lemma raises_only_float_of_int (P : exn -> Prop) n :
  P OverflowError -> raises_only P (@lift ctor_state _ (float_of_int n)).
Proof.
  intros He s e s'. unfold lift. intros H. inversion H as [[H1 H2]].
  apply float_of_int_raises in H1. now subst.
Qed.

Lemma raises_only_truediv (P : exn -> Prop) a b :
  P ZeroDivisionError -> raises_only P (@lift ctor_state _ (truediv a b)).
Proof.
  intros He s e s'. unfold lift. intros H. inversion H as [[H1 H2]].
  apply truediv_raises in H1. now subst.
Qed.

Lemma derived64_quiet : quiet Float64.derived.
Proof. unfold Float64.derived. quiet_steps. Qed.

Lemma checks_raises64 ot vS0 vK vT vr vdiv vsig :
  raises_only after_try_error64 (checks ot vS0 vK vT vr vdiv vsig).
Proof.
  intros s e s' H. apply checks_raises in H. unfold after_try_error in H.
  unfold after_try_error64. tauto.
Qed.

Lemma derived64_raises : raises_only after_try_error64 Float64.derived.
Proof.
  unfold Float64.derived, after_try_error64.
  repeat (apply raises_only_bind; [| intros ?]);
    first [apply raises_only_self_attr; tauto
          | apply raises_only_float_of_int; tauto
          | apply raises_only_truediv; tauto
          | apply raises_only_setattr].
Qed.

Section Constructor64.

Variable float_of_str : string -> option float64.
Variable int_of_str : string -> option Z.

Lemma py_float64_argument v x :
  float_argument v x -> Float64.py_float float_of_str v = Ok (Fin x).
Proof.
  intros [-> | (n & -> & -> & Hb)]; [reflexivity |].
  cbn [Float64.py_float]. now apply float_of_int_fin.
Qed.

Lemma coerce64_quiet ot vS0 vK vT vM vr vdiv vsig vn :
  quiet (Float64.coerce float_of_str int_of_str ot vS0 vK vT vM vr vdiv vsig vn).
Proof. unfold Float64.coerce. quiet_steps. Qed.

Lemma init64_not_a_string ot vS0 vK vT vM vr vdiv vsig vn :
  isinstance_str ot = false ->
  Float64.__init__ float_of_str int_of_str ot vS0 vK vT vM vr vdiv vsig vn
  = ([], Raise AssertionError).
Proof.
  intros H. unfold Float64.__init__, Float64.init_body, bind at 1 2, try_except_ValueError.
  unfold Float64.coerce, bind at 1 2, setattr, modify, py_assert. rewrite H. reflexivity.
Qed.

(** A [ValueError] of the [try] block is caught: the message is printed
    and construction goes on from the object as it stands. *)
Lemma init64_after_caught ot vS0 vK vT vM vr vdiv vsig vn msg self out :
  Float64.coerce float_of_str int_of_str ot vS0 vK vT vM vr vdiv vsig vn (blank, [])
  = (Raise (ValueError msg), (self, out)) ->
  Float64.__init__ float_of_str int_of_str ot vS0 vK vT vM vr vdiv vsig vn
  = match bind (checks ot vS0 vK vT vr vdiv vsig) (fun _ => Float64.derived)
            (self, [error_passing]) with
    | (Ok _, (self', out')) => (out', Ok self')
    | (Raise e, (_, out')) => (out', Raise e)
    end.
Proof.
  intros H.
  assert (out = []) as ->.
  { pose proof (coerce64_quiet ot vS0 vK vT vM vr vdiv vsig vn (blank, [])) as Q.
    rewrite H in Q. exact Q. }
  unfold Float64.__init__, Float64.init_body, bind at 1, try_except_ValueError.
  rewrite H. reflexivity.
Qed.

Lemma init64_caught_outcome ot vS0 vK vT vM vr vdiv vsig vn msg st :
  Float64.coerce float_of_str int_of_str ot vS0 vK vT vM vr vdiv vsig vn (blank, [])
  = (Raise (ValueError msg), st) ->
  fst (Float64.__init__ float_of_str int_of_str ot vS0 vK vT vM vr vdiv vsig vn)
  = [error_passing]
  /\ forall e,
       snd (Float64.__init__ float_of_str int_of_str ot vS0 vK vT vM vr vdiv vsig vn)
       = Raise e ->
       after_try_error64 e.
Proof.
  destruct st as [self out]. intros H.
  rewrite (init64_after_caught _ _ _ _ _ _ _ _ _ H).
  assert (Q : quiet (bind (checks ot vS0 vK vT vr vdiv vsig) (fun _ => Float64.derived))).
  { apply quiet_bind; [apply checks_quiet | intros _; apply derived64_quiet]. }
  assert (E : raises_only after_try_error64
                (bind (checks ot vS0 vK vT vr vdiv vsig) (fun _ => Float64.derived))).
  { apply raises_only_bind; [apply checks_raises64 | intros _; apply derived64_raises]. }
  specialize (Q (self, [error_passing])). specialize (E (self, [error_passing])).
  destruct ((checks ot vS0 vK vT vr vdiv vsig ;;; Float64.derived) (self, [error_passing]))
    as [[u | e] [self' out']];
    cbn [fst snd] in *.
  - split; [exact Q | intros e H'; discriminate H'].
  - split; [exact Q |]. intros e' H'. inversion H'; subst. eapply E. reflexivity.
Qed.

Section NumericArguments64.

Variables (s : string) (vS0 vK vT vM vr vdiv vsig vn : pyval).
Variables (xS0 xK xT : R) (m : Z) (xr xdiv xsig : R).
Hypothesis HS0 : float_argument vS0 xS0.
Hypothesis HK : float_argument vK xK.
Hypothesis HT : float_argument vT xT.
Hypothesis HM : integral vM m.
Hypothesis Hr : float_argument vr xr.
Hypothesis Hdiv : float_argument vdiv xdiv.
Hypothesis Hsig : float_argument vsig xsig.

Lemma out_of_bounds_argument :
  out_of_bounds vS0 vK vT vr vdiv vsig
  = Ok (Rlt_b xS0 0 || (Rlt_b xK 0 || (Rle_b xT 0 || (Rlt_b xr 0
        || (Rlt_b xdiv 0 || Rlt_b xsig 0))))).
Proof.
  apply out_of_bounds_numeric; now apply float_argument_numeric.
Qed.

(** The steps after the [try] statement, from the object [self] the block
    left with [T], [M] and [r] assigned. *)
Lemma after_try64 (self : AsianOptionMC) (out : list string) :
  T self = Some (Fin xT) -> M self = Some m -> r self = Some (Fin xr) ->
  match bind (checks (PyStr s) vS0 vK vT vr vdiv vsig) (fun _ => Float64.derived)
          (self, out) with
  | (Ok _, (self', out')) => (out', Ok self')
  | (Raise e, (_, out')) => (out', Raise e)
  end
  = if negb (String.eqb s "call") && negb (String.eqb s "put")
    then (out, Raise (ValueError option_type_not_valid))
    else if Rlt_b xS0 0 || (Rlt_b xK 0 || (Rle_b xT 0 || (Rlt_b xr 0
                 || (Rlt_b xdiv 0 || Rlt_b xsig 0))))
    then (out, Raise (ValueError negative_inputs))
    else if overflows (IZR m)
    then (out, Raise OverflowError)
    else if Req_b (IZR m) 0
    then (out, Raise ZeroDivisionError)
    else (out, Ok (set_discount (F64.exp (F64.mul (Fin (- xr)) (Fin xT)))
                     (set_time_unit (F64.div (Fin xT) (Fin (IZR m))) self))).
Proof.
  intros HT' HM' Hr'. unfold checks, bind at 1 2.
  cbn [py_ne_str].
  destruct (negb (String.eqb s "call") && negb (String.eqb s "put")); [reflexivity |].
  unfold ret at 1, bind at 1, lift at 1. rewrite out_of_bounds_argument.
  destruct (Rlt_b xS0 0 || _); [reflexivity |].
  unfold ret at 1, Float64.derived, bind, self_attr, getattr, lift, setattr, modify,
    float_of_int, truediv.
  cbn [fst snd]. rewrite HT', HM'.
  destruct (overflows (IZR m)); [reflexivity |].
  destruct (Req_b (IZR m) 0); [reflexivity |].
  cbn [fst snd set_time_unit T M r]. rewrite Hr', HT'. reflexivity.
Qed.

Variable n : Z.
Hypothesis Hn : integral vn n.

Lemma coerce64_numeric out :
  Float64.coerce float_of_str int_of_str (PyStr s) vS0 vK vT vM vr vdiv vsig vn
    (blank, out)
  = (Ok tt, (coerced (PyStr s) xS0 xK xT m xr xdiv xsig n, out)).
Proof.
  unfold Float64.coerce, bind, setattr, modify, py_assert, lift, ret.
  cbn [isinstance_str fst snd].
  rewrite (py_float64_argument HS0), (py_float64_argument HK), (py_float64_argument HT),
    (py_int_integral int_of_str HM), (py_float64_argument Hr),
    (py_float64_argument Hdiv), (py_float64_argument Hsig),
    (py_int_integral int_of_str Hn).
  reflexivity.
Qed.

Lemma init64_numeric :
  Float64.__init__ float_of_str int_of_str (PyStr s) vS0 vK vT vM vr vdiv vsig vn
  = if negb (String.eqb s "call") && negb (String.eqb s "put")
    then ([], Raise (ValueError option_type_not_valid))
    else if Rlt_b xS0 0 || (Rlt_b xK 0 || (Rle_b xT 0 || (Rlt_b xr 0
                 || (Rlt_b xdiv 0 || Rlt_b xsig 0))))
    then ([], Raise (ValueError negative_inputs))
    else if overflows (IZR m)
    then ([], Raise OverflowError)
    else if Req_b (IZR m) 0
    then ([], Raise ZeroDivisionError)
    else ([], Ok (mkAsianOptionMC (Some (PyStr s)) (Some (Fin xS0)) (Some (Fin xK))
                    (Some (Fin xT)) (Some m) (Some (Fin xr)) (Some (Fin xdiv))
                    (Some (Fin xsig)) (Some n)
                    (Some (F64.div (Fin xT) (Fin (IZR m))))
                    (Some (F64.exp (F64.mul (Fin (- xr)) (Fin xT)))))).
Proof.
  unfold Float64.__init__, Float64.init_body, bind at 1, try_except_ValueError.
  rewrite coerce64_numeric.
  rewrite (@after_try64 (coerced (PyStr s) xS0 xK xT m xr xdiv xsig n) []
             eq_refl eq_refl eq_refl).
  reflexivity.
Qed.

Lemma init64_in_bounds (k : kind) :
  s = kind_name k ->
  0 <= xS0 -> 0 <= xK -> 0 < xT -> 0 <= xr -> 0 <= xdiv -> 0 <= xsig ->
  m <> 0%Z -> bounded (IZR m) ->
  Float64.__init__ float_of_str int_of_str (PyStr s) vS0 vK vT vM vr vdiv vsig vn
  = ([], Ok (built k xS0 xK xT m xr xdiv xsig (Some n))).
Proof.
  intros Hs B1 B2 B3 B4 B5 B6 Bm Bb. rewrite init64_numeric, Hs.
  replace (negb (String.eqb (kind_name k) "call") && negb (String.eqb (kind_name k) "put"))
    with false by (destruct k; reflexivity).
  rewrite !Rlt_b_false, Rle_b_false by lra. cbn [orb].
  rewrite (overflows_false Bb).
  rewrite Req_b_false by (apply not_0_IZR, Bm).
  reflexivity.
Qed.

End NumericArguments64.

End Constructor64.

(** Within the range the object built for a valid contract is the object
    of the exact embedding. *)
Lemma built_in_range c :
  valid c -> parameters_in_range c ->
  built (c_kind c) (c_S0 c) (c_strike c) (c_T c) (c_M c) (c_r c) (c_div c) (c_sigma c)
    (Some (c_simulations c))
  = instance_of c.
Proof.
  intros Hv Hp. unfold built, instance_of.
  assert (HM : IZR (c_M c) <> 0) by (apply Rgt_not_eq, (IZR_M_pos Hv)).
  rewrite F64_div_fin by (exact HM || exact (in_range_time_unit Hp)).
  rewrite F64_mul_fin by exact (in_range_rate_time Hp).
  rewrite F64_exp_fin by exact (in_range_discount Hp).
  reflexivity.
Qed.

(** ** The analytic value within the range *)

Section Analytic64.

Variable c : Contract.
Hypothesis Hvalid : valid c.
Hypothesis HS0 : 0 < c_S0 c.
Hypothesis HK : 0 < c_strike c.
Hypothesis Hsig : 0 < c_sigma c.
Hypothesis Han : analytic_in_range c.

Lemma sigsqT_steps :
  sigma_sq c * c_T c * IZR (c_M c + 1) * IZR (2 * c_M c + 1) / IZR (6 * c_M c * c_M c)
  = sigsqT c.
Proof.
  pose proof (IZR_M_pos Hvalid) as HM.
  unfold sigsqT, sigma_sq. rewrite !plus_IZR, !mult_IZR. field. lra.
Qed.

Lemma muT_steps :
  0.5 * sigsqT c
  + (c_r c - 0.5 * sigma_sq c) * c_T c * IZR (c_M c + 1) / IZR (2 * c_M c)
  = muT c.
Proof.
  pose proof (IZR_M_pos Hvalid) as HM.
  unfold muT, sigma_sq. rewrite !plus_IZR, !mult_IZR. field. lra.
Qed.

Lemma N_cdf_fin x :
  normal (x / sqrt 2) -> bounded (1 + erf (x / sqrt 2)) -> normal (N x) ->
  Float64.N_cdf (Fin x) = Fin (N x).
Proof.
  intros H1 H2 H3. unfold Float64.N_cdf.
  rewrite F64_sqrt_fin by lra.
  rewrite F64_div_fin by (exact sqrt2_neq_0 || exact H1).
  rewrite F_erf_fin. rewrite F64_add_fin by exact H2.
  now rewrite F64_mul_fin by exact H3.
Qed.

Lemma GeometricAsianOption64_fin :
  Float64.GeometricAsianOption (instance_of c) = Ok (Fin (closed_form c)).
Proof.
  pose proof (IZR_M_pos Hvalid) as HM.
  pose proof (sigsqT_pos Hvalid Hsig) as Hq.
  assert (Hsq : sqrt (sigsqT c) <> 0) by (apply Rgt_not_eq, sqrt_lt_R0, Hq).
  assert (Hratio : 0 < c_S0 c / c_strike c) by (apply Rdiv_lt_0_compat; assumption).
  assert (Ed1 : (ln (c_S0 c / c_strike c) + (muT c + 0.5 * sigsqT c)) / sqrt (sigsqT c)
                = d1 c).
  { unfold d1. f_equal. ring. }
  destruct Han.
  unfold Float64.GeometricAsianOption, instance_of, getattr.
  cbn [sigma T M r S0 strike discount rbind].
  rewrite (@F64_pow2_fin (c_sigma c)) by assumption. fold (sigma_sq c). cbn [rbind].
  rewrite !float_of_int_fin by assumption. cbn [rbind].
  rewrite (@F64_mul_fin (sigma_sq c) (c_T c)) by assumption.
  rewrite (@F64_mul_fin (sigma_sq c * c_T c) _) by assumption.
  rewrite (@F64_mul_fin (sigma_sq c * c_T c * IZR (c_M c + 1)) _) by assumption.
  rewrite truediv_fin;
    [| rewrite !mult_IZR; nra | now rewrite sigsqT_steps].
  rewrite sigsqT_steps. cbn [rbind].
  rewrite (@F64_mul_fin 0.5 (sigma_sq c)) by assumption.
  rewrite (@F64_sub_fin (c_r c) _) by assumption.
  rewrite (@F64_mul_fin (c_r c - 0.5 * sigma_sq c) _) by assumption.
  rewrite (@F64_mul_fin ((c_r c - 0.5 * sigma_sq c) * c_T c) _) by assumption.
  rewrite truediv_fin; [| rewrite !mult_IZR; nra | assumption].
  cbn [rbind].
  rewrite (@F64_mul_fin 0.5 (sigsqT c)) by assumption.
  rewrite (@F64_add_fin (0.5 * sigsqT c) _) by (now rewrite muT_steps).
  rewrite muT_steps.
  rewrite truediv_fin by (lra || assumption). cbn [rbind].
  rewrite F64_log_fin by exact Hratio.
  rewrite (@F64_add_fin (muT c) _) by assumption.
  rewrite (@F64_add_fin (ln (c_S0 c / c_strike c)) _) by assumption.
  rewrite F64_sqrt_fin by lra.
  rewrite F64_div_fin by (exact Hsq || now rewrite Ed1).
  rewrite Ed1.
  rewrite (@F64_sub_fin (d1 c) _) by assumption.
  fold (d2 c).
  rewrite !N_cdf_fin by assumption.
  rewrite F64_exp_fin by assumption.
  rewrite (@F64_mul_fin (c_S0 c) _) by assumption.
  rewrite (@F64_mul_fin (c_S0 c * exp (muT c)) _) by assumption.
  rewrite (@F64_mul_fin (c_strike c) _) by assumption.
  rewrite F64_sub_fin by assumption.
  rewrite F64_mul_fin by assumption.
  reflexivity.
Qed.

End Analytic64.

(** ** The control-variate estimator within the range *)

Lemma np_sub64_map {A} (f g : A -> float64) (l : list A) :
  Float64.np_sub (map f l) (map g l) = Ok (map (fun x => F64.sub (f x) (g x)) l).
Proof.
  unfold Float64.np_sub. rewrite !length_map, Nat.eqb_refl. now rewrite map2_map.
Qed.

Lemma np_sum64_log_fin (path : list R) :
  Forall (fun x => 0 < x) path -> summable (map ln path) ->
  Float64.np_sum (map F64.log (map Fin path)) = Fin (Rsum (map ln path)).
Proof.
  intros Hpos Hs. rewrite <- np_sum64_fin by exact Hs. f_equal.
  rewrite !map_map. apply map_ext_in. intros x Hx.
  rewrite Forall_forall in Hpos. now apply F64_log_fin, Hpos.
Qed.

Lemma discounted_payoff64_fin (k : kind) (disc a K : R) :
  bounded (a - K) -> normal (payoff k a K * disc) ->
  F64.mul (Fin disc)
    (match k with
     | call => F64.maximum (F64.sub (Fin a) (Fin K)) (Fin 0)
     | put => F64.maximum (F64.sub (Fin K) (Fin a)) (Fin 0)
     end)
  = Fin (payoff k a K * disc).
Proof.
  intros H1 H2. destruct k; cbn [payoff] in *.
  - rewrite F64_sub_fin by exact H1. rewrite F64_maximum_fin.
    rewrite F64_mul_fin; [f_equal; ring | now rewrite Rmult_comm].
  - rewrite F64_sub_fin by (apply bounded_minus_sym, H1). rewrite F64_maximum_fin.
    rewrite F64_mul_fin; [f_equal; ring | now rewrite Rmult_comm].
Qed.

Section ControlVariate64.

Variable N : Numpy.
Variable c : Contract.
Hypothesis Hvalid : valid c.
Hypothesis HS0 : 0 < c_S0 c.
Hypothesis HK : 0 < c_strike c.
Hypothesis Hsig : 0 < c_sigma c.
Hypothesis Hin : corrected_in_range N c.

Lemma geometric_averages64_fin :
  map F64.exp
    (map (F64.mul (Fin (1 / IZR (c_M c))))
       (map Float64.np_sum (map (map F64.log) (map (map Fin) (simulated_paths N c)))))
  = map Fin (map (geometric_average c) (simulated_paths N c)).
Proof.
  rewrite !map_map. apply map_ext_in. intros path Hp.
  destruct (cv_path (corrected_paths Hin) path Hp) as (H1 & H2 & H3 & _).
  rewrite np_sum64_log_fin
    by first [eapply simulated_path_pos; eassumption | exact H1].
  rewrite F64_mul_fin by exact H2.
  now rewrite F64_exp_fin by exact H3.
Qed.

Lemma geometric_payoffs64_fin :
  (if py_eq_str (PyStr (kind_name (c_kind c))) "call"
   then Float64.call_payoffs (Fin (exp (- c_r c * c_T c))) (Fin (c_strike c))
          (map Fin (map (geometric_average c) (simulated_paths N c)))
   else Float64.put_payoffs (Fin (exp (- c_r c * c_T c))) (Fin (c_strike c))
          (map Fin (map (geometric_average c) (simulated_paths N c))))
  = map (fun path => Fin (geometric_payoff c path)) (simulated_paths N c).
Proof.
  assert (P : forall path, In path (simulated_paths N c) ->
    F64.mul (Fin (exp (- c_r c * c_T c)))
      (match c_kind c with
       | call => F64.maximum (F64.sub (Fin (geometric_average c path)) (Fin (c_strike c)))
                   (Fin 0)
       | put => F64.maximum (F64.sub (Fin (c_strike c)) (Fin (geometric_average c path)))
                  (Fin 0)
       end)
    = Fin (geometric_payoff c path)).
  { intros path Hp.
    destruct (cv_path (corrected_paths Hin) path Hp) as (_ & _ & _ & H4 & H5 & _).
    now apply discounted_payoff64_fin. }
  destruct (c_kind c); cbn [kind_name py_eq_str py_ne_str String.eqb Ascii.eqb
                            Bool.eqb negb andb] in *;
    unfold Float64.call_payoffs, Float64.put_payoffs; rewrite !map_map;
    apply map_ext_in; intros path Hp; apply (P path Hp).
Qed.

Lemma value_with_control_variate64_fin (s : rng N) :
  Float64.value_with_control_variate N (instance_of c) s
  = (Ok (Fin (mean (corrected_values_R N c (closed_form c))),
         Fin (lower95 (corrected_values_R N c (closed_form c)) (c_simulations c)),
         Fin (upper95 (corrected_values_R N c (closed_form c)) (c_simulations c))),
     rng_final N c).
Proof.
  destruct Hin as [Hpar Hsim Hpay Han Hcv Hest].
  assert (HM : IZR (c_M c) <> 0) by (apply Rgt_not_eq, (IZR_M_pos Hvalid)).
  destruct (bounds64_fin (corrected_values_R_nonempty N Hvalid (closed_form c))
              (valid_simulations Hvalid) Hest) as (Hm & Hlo & Hup).
  unfold Float64.value_with_control_variate, bind.
  unfold attr at 1, lift at 1, getattr at 1. cbn [instance_of M].
  unfold lift at 1. rewrite float_of_int_fin by exact (in_range_M Hpar).
  unfold lift at 1. rewrite truediv_fin by (exact HM || exact (cv_weight Hcv)).
  rewrite (price_path64_valid Hvalid Hsim).
  rewrite geometric_averages64_fin.
  unfold attr at 1, lift at 1, getattr at 1. cbn [instance_of option_type].
  pose proof geometric_payoffs64_fin as Hgeo.
  destruct (py_eq_str (PyStr (kind_name (c_kind c))) "call");
    unfold attr, lift, getattr, ret; cbn [instance_of discount strike simulations];
    rewrite Hgeo, (MCPayoff64_valid Hvalid Hsim Hpay);
    rewrite (GeometricAsianOption64_fin Hvalid HS0 HK Hsig Han);
    unfold arithmetic_payoffs; rewrite !map_map, np_sub64_map;
    (rewrite (map_ext_in _ (fun path =>
        Fin (arithmetic_payoff c path + closed_form c - geometric_payoff c path)));
     [| intros path Hp;
        destruct (cv_path Hcv path Hp) as (_ & _ & _ & _ & _ & H6 & H7);
        rewrite F64_add_fin by exact H6; now rewrite F64_sub_fin by exact H7]);
    rewrite <- (map_map (fun path => arithmetic_payoff c path + closed_form c
                                     - geometric_payoff c path) Fin);
    fold (corrected_values_R N c (closed_form c));
    now rewrite Hlo, Hup, Hm.
Qed.

End ControlVariate64.

(** ** The queries on any object *)

Lemma GeometricAsianOption64_raises self e :
  Float64.GeometricAsianOption self = Raise e ->
  e = AttributeError \/ e = OverflowError \/ e = ZeroDivisionError.
Proof.
  unfold Float64.GeometricAsianOption.
  repeat match goal with
  | |- context [rbind (getattr ?f ?o) _] =>
      destruct (getattr f o) eqn:?; cbn [rbind];
      [| intros [= <-]; left; eapply getattr_raises; eassumption]
  | |- context [rbind (F64.pow2 ?a) _] =>
      destruct (F64.pow2 a) eqn:?; cbn [rbind];
      [| intros [= <-]; right; left; eapply F64_pow2_raises; eassumption]
  | |- context [rbind (float_of_int ?a) _] =>
      destruct (float_of_int a) eqn:?; cbn [rbind];
      [| intros [= <-]; right; left; eapply float_of_int_raises; eassumption]
  | |- context [rbind (truediv ?a ?b) _] =>
      destruct (truediv a b) eqn:?; cbn [rbind];
      [| intros [= <-]; right; right; eapply truediv_raises; eassumption]
  end.
  discriminate.
Qed.

Section Queries64.

Variable N : Numpy.
Variable self : AsianOptionMC.

Lemma price_path64_reseeds (s1 s2 : rng N) :
  Float64.price_path N self s1 = Float64.price_path N self s2.
Proof. reflexivity. Qed.

Lemma np_random_randn64_raises n m (s : rng N) e :
  fst (Float64.np_random_randn N n m s) = Raise e ->
  e = ValueError negative_dimensions \/ refused N n m = Some e.
Proof.
  unfold Float64.np_random_randn. destruct ((n <? 0) || (m <? 0))%Z; cbn.
  - intros [= <-]. now left.
  - destruct (refused N n m) as [e' |]; cbn.
    + intros [= <-]. now right.
    + destruct (draw_rows _ _ _ _). discriminate.
Qed.

Lemma price_path64_raises (s : rng N) e :
  fst (Float64.price_path N self s) = Raise e -> simulation_error64 N e.
Proof.
  unfold Float64.price_path, bind, modify, attr, lift, ret.
  repeat match goal with
  | |- context [getattr ?f self] =>
      destruct (getattr f self) eqn:?; cbn [fst];
      [| intros [= <-]; left; eapply getattr_raises; eassumption]
  | |- context [F64.pow2 ?a] =>
      destruct (F64.pow2 a) eqn:?; cbn [fst];
      [| intros [= <-]; right; left; eapply F64_pow2_raises; eassumption]
  end.
  match goal with
  | |- context [Float64.np_random_randn N ?n ?m ?s] =>
      pose proof (@np_random_randn64_raises n m s) as H;
      destruct (Float64.np_random_randn N n m s) as [[z | e'] s']
  end; cbn [fst] in *; [discriminate |].
  intros [= <-]. right. right. destruct (H _ eq_refl) as [-> | H'].
  - now left.
  - right. eauto.
Qed.

Lemma MCPayoff64_cases (s : rng N) :
  (exists pay P, fst (Float64.MCPayoff N self s) = Ok pay
                 /\ fst (Float64.price_path N self s) = Ok P /\ length pay = length P)
  \/ (exists e, fst (Float64.MCPayoff N self s) = Raise e /\ simulation_error64 N e).
Proof.
  pose proof (@price_path64_raises s) as HP.
  unfold Float64.MCPayoff, bind, attr, lift, ret.
  destruct (getattr option_type self) as [ot | e] eqn:Eot;
    [| right; exists e; split; [reflexivity | left; eapply getattr_raises; eassumption]].
  destruct (py_eq_str ot "call");
    (destruct (getattr discount self) as [d | e] eqn:Ed;
     [| right; exists e; split; [reflexivity | left; eapply getattr_raises; eassumption]]).
  - destruct (Float64.price_path N self s) as [[P | e] s'];
      [| right; exists e; split; [reflexivity | now apply HP]].
    destruct (getattr strike self) as [k | e] eqn:Ek;
      [| right; exists e; split; [reflexivity | left; eapply getattr_raises; eassumption]].
    left. exists (Float64.call_payoffs d k (map Float64.np_mean P)), P.
    repeat split. unfold Float64.call_payoffs. now rewrite !length_map.
  - destruct (getattr strike self) as [k | e] eqn:Ek;
      [| right; exists e; split; [reflexivity | left; eapply getattr_raises; eassumption]].
    destruct (Float64.price_path N self s) as [[P | e] s'];
      [| right; exists e; split; [reflexivity | now apply HP]].
    left. exists (Float64.put_payoffs d k (map Float64.np_mean P)), P.
    repeat split. unfold Float64.put_payoffs. now rewrite !length_map.
Qed.

Lemma MCPayoff64_raises (s : rng N) e :
  fst (Float64.MCPayoff N self s) = Raise e -> simulation_error64 N e.
Proof.
  destruct (MCPayoff64_cases s) as [(pay & P & H & _) | (e' & H & He)];
    rewrite H; [discriminate | now intros [= <-]].
Qed.

Lemma value64_raises (s : rng N) e :
  fst (Float64.value N self s) = Raise e -> simulation_error64 N e.
Proof.
  unfold Float64.value, bind.
  pose proof (@MCPayoff64_raises s) as H1.
  destruct (Float64.MCPayoff N self s) as [[pay | e1] s1]; cbn [fst] in *;
    [| intros [= <-]; now apply H1].
  pose proof (@MCPayoff64_raises s1) as H2.
  destruct (Float64.MCPayoff N self s1) as [[pay' | e2] s2]; cbn [fst] in *;
    [| intros [= <-]; now apply H2].
  unfold attr, lift, ret.
  destruct (getattr simulations self) as [n | e3] eqn:E; cbn [fst];
    [discriminate | intros [= <-]; left; eapply getattr_raises; eassumption].
Qed.

Lemma np_sub64_same_length a b :
  length a = length b -> Float64.np_sub a b = Ok (map2 F64.sub a b).
Proof. intros H. unfold Float64.np_sub. now rewrite H, Nat.eqb_refl. Qed.

(** Whatever [value_with_control_variate] raises was raised before the
    subtraction or after it: the two arrays have the same length. *)
Lemma value_with_control_variate64_raises (s : rng N) e :
  fst (Float64.value_with_control_variate N self s) = Raise e ->
  e = ZeroDivisionError \/ simulation_error64 N e.
Proof.
  unfold Float64.value_with_control_variate, bind, attr, lift, ret.
  destruct (getattr M self) as [m | e0] eqn:EM;
    [| intros [= <-]; right; left; eapply getattr_raises; eassumption].
  destruct (float_of_int m) as [fm | e0] eqn:Ef;
    [| intros [= <-]; right; right; left; eapply float_of_int_raises; eassumption].
  destruct (truediv (Fin 1) fm) as [w | e0] eqn:Ew;
    [| intros [= <-]; left; eapply truediv_raises; eassumption].
  pose proof (@price_path64_raises s) as HP.
  destruct (Float64.price_path N self s) as [[P | e0] s1] eqn:EP; cbn [fst] in HP;
    [| intros [= <-]; right; now apply HP].
  destruct (getattr option_type self) as [ot | e0] eqn:Eot;
    [| intros [= <-]; right; left; eapply getattr_raises; eassumption].
  destruct (getattr discount self) as [d | e0] eqn:Ed;
    [| destruct (py_eq_str ot "call"); intros [= <-]; right; left;
       eapply getattr_raises; eassumption].
  destruct (getattr strike self) as [k | e0] eqn:Ek;
    [| destruct (py_eq_str ot "call"); intros [= <-]; right; left;
       eapply getattr_raises; eassumption].
  destruct (MCPayoff64_cases s1) as [(pay & P' & H & HP' & Hlen) | (e' & H & He)].
  - rewrite (price_path64_reseeds s1 s), EP in HP'. injection HP' as <-.
    destruct (py_eq_str ot "call");
      (destruct (Float64.MCPayoff N self s1) as [r1 s2]; cbn [fst] in H; subst r1;
       destruct (Float64.GeometricAsianOption self) as [g | e0] eqn:Eg;
       [ rewrite np_sub64_same_length
           by (unfold Float64.call_payoffs, Float64.put_payoffs; rewrite !length_map;
               congruence);
         destruct (getattr simulations self) as [n | e0] eqn:En; cbn [fst];
         [ discriminate
         | intros [= <-]; right; left; eapply getattr_raises; eassumption ]
       | intros [= <-]; apply GeometricAsianOption64_raises in Eg;
         destruct Eg as [-> | [-> | ->]];
         [right; now left | right; right; now left | now left] ]).
  - destruct (py_eq_str ot "call");
      (destruct (Float64.MCPayoff N self s1) as [r1 s2]; cbn [fst] in H; subst r1;
       intros [= <-]; now right).
Qed.

End Queries64.

(** ** An object without [simulations] *)

Section MissingSimulations64.

Variable N : Numpy.
Variable self : AsianOptionMC.
Hypothesis Hmissing : simulations self = None.
Hypothesis Hsquare : forall sg, sigma self = Some sg -> exists q, F64.pow2 sg = Ok q.

Lemma price_path64_missing (s : rng N) :
  Float64.price_path N self s = (Raise AttributeError, np_random_seed N seed).
Proof.
  unfold Float64.price_path, bind, modify, attr, lift, getattr.
  destruct (S0 self), (r self); try reflexivity.
  destruct (sigma self) as [sg |] eqn:E; [| reflexivity].
  destruct (Hsquare eq_refl) as [q ->].
  destruct (time_unit self); [| reflexivity].
  now rewrite Hmissing.
Qed.

Lemma MCPayoff64_missing (s : rng N) :
  exists s', Float64.MCPayoff N self s = (Raise AttributeError, s').
Proof.
  unfold Float64.MCPayoff, bind, attr, lift, getattr.
  destruct (option_type self) as [ot |]; [| now exists s].
  destruct (py_eq_str ot "call").
  - destruct (discount self); [| now exists s].
    rewrite price_path64_missing. now eexists.
  - destruct (discount self); [| now exists s].
    destruct (strike self); [| now exists s].
    rewrite price_path64_missing. now eexists.
Qed.

Lemma value64_missing (s : rng N) : fst (Float64.value N self s) = Raise AttributeError.
Proof.
  unfold Float64.value, bind. destruct (MCPayoff64_missing s) as [s' ->]. reflexivity.
Qed.

Lemma value_with_control_variate64_missing (s : rng N) :
  (forall m, M self = Some m -> m <> 0%Z /\ bounded (IZR m)) ->
  fst (Float64.value_with_control_variate N self s) = Raise AttributeError.
Proof.
  intros HM. unfold Float64.value_with_control_variate, bind.
  unfold attr at 1, lift at 1, getattr at 1.
  destruct (M self) as [m |]; [| reflexivity].
  destruct (HM m eq_refl) as [Hm Hb].
  unfold lift at 1. rewrite float_of_int_fin by exact Hb.
  unfold lift at 1, truediv. rewrite Req_b_false by (apply not_0_IZR, Hm).
  now rewrite price_path64_missing.
Qed.

End MissingSimulations64.

(** ** A valid contract, whatever the sizes of the prices *)

Section AnyPrices64.

Variable N : Numpy.
Variable c : Contract.
Hypothesis Hvalid : valid c.
Hypothesis Hsquare : bounded (sigma_sq c).
Hypothesis Hcreated : refused N (c_simulations c) (c_M c) = None.

Lemma pow2_sigma : F64.pow2 (Fin (c_sigma c)) = Ok (F64.round (sigma_sq c)).
Proof. unfold F64.pow2. fold (sigma_sq c). now rewrite (overflows_false Hsquare). Qed.

Lemma randn64_created (s : rng N) :
  exists z,
    Float64.np_random_randn N (c_simulations c) (c_M c) s
    = (Ok z, rng_after N (Z.to_nat (c_simulations c) * Z.to_nat (c_M c)) s)
    /\ length z = Z.to_nat (c_simulations c).
Proof.
  unfold Float64.np_random_randn.
  pose proof (valid_M Hvalid). pose proof (valid_simulations Hvalid).
  replace ((c_simulations c <? 0) || (c_M c <? 0))%Z with false
    by (symmetry; apply orb_false_iff; split; apply Z.ltb_ge; lia).
  rewrite Hcreated, draw_rows_spec. eexists. split; [reflexivity |].
  now rewrite length_map, length_seq.
Qed.

Lemma price_path64_returns (s : rng N) :
  exists P,
    Float64.price_path N (instance_of c) s = (Ok P, rng_final N c)
    /\ length P = Z.to_nat (c_simulations c).
Proof.
  unfold Float64.price_path, bind, modify, attr, lift, ret, instance_of, getattr.
  cbn [S0 r sigma time_unit simulations M].
  rewrite pow2_sigma.
  destruct (randn64_created (np_random_seed N seed)) as (z & -> & Hz).
  eexists. split; [reflexivity |]. now rewrite !length_map.
Qed.

Lemma MCPayoff64_returns (s : rng N) :
  exists pay, Float64.MCPayoff N (instance_of c) s = (Ok pay, rng_final N c).
Proof.
  unfold Float64.MCPayoff, bind, attr, lift, getattr, ret.
  cbn [instance_of option_type discount strike].
  destruct (py_eq_str _ _); cbn [instance_of option_type discount strike];
    destruct (price_path64_returns s) as (P & -> & _); eexists; reflexivity.
Qed.

Hypothesis Hsteps : bounded (IZR (6 * c_M c * c_M c)).

Lemma steps_bounded :
  bounded (IZR (c_M c)) /\ bounded (IZR (c_M c + 1)) /\ bounded (IZR (2 * c_M c + 1))
  /\ bounded (IZR (2 * c_M c)).
Proof.
  pose proof (valid_M Hvalid) as HM. unfold bounded in *.
  rewrite Rabs_right in Hsteps by (apply Rle_ge, IZR_le; nia).
  assert (forall k, (0 <= k <= 6 * c_M c * c_M c)%Z -> Rabs (IZR k) < overflow_threshold).
  { intros k Hk. rewrite Rabs_right by (apply Rle_ge, IZR_le; lia).
    eapply Rle_lt_trans; [apply IZR_le | exact Hsteps]. lia. }
  repeat split; apply H; nia.
Qed.

Lemma GeometricAsianOption64_strike_0 :
  c_strike c = 0 ->
  Float64.GeometricAsianOption (instance_of c) = Raise ZeroDivisionError.
Proof.
  intros HK. destruct steps_bounded as (_ & B1 & B2 & B4).
  pose proof (valid_M Hvalid) as HM.
  unfold Float64.GeometricAsianOption, instance_of, getattr.
  cbn [sigma T M r S0 strike discount rbind].
  rewrite pow2_sigma. cbn [rbind].
  rewrite !float_of_int_fin by assumption. cbn [rbind].
  unfold truediv at 1. rewrite Req_b_false by (apply not_0_IZR; nia). cbn [rbind].
  unfold truediv at 1. rewrite Req_b_false by (apply not_0_IZR; lia). cbn [rbind].
  rewrite HK. now rewrite truediv_zero.
Qed.

Lemma value_with_control_variate64_strike_0 (s : rng N) :
  c_strike c = 0 ->
  Float64.value_with_control_variate N (instance_of c) s
  = (Raise ZeroDivisionError, rng_final N c).
Proof.
  intros HK. destruct steps_bounded as (B0 & _).
  pose proof (valid_M Hvalid) as HM.
  unfold Float64.value_with_control_variate, bind.
  unfold attr at 1, lift at 1, getattr at 1. cbn [instance_of M].
  unfold lift at 1. rewrite float_of_int_fin by exact B0.
  unfold lift at 1, truediv. rewrite Req_b_false by (apply not_0_IZR; lia).
  destruct (price_path64_returns s) as (P & -> & _).
  unfold attr at 1, lift at 1, getattr at 1. cbn [instance_of option_type].
  destruct (py_eq_str (PyStr (kind_name (c_kind c))) "call");
    unfold attr, lift, getattr, ret; cbn [instance_of discount strike simulations];
    destruct (MCPayoff64_returns (rng_final N c)) as (pay & ->);
    now rewrite (GeometricAsianOption64_strike_0 HK).
Qed.

End AnyPrices64.

(** * The program over the range of float64: instances *)

(** ** Bounds on the exponential, the logarithm and the error function *)

Lemma exp_1_ge_2 : 2 <= exp 1.
Proof. pose proof (exp_ineq1_le 1). lra. Qed.

Lemma exp_neg_bounds x : -1 <= x <= 0 -> / 3 <= exp x <= 1.
Proof.
  intros [Hl Hu]. split.
  - assert (H : exp (Ropp 1) <= exp x).
    { destruct (Req_dec_T x (Ropp 1)) as [-> | E]; [lra |].
      apply Rlt_le, exp_increasing. lra. }
    rewrite exp_Ropp in H. pose proof exp_le_3 as H3.
    assert (/ 3 <= / exp 1).
    { apply Rinv_le_contravar; [apply exp_pos | exact H3]. }
    lra.
  - rewrite <- exp_0. destruct (Req_dec_T x 0) as [-> | E]; [lra |].
    apply Rlt_le, exp_increasing. lra.
Qed.

Lemma ln_lower x : 0 < x -> 1 - / x <= ln x.
Proof.
  intros Hx. pose proof (exp_ineq1_le (ln (/ x))) as H.
  rewrite exp_ln in H by (now apply Rinv_0_lt_compat).
  rewrite ln_Rinv in H by exact Hx. lra.
Qed.

Lemma ln_upper x : 0 < x -> ln x <= x - 1.
Proof.
  intros Hx. pose proof (exp_ineq1_le (ln x)) as H.
  rewrite exp_ln in H by exact Hx. lra.
Qed.

Lemma ln_8_bounds : 0.875 <= ln 8 <= 3.
Proof.
  split.
  - pose proof (@ln_lower 8). lra.
  - assert (H : 8 <= exp 3).
    { replace 3 with (1 + 1 + 1) by ring. rewrite !exp_plus.
      pose proof exp_1_ge_2. nra. }
    rewrite <- (ln_exp 3). destruct (Req_dec_T 8 (exp 3)) as [<- | E]; [lra |].
    apply Rlt_le, ln_increasing; lra.
Qed.

Lemma sqrt_2_bounds : 1 <= sqrt 2 <= 2.
Proof.
  split.
  - rewrite <- sqrt_1 at 1. apply sqrt_le_1_alt. lra.
  - replace 2 with (sqrt 4) at 2.
    + apply sqrt_le_1_alt. lra.
    + replace 4 with (2 * 2) by ring. apply sqrt_square. lra.
Qed.

Lemma erf_integral_bounds x :
  0 <= x -> 0 <= RiemannInt (erf_integrable 0 x) <= x.
Proof.
  intros Hx. split.
  - pose proof (@RiemannInt_P19 (fct_cte 0) erf_integrand 0 x
                  (RiemannInt_P14 0 x 0) (erf_integrable 0 x) Hx) as H.
    rewrite RiemannInt_P15 in H. rewrite Rmult_0_l in H. apply H.
    intros t _. unfold fct_cte, erf_integrand. apply Rlt_le, exp_pos.
  - pose proof (@RiemannInt_P19 erf_integrand (fct_cte 1) 0 x
                  (erf_integrable 0 x) (RiemannInt_P14 0 x 1) Hx) as H.
    rewrite RiemannInt_P15 in H.
    replace (1 * (x - 0)) with x in H by ring. apply H.
    intros t _. unfold fct_cte, erf_integrand.
    rewrite <- exp_0.
    destruct (Req_dec_T (- (t * t)) 0) as [-> | E]; [lra |].
    apply Rlt_le, exp_increasing. nra.
Qed.

Lemma erf_bounds x : 0 <= x -> 0 <= erf x <= 2 * x.
Proof.
  intros Hx. destruct (erf_integral_bounds Hx) as [Hl Hu].
  assert (Hs : 1 <= sqrt PI).
  { rewrite <- sqrt_1. apply sqrt_le_1_alt. pose proof PI2_1. lra. }
  assert (Hi : 0 < / sqrt PI <= 1).
  { split; [apply Rinv_0_lt_compat; lra |].
    rewrite <- Rinv_1. apply Rinv_le_contravar; lra. }
  unfold erf, Rdiv. split; nra.
Qed.

(** ** Numbers of moderate size *)

Lemma moderate_normal_pos x : / 1000000000000 <= x <= 1000000000000 -> normal x.
Proof.
  intros [Hl Hu]. apply moderate_normal.
  assert (0 < / 1000000000000) by (apply Rinv_0_lt_compat; lra).
  rewrite Rabs_right by lra. now split.
Qed.

Lemma moderate_bounded_between x :
  - 1000000000000 <= x <= 1000000000000 -> bounded x.
Proof.
  intros [Hl Hu]. apply moderate_bounded. unfold Rabs.
  destruct (Rcase_abs x); lra.
Qed.

Lemma moderate_normal_neg x :
  - 1000000000000 <= x <= - / 1000000000000 -> normal x.
Proof.
  intros [Hl Hu]. replace x with (- - x) by ring. apply normal_opp.
  apply moderate_normal_pos. lra.
Qed.

Lemma normal_1 : normal 1.
Proof. apply moderate_normal_pos. lra. Qed.

Lemma summable_singleton a : bounded a -> summable [a].
Proof.
  intros H. unfold summable, bounded in *. cbn [map Rsum fold_right].
  rewrite Rplus_0_r, Rabs_Rabsolu. exact H.
Qed.

Lemma mean_singleton a : mean [a] = a.
Proof. unfold mean. simpl. field. Qed.

Lemma stddev_singleton a : stddev [a] = 0.
Proof. unfold stddev. rewrite variance_singleton. apply sqrt_0. Qed.

(** The statistics of an array of one element are within the range when
    the element is. *)
Lemma estimate_in_range_singleton a : normal a -> estimate_in_range [a] 1.
Proof.
  intros Ha.
  assert (Hd : a - mean [a] = 0) by (rewrite mean_singleton; ring).
  assert (Hq : (a - mean [a]) ^ 2 = 0) by (rewrite Hd; ring).
  constructor.
  - apply summable_singleton, normal_bounded, Ha.
  - now rewrite mean_singleton.
  - constructor; [| constructor]. rewrite Hd. apply bounded_0.
  - constructor; [| constructor]. rewrite Hq. apply normal_0.
  - cbn [map]. rewrite Hq. apply summable_singleton, bounded_0.
  - rewrite variance_singleton. apply normal_0.
  - rewrite stddev_singleton, Rmult_0_r. apply normal_0.
  - rewrite stddev_singleton. unfold Rdiv. rewrite Rmult_0_r, Rmult_0_l.
    apply normal_0.
  - unfold lower95. rewrite stddev_singleton, mean_singleton.
    unfold Rdiv. rewrite Rmult_0_r, Rmult_0_l, Rminus_0_r.
    apply normal_bounded, Ha.
  - unfold upper95. rewrite stddev_singleton, mean_singleton.
    unfold Rdiv. rewrite Rmult_0_r, Rmult_0_l, Rplus_0_r.
    apply normal_bounded, Ha.
Qed.

(** ** One path of one step *)

Lemma one_step_valid : valid one_step.
Proof. constructor; simpl; lra || lia. Qed.

Lemma one_step_growth : / 3 <= growth one_step 0 <= 1.
Proof.
  unfold growth. cbn [one_step c_r c_sigma c_T c_M].
  replace ((0 - 0.5 * 1 ^ 2) * (1 / 1) + 1 * sqrt (1 / 1) * 0) with (- (0.5)) by lra.
  apply exp_neg_bounds. lra.
Qed.

Lemma one_step_paths :
  simulated_paths quiet_numpy one_step = [[8 * growth one_step 0]].
Proof. reflexivity. Qed.

Lemma one_step_discount : exp (- c_r one_step * c_T one_step) = 1.
Proof.
  rewrite <- exp_0. f_equal. cbn [one_step c_r c_T]. lra.
Qed.

Lemma one_step_arithmetic_payoff :
  arithmetic_payoff one_step [8 * growth one_step 0] = 8 * growth one_step 0 - 1.
Proof.
  pose proof one_step_growth as Hg.
  unfold arithmetic_payoff. rewrite one_step_discount.
  unfold arithmetic_average. rewrite mean_singleton.
  cbn [one_step c_kind c_strike payoff]. rewrite Rmax_left by lra. ring.
Qed.

Lemma one_step_sigsqT : sigsqT one_step = 1.
Proof. unfold sigsqT. cbn [one_step c_sigma c_T c_M]. field. Qed.

Lemma one_step_muT : muT one_step = 0.
Proof.
  unfold muT. rewrite one_step_sigsqT. cbn [one_step c_sigma c_T c_M c_r]. field.
Qed.

Lemma one_step_d1 : d1 one_step = ln 8 + 0.5.
Proof.
  unfold d1. rewrite one_step_sigsqT, one_step_muT, sqrt_1.
  cbn [one_step c_S0 c_strike]. replace (8 / 1) with 8 by field. field.
Qed.

Lemma one_step_d2 : d2 one_step = ln 8 - 0.5.
Proof. unfold d2. rewrite one_step_d1, one_step_sigsqT, sqrt_1. lra. Qed.

Lemma one_step_argument x :
  0.375 <= x <= 3.5 -> 0.1875 <= x / sqrt 2 <= 3.5.
Proof.
  intros [Hl Hu]. pose proof sqrt_2_bounds as [H1 H2].
  assert (Hi : / 2 <= / sqrt 2 <= 1).
  { split; [apply Rinv_le_contravar; lra |].
    rewrite <- Rinv_1. apply Rinv_le_contravar; lra. }
  unfold Rdiv. split; nra.
Qed.

Lemma one_step_N x : 0.375 <= x <= 3.5 -> 0.5 <= N x <= 4.
Proof.
  intros Hx. destruct (one_step_argument Hx) as [Hl Hu].
  assert (H0 : 0 <= x / sqrt 2) by lra.
  pose proof (erf_bounds H0) as [He1 He2].
  unfold N. lra.
Qed.

Lemma one_step_closed_form : 1 <= closed_form one_step <= 100.
Proof.
  pose proof ln_8_bounds as [Hl Hu].
  assert (H1 : 0.375 <= d1 one_step <= 3.5) by (rewrite one_step_d1; lra).
  assert (H2 : 0.375 <= d2 one_step <= 2.5) by (rewrite one_step_d2; lra).
  pose proof (one_step_N H1) as [N1l N1u].
  assert (N2u : N (d2 one_step) <= 3).
  { assert (H2' : 0.375 <= d2 one_step <= 3.5) by lra.
    destruct (one_step_argument H2') as [Al Au].
    assert (A : d2 one_step / sqrt 2 <= 2.5).
    { pose proof sqrt_2_bounds as [S1 S2].
      assert (Hi : 0 < / sqrt 2 <= 1).
      { split; [apply Rinv_0_lt_compat; lra |].
        rewrite <- Rinv_1. apply Rinv_le_contravar; lra. }
      unfold Rdiv. nra. }
    assert (H0 : 0 <= d2 one_step / sqrt 2) by lra.
    pose proof (erf_bounds H0) as [He1 He2]. unfold N. lra. }
  assert (N2l : 0.5 <= N (d2 one_step)).
  { assert (H2' : 0.375 <= d2 one_step <= 3.5) by lra. apply (one_step_N H2'). }
  unfold closed_form. rewrite one_step_discount, one_step_muT, exp_0.
  cbn [one_step c_S0 c_strike]. lra.
Qed.

Ltac one_step_fields :=
  cbn [one_step c_kind c_S0 c_strike c_T c_M c_r c_div c_sigma c_simulations
       Z.add Z.mul Pos.add Pos.mul Pos.succ].

Ltac moderate :=
  first [ apply moderate_normal_pos; lra
        | apply moderate_normal_neg; lra
        | apply moderate_bounded_between; lra
        | left; lra ].

Lemma one_step_parameters : parameters_in_range one_step.
Proof.
  constructor; one_step_fields; try moderate.
  change (normal (exp (- c_r one_step * c_T one_step))).
  rewrite one_step_discount. apply normal_1.
Qed.

Lemma one_step_draw i t : Z_draw quiet_numpy one_step i t = 0.
Proof.
  unfold Z_draw, nth_gauss. cbn [quiet_numpy generator replay next_gauss fst].
  now destruct (rng_after _ _ _).
Qed.

Lemma one_step_drift : drift one_step = - (0.5).
Proof. unfold drift, sigma_sq. one_step_fields. lra. Qed.

Lemma one_step_vol : vol one_step = 1.
Proof.
  unfold vol. one_step_fields. replace (1 / 1) with 1 by lra.
  rewrite sqrt_1. lra.
Qed.

Lemma one_step_simulation : simulation_in_range quiet_numpy one_step.
Proof.
  pose proof one_step_growth as Hg.
  constructor.
  - reflexivity.
  - unfold sigma_sq. one_step_fields. moderate.
  - unfold sigma_sq. one_step_fields. moderate.
  - unfold sigma_sq. one_step_fields. moderate.
  - rewrite one_step_drift. apply normal_opp. moderate.
  - rewrite one_step_vol. apply normal_1.
  - intros i t Hi Ht. change (Z.to_nat (c_simulations one_step)) with 1%nat in Hi.
    change (Z.to_nat (c_M one_step)) with 1%nat in Ht.
    assert (i = 0%nat) as -> by lia. assert (t = 0%nat) as -> by lia.
    rewrite one_step_draw, one_step_drift, one_step_vol.
    repeat split.
    + moderate.
    + moderate.
    + moderate.
    + cbn [prodn]. rewrite one_step_draw. moderate.
    + cbn [S_path]. rewrite one_step_draw. one_step_fields. moderate.
Qed.

Lemma one_step_payoffs : payoffs_in_range quiet_numpy one_step.
Proof.
  pose proof one_step_growth as Hg.
  constructor. intros path Hp. rewrite one_step_paths in Hp.
  destruct Hp as [<- | []].
  rewrite one_step_arithmetic_payoff.
  unfold arithmetic_average. rewrite mean_singleton. one_step_fields.
  repeat split.
  - apply summable_singleton. moderate.
  - moderate.
  - moderate.
  - moderate.
Qed.

Lemma one_step_plain : plain_in_range quiet_numpy one_step.
Proof.
  pose proof one_step_growth as Hg.
  constructor.
  - exact one_step_parameters.
  - exact one_step_simulation.
  - exact one_step_payoffs.
  - unfold arithmetic_payoffs. rewrite one_step_paths. cbn [map].
    change (c_simulations one_step) with 1%Z.
    apply estimate_in_range_singleton.
    rewrite one_step_arithmetic_payoff. moderate.
Qed.

Lemma one_step_analytic : analytic_in_range one_step.
Proof.
  pose proof ln_8_bounds as [Hl Hu].
  pose proof one_step_closed_form as [Hc1 Hc2].
  assert (H1 : 0.375 <= d1 one_step <= 3.5) by (rewrite one_step_d1; lra).
  assert (H2 : 0.375 <= d2 one_step <= 3.5) by (rewrite one_step_d2; lra).
  destruct (one_step_argument H1) as [A1l A1u].
  destruct (one_step_argument H2) as [A2l A2u].
  assert (H01 : 0 <= d1 one_step / sqrt 2) by lra.
  assert (H02 : 0 <= d2 one_step / sqrt 2) by lra.
  pose proof (erf_bounds H01) as [E1l E1u].
  pose proof (erf_bounds H02) as [E2l E2u].
  pose proof (one_step_N H1) as [N1l N1u].
  pose proof (one_step_N H2) as [N2l N2u].
  assert (HN2 : c_strike one_step * N (d2 one_step)
                <= c_S0 one_step * exp (muT one_step) * N (d1 one_step) - 1).
  { unfold closed_form in Hc1. rewrite one_step_discount in Hc1. lra. }
  rewrite one_step_muT, exp_0 in HN2.
  constructor;
    rewrite ?one_step_sigsqT, ?one_step_muT, ?exp_0; unfold sigma_sq;
    one_step_fields; try moderate.
  replace (8 / 1) with 8 by lra. moderate.
Qed.

Lemma one_step_geometric_payoff :
  geometric_payoff one_step [8 * growth one_step 0] = 8 * growth one_step 0 - 1.
Proof.
  rewrite <- one_step_arithmetic_payoff.
  apply (@one_step_payoffs_agree quiet_numpy one_step); try reflexivity.
  - cbn [one_step c_S0]. lra.
  - rewrite one_step_paths. now left.
Qed.

Lemma one_step_control_variate : control_variate_in_range quiet_numpy one_step.
Proof.
  pose proof one_step_growth as Hg.
  pose proof one_step_closed_form as [Hc1 Hc2].
  assert (Hp : 2 <= 8 * growth one_step 0 <= 8) by lra.
  assert (Hln : 0.5 <= ln (8 * growth one_step 0) <= 7).
  { split.
    - pose proof (@ln_lower (8 * growth one_step 0)) as H.
      assert (/ (8 * growth one_step 0) <= / 2)
        by (apply Rinv_le_contravar; lra).
      lra.
    - pose proof (@ln_upper (8 * growth one_step 0)). lra. }
  constructor.
  - one_step_fields. moderate.
  - intros path Hpath. rewrite one_step_paths in Hpath.
    destruct Hpath as [<- | []].
    rewrite one_step_geometric_payoff, one_step_arithmetic_payoff.
    assert (Hgeo : geometric_average one_step [8 * growth one_step 0]
                   = 8 * growth one_step 0).
    { unfold geometric_average. cbn [map Rsum fold_right]. one_step_fields.
      replace (1 / 1 * (ln (8 * growth one_step 0) + 0))
        with (ln (8 * growth one_step 0)) by lra.
      apply exp_ln. lra. }
    rewrite Hgeo. cbn [map Rsum fold_right]. one_step_fields.
    repeat split.
    + apply summable_singleton. moderate.
    + moderate.
    + moderate.
    + moderate.
    + moderate.
    + moderate.
    + moderate.
Qed.

Lemma one_step_corrected : corrected_in_range quiet_numpy one_step.
Proof.
  pose proof one_step_closed_form as [Hc1 Hc2].
  constructor.
  - exact one_step_parameters.
  - exact one_step_simulation.
  - exact one_step_payoffs.
  - exact one_step_analytic.
  - exact one_step_control_variate.
  - unfold corrected_values_R. rewrite one_step_paths. cbn [map].
    change (c_simulations one_step) with 1%Z.
    apply estimate_in_range_singleton.
    rewrite one_step_geometric_payoff, one_step_arithmetic_payoff. moderate.
Qed.

(** ** A valid contract whose price exceeds the range *)

Lemma overflowing_valid : valid overflowing.
Proof.
  constructor; cbn [overflowing c_S0 c_strike c_T c_M c_r c_div c_sigma c_simulations];
    try lra; try lia.
Qed.

Lemma overflowing_S0 : normal (IZR (2 ^ 1023)).
Proof.
  right. rewrite Rabs_right by (apply Rle_ge, IZR_le; now vm_compute). split.
  - eapply Rlt_trans; [apply underflow_threshold_small |].
    eapply Rlt_le_trans with 1.
    + rewrite <- Rinv_1. apply Rinv_lt_contravar; lra.
    + apply IZR_le. now vm_compute.
  - unfold overflow_threshold. apply IZR_lt. now vm_compute.
Qed.

Lemma overflowing_parameters : parameters_in_range overflowing.
Proof.
  pose proof (@exp_neg_bounds (- (1))) as He.
  constructor; cbn [overflowing c_S0 c_strike c_T c_M c_r c_div c_sigma];
    try moderate.
  - exact overflowing_S0.
  - replace (- (1) * 1) with (- (1)) by lra. moderate.
Qed.

Lemma round_overflow x : overflow_threshold <= x -> F64.round x = PInf.
Proof.
  intros H. pose proof overflow_threshold_large as Hl.
  unfold F64.round. rewrite overflows_true by (rewrite Rabs_right; lra).
  unfold F.inf_of_sign. now rewrite Rlt_b_true by lra.
Qed.

Lemma overflowing_price :
  F64.mul (Fin (IZR (2 ^ 1023))) (Fin (exp 1)) = PInf.
Proof.
  unfold F64.mul. cbn [F.mul F64.clip]. apply round_overflow.
  pose proof exp_1_ge_2 as He.
  assert (H : overflow_threshold <= IZR (2 ^ 1023) * 2).
  { unfold overflow_threshold. rewrite <- mult_IZR. apply IZR_le. now vm_compute. }
  assert (0 <= IZR (2 ^ 1023)) by (apply IZR_le; now vm_compute).
  nra.
Qed.

Lemma price_path64_overflowing (N : Numpy) (s : rng N) :
  refused N 1 1 = None ->
  Float64.price_path N (instance_of overflowing) s
  = (Ok [[PInf]], rng_final N overflowing).
Proof.
  intros Hcreated.
  unfold Float64.price_path, bind, modify, attr, lift, ret, instance_of, getattr.
  cbn [S0 r sigma time_unit simulations M overflowing
       c_S0 c_r c_sigma c_T c_M c_simulations].
  rewrite F64_pow2_fin by moderate.
  unfold Float64.np_random_randn. cbn [Z.ltb Z.compare orb]. rewrite Hcreated.
  change (Z.to_nat 1) with 1%nat. cbn [draw_rows draws].
  destruct (next_gauss (np_random_seed N seed)) as [z s1] eqn:E.
  unfold rng_final. cbn [overflowing c_simulations c_M].
  change (Z.to_nat 1) with 1%nat. cbn [Nat.mul Nat.add rng_after]. rewrite E.
  cbn [snd]. f_equal. f_equal.
  rewrite (@F64_mul_fin 0.5 _) by moderate.
  rewrite (@F64_sub_fin 1 _) by moderate.
  rewrite (@F64_mul_fin (1 - 0.5 * (0 * 0)) _) by moderate.
  rewrite F64_sqrt_fin by lra.
  rewrite (@F64_mul_fin 0 _) by (left; ring).
  cbn [map].
  rewrite (@F64_mul_fin (0 * sqrt (1 / 1)) z) by (left; ring).
  rewrite F64_add_fin by (apply moderate_bounded_between; nra).
  replace ((1 - 0.5 * (0 * 0)) * (1 / 1) + 0 * sqrt (1 / 1) * z) with 1 by (field).
  rewrite F64_exp_fin
    by (pose proof exp_1_ge_2; pose proof exp_le_3; moderate).
  cbn [Float64.np_cumprod Float64.scan_mul map].
  now rewrite overflowing_price.
Qed.

Lemma np_mean64_PInf : Float64.np_mean [PInf] = PInf.
Proof.
  unfold Float64.np_mean, Float64.np_sum, F64.div, F64.add, of_nat.
  cbn [fold_right length INR F.add F64.clip_sum F.div].
  now rewrite Rlt_b_false by lra.
Qed.

Lemma np_mean64_NaN : Float64.np_mean [NaN] = NaN.
Proof. reflexivity. Qed.

Lemma np_std64_PInf : Float64.np_std [PInf] = NaN.
Proof.
  unfold Float64.np_std. rewrite np_mean64_PInf. cbn [map].
  change (F64.sub PInf PInf) with NaN. change (F64.mul NaN NaN) with NaN.
  now rewrite np_mean64_NaN.
Qed.

Lemma value64_overflowing (N : Numpy) (s : rng N) :
  refused N 1 1 = None ->
  fst (Float64.value N (instance_of overflowing) s) = Ok (PInf, NaN, NaN).
Proof.
  intros Hcreated.
  assert (Hd : 0 < exp (- c_r overflowing * c_T overflowing)) by apply exp_pos.
  assert (HP : forall s' : rng N,
    Float64.MCPayoff N (instance_of overflowing) s'
    = (Ok [PInf], rng_final N overflowing)).
  { intros s'. unfold Float64.MCPayoff, bind, attr, lift, getattr, ret.
    cbn [instance_of option_type discount strike overflowing c_kind kind_name
         py_eq_str py_ne_str String.eqb Ascii.eqb Bool.eqb negb andb].
    rewrite (@price_path64_overflowing N s' Hcreated).
    cbn [map Float64.call_payoffs]. rewrite np_mean64_PInf.
    change (F64.sub PInf (Fin (c_strike overflowing))) with PInf.
    change (F64.maximum PInf (Fin 0)) with PInf.
    unfold F64.mul. cbn [F.mul F64.clip].
    unfold F.inf_of_sign. now rewrite Rlt_b_true by exact Hd. }
  unfold Float64.value, bind. rewrite !HP.
  unfold attr, lift, getattr, ret. cbn [instance_of simulations fst].
  unfold Float64.upper_bound, Float64.lower_bound.
  rewrite np_mean64_PInf, np_std64_PInf.
  reflexivity.
Qed.

(** ** The constructor over the range of float64, whatever the arguments *)

Lemma overflows_false_inv x : overflows x = false -> bounded x.
Proof.
  unfold overflows, bounded, Rle_b.
  destruct (Rle_dec overflow_threshold (Rabs x)); [discriminate | lra].
Qed.

Section ArbitraryArguments64.

Variable float_of_str : string -> option float64.
Variable int_of_str : string -> option Z.

(** [float] of a number returns it, or raises [OverflowError]. *)
Lemma py_float64_number v :
  is_number v = true ->
  (convertible v /\ Float64.py_float float_of_str v = Ok (float_value v))
  \/ Float64.py_float float_of_str v = Raise OverflowError.
Proof.
  destruct v as [t | n | x |]; cbn [is_number]; intros H; try discriminate.
  - cbn [Float64.py_float convertible float_value]. unfold float_of_int.
    destruct (overflows (IZR n)) eqn:E; [now right | left].
    split; [apply overflows_false_inv, E | reflexivity].
  - left. split; [exact I | reflexivity].
Qed.

Lemma py_float64_convertible v :
  is_number v = true -> convertible v ->
  Float64.py_float float_of_str v = Ok (float_value v).
Proof.
  destruct v as [t | n | x |]; cbn [is_number convertible]; intros H Hc;
    try discriminate; try contradiction; [| reflexivity].
  cbn [Float64.py_float float_value]. now rewrite float_of_int_fin.
Qed.

Lemma convertible_number v : convertible v -> is_number v = true.
Proof. destruct v; cbn; intros H; try contradiction; reflexivity. Qed.

Variables (ot vS0 vK vT vM vr vdiv vsig vn : pyval).
Hypothesis Hstr : isinstance_str ot = true.
Hypothesis HS0 : is_number vS0 = true.
Hypothesis HK : is_number vK = true.
Hypothesis HT : is_number vT = true.
Hypothesis Hr : is_number vr = true.
Hypothesis Hdiv : is_number vdiv = true.
Hypothesis Hsig : is_number vsig = true.

(** The [try] block when the option type is a string and the six floats
    are numbers: a conversion to [float] overflows, or the six succeed and
    only the two integer coercions can fail. *)
Lemma coerce64_numbers :
  (exists st,
     Float64.coerce float_of_str int_of_str ot vS0 vK vT vM vr vdiv vsig vn (blank, [])
     = (Raise OverflowError, st))
  \/ (exists e st,
        py_int int_of_str vM = Raise e
        /\ Float64.coerce float_of_str int_of_str ot vS0 vK vT vM vr vdiv vsig vn
             (blank, [])
           = (Raise e, st)
        /\ M (fst st) = None /\ snd st = [])
  \/ (convertible vS0 /\ convertible vK /\ convertible vT /\ convertible vr
      /\ convertible vdiv /\ convertible vsig
      /\ exists m, py_int int_of_str vM = Ok m
         /\ Float64.coerce float_of_str int_of_str ot vS0 vK vT vM vr vdiv vsig vn
              (blank, [])
            = match py_int int_of_str vn with
              | Raise e =>
                  (Raise e,
                   (assigned ot (float_value vS0) (float_value vK) (float_value vT) m
                      (float_value vr) (float_value vdiv) (float_value vsig) None, []))
              | Ok n =>
                  (Ok tt,
                   (assigned ot (float_value vS0) (float_value vK) (float_value vT) m
                      (float_value vr) (float_value vdiv) (float_value vsig) (Some n),
                    []))
              end).
Proof.
  unfold Float64.coerce, bind, setattr, modify, py_assert, lift, ret.
  rewrite Hstr. cbn [fst snd].
  destruct (py_float64_number vS0 HS0) as [[C1 ->] | ->]; [| left; eexists; reflexivity].
  destruct (py_float64_number vK HK) as [[C2 ->] | ->]; [| left; eexists; reflexivity].
  destruct (py_float64_number vT HT) as [[C3 ->] | ->]; [| left; eexists; reflexivity].
  destruct (py_int int_of_str vM) as [m | e];
    [| right; left; do 2 eexists; repeat split; reflexivity].
  destruct (py_float64_number vr Hr) as [[C4 ->] | ->]; [| left; eexists; reflexivity].
  destruct (py_float64_number vdiv Hdiv) as [[C5 ->] | ->]; [| left; eexists; reflexivity].
  destruct (py_float64_number vsig Hsig) as [[C6 ->] | ->]; [| left; eexists; reflexivity].
  right; right. repeat (split; [assumption |]).
  exists m. split; [reflexivity |].
  destruct (py_int int_of_str vn) as [n | e]; reflexivity.
Qed.

End ArbitraryArguments64.

Section ConstructorInversion64.

Variable float_of_str : string -> option float64.
Variable int_of_str : string -> option Z.
Variables (ot vS0 vK vT vM vr vdiv vsig vn : pyval).

Lemma derived64_assigned m sim out u s' :
  Float64.derived
    (assigned ot (float_value vS0) (float_value vK) (float_value vT) m
       (float_value vr) (float_value vdiv) (float_value vsig) sim, out)
  = (Ok u, s') ->
  m <> 0%Z /\ bounded (IZR m)
  /\ s' = (constructed64 ot vS0 vK vT vr vdiv vsig m sim, out).
Proof.
  unfold Float64.derived, bind, self_attr, getattr, lift, setattr, modify,
    float_of_int, truediv.
  cbn [assigned T M r fst snd].
  destruct (overflows (IZR m)) eqn:Eo; [discriminate |].
  destruct (Req_b (IZR m) 0) eqn:E; [discriminate |].
  cbn [assigned set_time_unit set_discount T M r S0 strike option_type div sigma
         simulations time_unit discount fst snd].
  intros H. inversion H; subst. split; [| split; [| reflexivity]].
  - intros ->. rewrite Req_b_true in E by reflexivity. discriminate.
  - apply overflows_false_inv, Eo.
Qed.

Lemma derived64_missing_M self out :
  M self = None -> exists st, Float64.derived (self, out) = (Raise AttributeError, st).
Proof.
  intros H. unfold Float64.derived, bind, self_attr, getattr, lift.
  cbn [fst snd]. rewrite H.
  destruct (T self); eexists; reflexivity.
Qed.

Lemma init64_ok_inv out o :
  Float64.__init__ float_of_str int_of_str ot vS0 vK vT vM vr vdiv vsig vn = (out, Ok o) ->
  (ot = PyStr "call" \/ ot = PyStr "put")
  /\ (py_lt0 vS0 = Ok false /\ py_lt0 vK = Ok false /\ py_le0 vT = Ok false
      /\ py_lt0 vr = Ok false /\ py_lt0 vdiv = Ok false /\ py_lt0 vsig = Ok false)
  /\ (convertible vS0 /\ convertible vK /\ convertible vT /\ convertible vr
      /\ convertible vdiv /\ convertible vsig)
  /\ exists (m : Z) (sim : option Z),
       py_int int_of_str vM = Ok m /\ m <> 0%Z /\ bounded (IZR m)
       /\ o = constructed64 ot vS0 vK vT vr vdiv vsig m sim
       /\ ((exists n, py_int int_of_str vn = Ok n /\ sim = Some n /\ out = [])
           \/ (exists msg, py_int int_of_str vn = Raise (ValueError msg)
               /\ sim = None /\ out = [error_passing])).
Proof.
  unfold Float64.__init__.
  destruct (Float64.init_body _ _ _ _ _ _ _ _ _ _ _ (blank, []))
    as [[u | e] [self out']] eqn:E;
    intros H; inversion H; subst; clear H.
  unfold Float64.init_body in E.
  apply bind_ok_inv in E. destruct E as (a1 & s1 & Htry & E).
  apply bind_ok_inv in E. destruct E as (a2 & s2 & Hchk & Hder).
  apply checks_ok_inv in Hchk. destruct Hchk as (-> & Hot & Hb).
  pose proof (out_of_bounds_false _ _ _ _ _ _ Hb) as (B1 & B2 & B3 & B4 & B5 & B6).
  split; [exact Hot |]. split; [repeat split; assumption |].
  assert (Hstr : isinstance_str ot = true) by (destruct Hot as [-> | ->]; reflexivity).
  unfold try_except_ValueError in Htry.
  destruct (@coerce64_numbers float_of_str int_of_str ot vS0 vK vT vM vr vdiv vsig vn Hstr
              (py_lt0_number _ B1) (py_lt0_number _ B2) (py_le0_number _ B3)
              (py_lt0_number _ B4) (py_lt0_number _ B5) (py_lt0_number _ B6))
    as [[st Hc] | [(e & st & HM & Hc & HMn & Hout) | (C1 & C2 & C3 & C4 & C5 & C6 & m & HM & Hc)]];
    rewrite Hc in Htry.
  - discriminate Htry.
  - destruct e; try discriminate Htry.
    unfold print, modify in Htry. cbn [fst snd] in Htry.
    inversion Htry; subst.
    destruct (@derived64_missing_M (fst st) (snd st ++ [error_passing]) HMn) as [st' Hd].
    rewrite Hd in Hder. discriminate Hder.
  - split; [repeat split; assumption |].
    destruct (py_int int_of_str vn) as [n | e].
    + inversion Htry; subst. apply derived64_assigned in Hder.
      destruct Hder as (Hm & Hb' & Hs).
      inversion Hs; subst. exists m, (Some n). repeat split; try assumption.
      left. now exists n.
    + destruct e; try discriminate Htry.
      unfold print, modify in Htry. cbn [fst snd app] in Htry.
      inversion Htry; subst. apply derived64_assigned in Hder.
      destruct Hder as (Hm & Hb' & Hs).
      inversion Hs; subst. exists m, None. repeat split; try assumption.
      right. now exists msg.
Qed.

End ConstructorInversion64.

(** ** A coercion failure on the last argument, over the range of float64 *)

Section BadSimulations64.

Variable float_of_str : string -> option float64.
Variable int_of_str : string -> option Z.

Variables (k : kind) (vS0 vK vT vM vr vdiv vsig : pyval) (t : string).
Variables (xS0 xK xT : R) (m : Z) (xr xdiv xsig : R).
Hypothesis HS0 : float_argument vS0 xS0.
Hypothesis HK : float_argument vK xK.
Hypothesis HT : float_argument vT xT.
Hypothesis HM : integral vM m.
Hypothesis Hr : float_argument vr xr.
Hypothesis Hdiv : float_argument vdiv xdiv.
Hypothesis Hsig : float_argument vsig xsig.
Hypothesis Ht : int_of_str t = None.

Lemma coerce64_bad_simulations :
  Float64.coerce float_of_str int_of_str (PyStr (kind_name k)) vS0 vK vT vM vr vdiv vsig
    (PyStr t) (blank, [])
  = (Raise (ValueError could_not_convert),
     (without_simulations k xS0 xK xT m xr xdiv xsig, [])).
Proof.
  unfold Float64.coerce, bind, setattr, modify, py_assert, lift, ret.
  cbn [isinstance_str fst snd].
  rewrite (py_float64_argument float_of_str HS0), (py_float64_argument float_of_str HK),
    (py_float64_argument float_of_str HT), (py_int_integral int_of_str HM),
    (py_float64_argument float_of_str Hr), (py_float64_argument float_of_str Hdiv),
    (py_float64_argument float_of_str Hsig).
  cbn [py_int]. rewrite Ht. reflexivity.
Qed.

Lemma init64_bad_simulations :
  0 <= xS0 -> 0 <= xK -> 0 < xT -> 0 <= xr -> 0 <= xdiv -> 0 <= xsig ->
  m <> 0%Z -> bounded (IZR m) ->
  Float64.__init__ float_of_str int_of_str (PyStr (kind_name k)) vS0 vK vT vM vr vdiv
    vsig (PyStr t)
  = ([error_passing], Ok (built k xS0 xK xT m xr xdiv xsig None)).
Proof.
  intros B1 B2 B3 B4 B5 B6 Bm Bb.
  rewrite (init64_after_caught _ _ _ _ _ _ _ _ _ _ _ coerce64_bad_simulations).
  rewrite (@after_try64 (kind_name k) vS0 vK vT vr vdiv vsig xS0 xK xT m xr xdiv xsig
             HS0 HK HT Hr Hdiv Hsig (without_simulations k xS0 xK xT m xr xdiv xsig)
             [error_passing] eq_refl eq_refl eq_refl).
  replace (negb (String.eqb (kind_name k) "call") && negb (String.eqb (kind_name k) "put"))
    with false by (destruct k; reflexivity).
  rewrite !Rlt_b_false, Rle_b_false by lra. cbn [orb].
  rewrite (overflows_false Bb).
  rewrite Req_b_false by (apply not_0_IZR, Bm).
  reflexivity.
Qed.

End BadSimulations64.

(** ** The outcome of the analytic value on any object with its attributes *)

Section AnalyticOutcome64.

Variables (xsig xT xr xS0 xK disc : float64) (m : Z).
Variable self : AsianOptionMC.
Hypothesis Hsigma : sigma self = Some xsig.
Hypothesis HT : T self = Some xT.
Hypothesis HM : M self = Some m.
Hypothesis Hr : r self = Some xr.
Hypothesis HS0 : S0 self = Some xS0.
Hypothesis HK : strike self = Some xK.
Hypothesis Hdisc : discount self = Some disc.

Lemma float_of_int_cases n :
  (overflows (IZR n) = true /\ float_of_int n = Raise OverflowError)
  \/ (overflows (IZR n) = false /\ float_of_int n = Ok (Fin (IZR n))).
Proof. unfold float_of_int. destruct (overflows (IZR n)); [left | right]; now split. Qed.

Lemma truediv_int a n :
  n <> 0%Z -> truediv a (Fin (IZR n)) = Ok (F64.div a (Fin (IZR n))).
Proof.
  intros H. unfold truediv. now rewrite Req_b_false by (apply not_0_IZR, H).
Qed.

Lemma truediv_cases a b :
  (b = Fin 0 /\ truediv a b = Raise ZeroDivisionError)
  \/ (b <> Fin 0 /\ truediv a b = Ok (F64.div a b)).
Proof.
  destruct b as [y | | |]; try (right; split; [discriminate | reflexivity]).
  unfold truediv. destruct (Req_dec_T y 0) as [-> | E].
  - left. now rewrite Req_b_true.
  - right. rewrite Req_b_false by exact E. split; [congruence | reflexivity].
Qed.

Lemma overflows_abs_le x y : Rabs x <= Rabs y -> overflows y = false -> overflows x = false.
Proof.
  intros Hle Hy. apply overflows_false. apply overflows_false_inv in Hy.
  unfold bounded in *. lra.
Qed.

Lemma overflows_steps :
  m <> 0%Z -> overflows (IZR (6 * m * m)) = false -> overflows (IZR (2 * m)) = false.
Proof.
  intros Hm. apply overflows_abs_le. rewrite <- !abs_IZR. apply IZR_le. nia.
Qed.

(** The first exception is that of the first failing step of the source
    line: the square, the conversions of [M + 1], [2 M + 1] and [6 M M],
    the division by [6 M M], and the division [S0 / strike]. *)
Lemma GeometricAsianOption64_square e :
  F64.pow2 xsig = Raise e -> Float64.GeometricAsianOption self = Raise e.
Proof.
  intros Hq. unfold Float64.GeometricAsianOption, getattr.
  rewrite Hsigma. cbn [rbind]. now rewrite Hq.
Qed.

Lemma GeometricAsianOption64_steps q :
  F64.pow2 xsig = Ok q ->
  overflows (IZR (m + 1)) || overflows (IZR (2 * m + 1)) || overflows (IZR (6 * m * m))
  = true ->
  Float64.GeometricAsianOption self = Raise OverflowError.
Proof.
  intros Hq Ho. unfold Float64.GeometricAsianOption, getattr.
  rewrite Hsigma, HT, HM. cbn [rbind]. rewrite Hq. cbn [rbind].
  destruct (float_of_int_cases (m + 1)) as [[_ ->] | [O1 ->]]; [reflexivity |].
  destruct (float_of_int_cases (2 * m + 1)) as [[_ ->] | [O2 ->]]; [reflexivity |].
  destruct (float_of_int_cases (6 * m * m)) as [[_ ->] | [O3 ->]]; [reflexivity |].
  rewrite O1, O2, O3 in Ho. discriminate Ho.
Qed.

Lemma GeometricAsianOption64_no_step q :
  F64.pow2 xsig = Ok q -> m = 0%Z ->
  Float64.GeometricAsianOption self = Raise ZeroDivisionError.
Proof.
  intros Hq Hm. unfold Float64.GeometricAsianOption, getattr.
  rewrite Hsigma, HT, HM. cbn [rbind]. rewrite Hq. cbn [rbind]. subst m.
  cbn [Z.add Z.mul].
  rewrite !float_of_int_fin by (apply moderate_bounded; rewrite Rabs_right; lra).
  cbn [rbind]. now rewrite truediv_zero.
Qed.

Lemma GeometricAsianOption64_prefix q :
  F64.pow2 xsig = Ok q ->
  overflows (IZR (m + 1)) || overflows (IZR (2 * m + 1)) || overflows (IZR (6 * m * m))
  = false ->
  m <> 0%Z ->
  Float64.GeometricAsianOption self
  = (let sigsqT := F64.div (F64.mul (F64.mul (F64.mul q xT) (Fin (IZR (m + 1))))
                              (Fin (IZR (2 * m + 1))))
                     (Fin (IZR (6 * m * m))) in
     let muT := F64.add (F64.mul (Fin 0.5) sigsqT)
                  (F64.div (F64.mul (F64.mul (F64.sub xr (F64.mul (Fin 0.5) q)) xT)
                              (Fin (IZR (m + 1))))
                     (Fin (IZR (2 * m)))) in
     ratio <-- truediv xS0 xK ;;
     let d1 := F64.div (F64.add (F64.log ratio) (F64.add muT (F64.mul (Fin 0.5) sigsqT)))
                       (F64.sqrt sigsqT) in
     let d2 := F64.sub d1 (F64.sqrt sigsqT) in
     Ok (F64.mul disc
           (F64.sub (F64.mul (F64.mul xS0 (F64.exp muT)) (Float64.N_cdf d1))
                    (F64.mul xK (Float64.N_cdf d2))))).
Proof.
  intros Hq Ho Hm.
  apply orb_false_iff in Ho. destruct Ho as [Ho O3].
  apply orb_false_iff in Ho. destruct Ho as [O1 O2].
  pose proof (overflows_steps Hm O3) as O4.
  unfold Float64.GeometricAsianOption, getattr.
  rewrite Hsigma, HT, HM, Hr, HS0, HK, Hdisc. cbn [rbind]. rewrite Hq. cbn [rbind].
  unfold float_of_int. rewrite O1, O2, O3, O4. cbn [rbind].
  rewrite truediv_int by nia. cbn [rbind].
  rewrite truediv_int by lia. cbn [rbind].
  reflexivity.
Qed.

End AnalyticOutcome64.

(** ** Contracts on which a query fails or is not finite *)

Lemma small_int_bounded n : (Z.abs n <= 1000000000000)%Z -> bounded (IZR n).
Proof.
  intros H. apply moderate_bounded. rewrite <- abs_IZR.
  replace 1000000000000 with (IZR 1000000000000) by reflexivity.
  apply IZR_le, H.
Qed.

Lemma small_int_fits n : (Z.abs n <= 1000000000000)%Z -> overflows (IZR n) = false.
Proof. intros H. apply overflows_false, small_int_bounded, H. Qed.

Lemma F64_mul_0_l y : F64.mul (Fin 0) (Fin y) = Fin 0.
Proof. rewrite F64_mul_fin by (left; ring). f_equal. ring. Qed.

Lemma F64_mul_0_r x : F64.mul (Fin x) (Fin 0) = Fin 0.
Proof. rewrite F64_mul_fin by (left; ring). f_equal. ring. Qed.

Lemma F64_div_0_l y : y <> 0 -> F64.div (Fin 0) (Fin y) = Fin 0.
Proof.
  intros H. rewrite F64_div_fin by (exact H || (left; unfold Rdiv; ring)).
  f_equal. unfold Rdiv. ring.
Qed.

Lemma F64_add_0_0 : F64.add (Fin 0) (Fin 0) = Fin 0.
Proof. rewrite F64_add_fin by (rewrite Rplus_0_r; apply bounded_0). f_equal. ring. Qed.

Lemma F64_sub_0_0 : F64.sub (Fin 0) (Fin 0) = Fin 0.
Proof. rewrite F64_sub_fin by (rewrite Rminus_0_r; apply bounded_0). f_equal. ring. Qed.

Lemma F64_div_0_0 : F64.div (Fin 0) (Fin 0) = NaN.
Proof.
  unfold F64.div. cbn [F.div]. rewrite Req_b_true by reflexivity.
  unfold F.inf_of_sign. now rewrite !Rlt_b_false by lra.
Qed.

Lemma N_cdf64_NaN : Float64.N_cdf NaN = NaN.
Proof. unfold Float64.N_cdf. rewrite F64_sqrt_fin by lra. reflexivity. Qed.

Lemma F64_sub_NaN_l b : F64.sub NaN b = NaN.
Proof. now destruct b. Qed.

Lemma F64_sub_NaN_r a : F64.sub a NaN = NaN.
Proof. now destruct a. Qed.

Lemma F64_mul_NaN_r a : F64.mul a NaN = NaN.
Proof. now destruct a. Qed.

(** With one step, [S0 = strike], no interest and a volatility whose
    square is zero (the volatility is zero, or its square underflows) the
    analytic value is [0 / 0]. *)
Lemma GeometricAsianOption64_flat sg :
  F64.pow2 (Fin sg) = Ok (Fin 0) ->
  Float64.GeometricAsianOption (instance_of (mkContract call 1 1 1 1 0 0 sg 1)) = Ok NaN.
Proof.
  intros Hq.
  rewrite (@GeometricAsianOption64_prefix (Fin sg) (Fin 1) (Fin 0) (Fin 1) (Fin 1)
             (Fin (exp (- 0 * 1))) 1 (instance_of (mkContract call 1 1 1 1 0 0 sg 1))
             eq_refl eq_refl eq_refl eq_refl eq_refl eq_refl eq_refl (Fin 0) Hq);
    [| rewrite !small_int_fits by (cbn; lia); reflexivity | lia].
  cbn zeta.
  rewrite !F64_mul_0_l, !F64_mul_0_r, F64_sub_0_0, !F64_mul_0_l.
  rewrite !F64_div_0_l by (apply not_0_IZR; cbn; lia).
  rewrite !F64_mul_0_r, !F64_add_0_0.
  rewrite truediv_fin by (try lra; apply moderate_normal; rewrite Rabs_right; lra).
  cbn [rbind].
  replace (1 / 1) with 1 by field.
  rewrite F64_log_fin, ln_1 by lra.
  rewrite F64_sqrt_fin, sqrt_0 by lra.
  rewrite F64_add_0_0, F64_div_0_0.
  rewrite F64_sub_NaN_l, N_cdf64_NaN.
  repeat first [rewrite F64_mul_NaN_r | rewrite F64_sub_NaN_l].
  reflexivity.
Qed.

Lemma float_argument_float x : float_argument (PyFloat (Fin x)) x.
Proof. now left. Qed.

Lemma float_argument_int n : bounded (IZR n) -> float_argument (PyInt n) (IZR n).
Proof. intros H. right. now exists n. Qed.

(** A valid contract whose parameters are within the range is what the
    constructor builds from them. *)
Lemma init64_contract (float_of_str : string -> option float64)
  (int_of_str : string -> option Z) (c : Contract) :
  valid c -> parameters_in_range c ->
  Float64.__init__ float_of_str int_of_str (PyStr (kind_name (c_kind c)))
    (PyFloat (Fin (c_S0 c))) (PyFloat (Fin (c_strike c))) (PyFloat (Fin (c_T c)))
    (PyInt (c_M c)) (PyFloat (Fin (c_r c))) (PyFloat (Fin (c_div c)))
    (PyFloat (Fin (c_sigma c))) (PyInt (c_simulations c))
  = ([], Ok (instance_of c)).
Proof.
  intros Hv Hp. rewrite <- (built_in_range Hv Hp).
  destruct Hv as [B1 B2 B3 B4 B5 B6 B7 B8].
  apply (init64_in_bounds float_of_str int_of_str
           (float_argument_float (c_S0 c)) (float_argument_float (c_strike c))
           (float_argument_float (c_T c)) (integral_int (c_M c))
           (float_argument_float (c_r c)) (float_argument_float (c_div c))
           (float_argument_float (c_sigma c)) (integral_int (c_simulations c))
           (c_kind c) eq_refl); try assumption; try lia.
  apply (in_range_M Hp).
Qed.

Lemma exp_small_normal x : -1 <= x <= 0 -> normal (exp x).
Proof.
  intros H. pose proof (exp_neg_bounds H). apply moderate_normal_pos. lra.
Qed.

(** *** A strike of zero *)

Lemma zero_strike_parameters : parameters_in_range zero_strike.
Proof.
  constructor;
    cbn [zero_strike c_S0 c_strike c_T c_M c_r c_div c_sigma c_simulations];
    try moderate.
  apply exp_small_normal. lra.
Qed.

Lemma zero_strike_square : bounded (sigma_sq zero_strike).
Proof. unfold sigma_sq. cbn [zero_strike c_sigma]. moderate. Qed.

Lemma zero_strike_steps : bounded (IZR (6 * c_M zero_strike * c_M zero_strike)).
Proof. apply small_int_bounded. cbn. lia. Qed.

Lemma two_by_two_square K : bounded (sigma_sq (two_by_two_at K)).
Proof. unfold sigma_sq. cbn [two_by_two_at c_sigma]. moderate. Qed.

Lemma two_by_two_steps K :
  bounded (IZR (6 * c_M (two_by_two_at K) * c_M (two_by_two_at K))).
Proof. apply small_int_bounded. cbn. lia. Qed.

(** *** A volatility of zero, and one whose square underflows *)

Lemma zero_volatility_square : F64.pow2 (Fin 0) = Ok (Fin 0).
Proof. rewrite F64_pow2_fin by (left; ring). do 2 f_equal. ring. Qed.

Lemma zero_volatility_parameters : parameters_in_range zero_volatility.
Proof.
  constructor;
    cbn [zero_volatility c_S0 c_strike c_T c_M c_r c_div c_sigma c_simulations];
    try moderate.
  apply exp_small_normal. lra.
Qed.

Lemma GeometricAsianOption64_zero_volatility :
  Float64.GeometricAsianOption (instance_of zero_volatility) = Ok NaN.
Proof. exact (@GeometricAsianOption64_flat 0 zero_volatility_square). Qed.

Lemma tiny_volatility_pos : 0 < / IZR (2 ^ 600).
Proof. apply Rinv_0_lt_compat, IZR_lt. now vm_compute. Qed.

Lemma tiny_volatility_valid : valid tiny_volatility.
Proof.
  pose proof tiny_volatility_pos.
  constructor;
    cbn [tiny_volatility c_S0 c_strike c_T c_M c_r c_div c_sigma c_simulations];
    try lra; try lia.
Qed.

Lemma tiny_volatility_normal : normal (/ IZR (2 ^ 600)).
Proof.
  pose proof tiny_volatility_pos as Hp. right.
  rewrite Rabs_right by lra. split.
  - unfold underflow_threshold. apply Rinv_lt_contravar.
    + rewrite <- mult_IZR. apply IZR_lt. now vm_compute.
    + apply IZR_lt. now vm_compute.
  - assert (H : / IZR (2 ^ 600) <= / 1)
      by (apply Rinv_le_contravar; [lra | apply IZR_le; now vm_compute]).
    rewrite Rinv_1 in H. pose proof overflow_threshold_large. lra.
Qed.

Lemma tiny_volatility_parameters : parameters_in_range tiny_volatility.
Proof.
  constructor;
    cbn [tiny_volatility c_S0 c_strike c_T c_M c_r c_div c_sigma c_simulations];
    try moderate.
  - exact tiny_volatility_normal.
  - apply exp_small_normal. lra.
Qed.

Lemma tiny_volatility_square : F64.pow2 (Fin (/ IZR (2 ^ 600))) = Ok (Fin 0).
Proof.
  pose proof tiny_volatility_pos as Hp.
  assert (Hsq : / IZR (2 ^ 600) * / IZR (2 ^ 600) = / IZR (2 ^ 1200)).
  { rewrite <- Rinv_mult, <- mult_IZR. reflexivity. }
  assert (Hle : / IZR (2 ^ 1200) <= underflow_threshold).
  { unfold underflow_threshold. apply Rinv_le_contravar.
    - apply IZR_lt. now vm_compute.
    - apply IZR_le. now vm_compute. }
  assert (Hpos : 0 < / IZR (2 ^ 1200))
    by (apply Rinv_0_lt_compat, IZR_lt; now vm_compute).
  pose proof underflow_threshold_small as Hs. pose proof overflow_threshold_large as Hl.
  cbn [F64.pow2]. rewrite Hsq. unfold F64.round, overflows, underflows.
  rewrite Rabs_right by lra.
  rewrite Rle_b_false by lra. now rewrite Rle_b_true by lra.
Qed.

Lemma GeometricAsianOption64_tiny_volatility :
  Float64.GeometricAsianOption (instance_of tiny_volatility) = Ok NaN.
Proof. exact (@GeometricAsianOption64_flat _ tiny_volatility_square). Qed.

(** *** A volatility whose square overflows *)

Lemma huge_volatility_pos : 1 <= IZR (2 ^ 600).
Proof. apply IZR_le. now vm_compute. Qed.

Lemma huge_volatility_valid : valid huge_volatility.
Proof.
  pose proof huge_volatility_pos.
  constructor;
    cbn [huge_volatility c_S0 c_strike c_T c_M c_r c_div c_sigma c_simulations];
    try lra; try lia.
Qed.

Lemma huge_volatility_normal : normal (IZR (2 ^ 600)).
Proof.
  pose proof huge_volatility_pos as Hp. right.
  rewrite Rabs_right by lra. split.
  - pose proof underflow_threshold_small. lra.
  - unfold overflow_threshold. apply IZR_lt. now vm_compute.
Qed.

Lemma huge_volatility_parameters : parameters_in_range huge_volatility.
Proof.
  constructor;
    cbn [huge_volatility c_S0 c_strike c_T c_M c_r c_div c_sigma c_simulations];
    try moderate.
  - exact huge_volatility_normal.
  - apply exp_small_normal. lra.
Qed.

Lemma huge_volatility_square : F64.pow2 (Fin (IZR (2 ^ 600))) = Raise OverflowError.
Proof.
  cbn [F64.pow2]. rewrite overflows_true; [reflexivity |].
  rewrite <- mult_IZR, <- abs_IZR. unfold overflow_threshold.
  apply IZR_le. now vm_compute.
Qed.

Lemma GeometricAsianOption64_huge_volatility :
  Float64.GeometricAsianOption (instance_of huge_volatility) = Raise OverflowError.
Proof.
  apply (@GeometricAsianOption64_square (Fin (IZR (2 ^ 600)))
           (instance_of huge_volatility) eq_refl OverflowError huge_volatility_square).
Qed.

Lemma price_path64_huge_volatility (N : Numpy) (s : rng N) :
  Float64.price_path N (instance_of huge_volatility) s
  = (Raise OverflowError, np_random_seed N seed).
Proof.
  unfold Float64.price_path, bind, modify, attr, lift, ret, instance_of, getattr.
  cbn [S0 r sigma huge_volatility c_S0 c_r c_sigma fst snd].
  now rewrite huge_volatility_square.
Qed.

Lemma MCPayoff64_huge_volatility (N : Numpy) (s : rng N) :
  Float64.MCPayoff N (instance_of huge_volatility) s
  = (Raise OverflowError, np_random_seed N seed).
Proof.
  unfold Float64.MCPayoff, bind, attr, lift, getattr.
  change (option_type (instance_of huge_volatility)) with (Some (PyStr "call")).
  change (discount (instance_of huge_volatility)) with (Some (Fin (exp (- 0 * 1)))).
  cbv iota beta.
  replace (py_eq_str (PyStr "call") "call") with true by reflexivity. cbv iota beta.
  now rewrite price_path64_huge_volatility.
Qed.

Lemma value64_huge_volatility (N : Numpy) (s : rng N) :
  fst (Float64.value N (instance_of huge_volatility) s) = Raise OverflowError.
Proof. unfold Float64.value, bind. now rewrite MCPayoff64_huge_volatility. Qed.

Lemma value_with_control_variate64_huge_volatility (N : Numpy) (s : rng N) :
  fst (Float64.value_with_control_variate N (instance_of huge_volatility) s)
  = Raise OverflowError.
Proof.
  unfold Float64.value_with_control_variate, bind.
  unfold attr at 1, lift at 1, getattr at 1.
  change (M (instance_of huge_volatility)) with (Some 1%Z). cbv iota beta.
  unfold lift at 1. rewrite float_of_int_fin by (apply small_int_bounded; cbn; lia).
  unfold lift at 1, truediv. rewrite Req_b_false by lra.
  now rewrite price_path64_huge_volatility.
Qed.

(** *** A negative number of steps *)

Lemma price_path64_negative_steps (N : Numpy) (s : rng N) :
  fst (Float64.price_path N (built call 4 4 1 (-5) 0.03 0 0.25 (Some 0%Z)) s)
  = Raise (ValueError negative_dimensions).
Proof.
  unfold Float64.price_path, bind, modify, attr, lift, ret, built, getattr.
  cbn [S0 r sigma time_unit simulations M fst snd].
  rewrite F64_pow2_fin by moderate. reflexivity.
Qed.

(** *** The contract of the docstring *)

Lemma docstring_parameters : parameters_in_range docstring_contract.
Proof.
  constructor;
    cbn [docstring_contract c_S0 c_strike c_T c_M c_r c_div c_sigma c_simulations];
    try moderate.
  apply exp_small_normal. lra.
Qed.

Lemma built_docstring (n : option Z) :
  built call 4 4 1 100 0.03 0 0.25 n
  = mkAsianOptionMC (Some (PyStr "call")) (Some (Fin 4)) (Some (Fin 4)) (Some (Fin 1))
      (Some 100%Z) (Some (Fin 0.03)) (Some (Fin 0)) (Some (Fin 0.25)) n
      (Some (Fin (1 / 100))) (Some (Fin (exp (- (0.03) * 1)))).
Proof.
  unfold built. cbn [kind_name].
  rewrite F64_div_fin by (try lra; moderate).
  rewrite F64_mul_fin by moderate.
  rewrite F64_exp_fin by (apply exp_small_normal; lra).
  reflexivity.
Qed.

(** ** The width of the interval and the variance *)

Lemma width_le_inv xs ys n :
  (0 < n)%Z ->
  upper95 xs n - lower95 xs n <= upper95 ys n - lower95 ys n ->
  variance xs <= variance ys.
Proof.
  intros Hn Hw. destruct (Rle_dec (variance xs) (variance ys)) as [H | H]; [exact H |].
  apply Rnot_le_lt in H. pose proof (@width_lt ys xs n Hn H). lra.
Qed.

(** *** The contract without volatility within the range *)

Lemma zero_volatility_growth z : growth zero_volatility z = 1.
Proof.
  unfold growth. cbn [zero_volatility c_r c_sigma c_T c_M].
  rewrite <- exp_0. f_equal. ring.
Qed.

Lemma zero_volatility_paths (G : Generator) :
  simulated_paths G zero_volatility = [[1]].
Proof.
  unfold simulated_paths.
  change (Z.to_nat (c_simulations zero_volatility)) with 1%nat.
  change (Z.to_nat (c_M zero_volatility)) with 1%nat.
  cbn [seq map S_path]. rewrite zero_volatility_growth.
  cbn [zero_volatility c_S0]. do 2 f_equal. ring.
Qed.

Lemma zero_volatility_arithmetic_payoff : arithmetic_payoff zero_volatility [1] = 0.
Proof.
  unfold arithmetic_payoff, arithmetic_average. rewrite mean_singleton.
  cbn [zero_volatility c_kind c_strike payoff]. rewrite Rmax_right by lra. ring.
Qed.

Lemma zero_volatility_simulation (N : Numpy) :
  refused N 1 1 = None -> simulation_in_range N zero_volatility.
Proof.
  intros Hc.
  assert (Hd : drift zero_volatility = 0).
  { unfold drift, sigma_sq. cbn [zero_volatility c_r c_sigma c_T c_M]. lra. }
  assert (Hvol : vol zero_volatility = 0).
  { unfold vol. cbn [zero_volatility c_sigma]. ring. }
  constructor.
  - exact Hc.
  - unfold sigma_sq. cbn [zero_volatility c_sigma]. left. ring.
  - unfold sigma_sq. cbn [zero_volatility c_sigma]. left. ring.
  - unfold sigma_sq. cbn [zero_volatility c_sigma c_r]. apply moderate_bounded_between. lra.
  - rewrite Hd. apply normal_0.
  - rewrite Hvol. apply normal_0.
  - intros i t Hi Ht. rewrite Hd, Hvol, zero_volatility_growth.
    change (Z.to_nat (c_M zero_volatility)) with 1%nat in Ht.
    assert (t = 0%nat) as -> by lia.
    repeat split.
    + left. ring.
    + apply moderate_bounded_between. lra.
    + apply normal_1.
    + cbn [prodn]. rewrite zero_volatility_growth. moderate.
    + cbn [S_path]. rewrite zero_volatility_growth. cbn [zero_volatility c_S0]. moderate.
Qed.

Lemma zero_volatility_plain (N : Numpy) :
  refused N 1 1 = None -> plain_in_range N zero_volatility.
Proof.
  intros Hc. constructor.
  - exact zero_volatility_parameters.
  - exact (zero_volatility_simulation N Hc).
  - constructor. intros path Hp. rewrite zero_volatility_paths in Hp.
    destruct Hp as [<- | []].
    rewrite zero_volatility_arithmetic_payoff.
    unfold arithmetic_average. rewrite mean_singleton. cbn [zero_volatility c_strike].
    repeat split.
    + apply summable_singleton. moderate.
    + moderate.
    + moderate.
    + apply normal_0.
  - unfold arithmetic_payoffs. rewrite zero_volatility_paths. cbn [map].
    change (c_simulations zero_volatility) with 1%Z.
    apply estimate_in_range_singleton.
    rewrite zero_volatility_arithmetic_payoff. apply normal_0.
Qed.

(** ** A maturity that is not a number

    [nan <= 0] is false: the constructor accepts a [nan] for [T], and the
    derived quantities are [nan]. *)
Lemma init64_nan_maturity :
  Float64.__init__ decimal_float decimal_int (PyStr "call") (PyFloat (Fin 4))
    (PyFloat (Fin 4)) (PyFloat NaN) (PyInt 100) (PyFloat (Fin 0.03)) (PyInt 0)
    (PyFloat (Fin 0.25)) (PyInt 10000)
  = ([], Ok (mkAsianOptionMC (Some (PyStr "call")) (Some (Fin 4)) (Some (Fin 4))
               (Some NaN) (Some 100%Z) (Some (Fin 0.03)) (Some (Fin 0))
               (Some (Fin 0.25)) (Some 10000%Z) (Some NaN) (Some NaN))).
Proof.
  unfold Float64.__init__, Float64.init_body, bind at 1 2, try_except_ValueError.
  unfold Float64.coerce, bind, setattr, modify, py_assert, lift, ret.
  cbn [isinstance_str fst snd Float64.py_float py_int].
  rewrite float_of_int_fin by apply bounded_0.
  cbn [fst snd].
  unfold checks, out_of_bounds, bind, lift, ret, py_or, rbind.
  cbn [py_ne_str py_lt0 py_le0 F.ltb F.leb String.eqb Ascii.eqb Bool.eqb negb andb
       Z.ltb Z.compare fst snd].
  decide_reals. cbn [fst snd].
  unfold Float64.derived, bind, self_attr, getattr, lift, setattr, modify.
  cbn [fst snd T M r set_S0 set_strike set_T set_M set_r set_div set_sigma
       set_simulations set_option_type blank].
  rewrite float_of_int_fin by (apply small_int_bounded; cbn; lia).
  unfold truediv. rewrite Req_b_false by lra.
  reflexivity.
Qed.

(** * The properties of the specification *)

(** ** The plain estimator *)




(** ** The control-variate estimator *)




(** ** The analytic value *)




(** ** The simulated paths *)





(** ** The option type and the analytic value *)



(** ** Variance reduction *)




(** ** Construction *)

Section Construction.

Variable float_of_str : string -> option float64.
Variable int_of_str : string -> option Z.

Variables (s : string) (vS0 vK vT vM vr vdiv vsig vn : pyval).
Variables (xS0 xK xT : R) (m : Z) (xr xdiv xsig : R) (n : Z).

(** C7, as the code has it.  On arguments that [float] and [int] convert
    to finite numbers (floats, and ints within the range of float64; [int]
    truncates a float), construction fails with [ValueError] when the
    option type is neither [call] nor [put] or when one of [S0], [strike],
    [r], [div], [sigma] is negative or [T <= 0].  [M] and [simulations]
    are not checked: when the option type and these six bounds are in
    order, construction raises [OverflowError] when [int(M)] is beyond the
    range of float64, [ZeroDivisionError] when [int(M)] is zero, and
    otherwise returns the fully built object whatever the signs of [M] and
    [simulations], and prints nothing; its [time_unit] is [T / M] and its
    [discount] is [exp(-r T)] when these are within the range.  An option
    type that is not a string fails the assertion of the constructor. *)
Theorem constructor_outcome :
  float_argument vS0 xS0 -> float_argument vK xK -> float_argument vT xT ->
  integral vM m ->
  float_argument vr xr -> float_argument vdiv xdiv -> float_argument vsig xsig ->
  integral vn n ->
  (s <> "call"%string -> s <> "put"%string ->
   Float64.__init__ float_of_str int_of_str (PyStr s) vS0 vK vT vM vr vdiv vsig vn
   = ([], Raise (ValueError option_type_not_valid)))
  /\ (s = "call"%string \/ s = "put"%string ->
      xS0 < 0 \/ xK < 0 \/ xT <= 0 \/ xr < 0 \/ xdiv < 0 \/ xsig < 0 ->
      Float64.__init__ float_of_str int_of_str (PyStr s) vS0 vK vT vM vr vdiv vsig vn
      = ([], Raise (ValueError negative_inputs)))
  /\ (forall k : kind,
        s = kind_name k ->
        0 <= xS0 -> 0 <= xK -> 0 < xT -> 0 <= xr -> 0 <= xdiv -> 0 <= xsig ->
        (~ bounded (IZR m) ->
         Float64.__init__ float_of_str int_of_str (PyStr s) vS0 vK vT vM vr vdiv vsig vn
         = ([], Raise OverflowError))
        /\ (m = 0%Z ->
            Float64.__init__ float_of_str int_of_str (PyStr s) vS0 vK vT vM vr vdiv vsig vn
            = ([], Raise ZeroDivisionError))
        /\ (m <> 0%Z -> bounded (IZR m) ->
            Float64.__init__ float_of_str int_of_str (PyStr s) vS0 vK vT vM vr vdiv vsig vn
            = ([], Ok (mkAsianOptionMC (Some (PyStr s)) (Some (Fin xS0)) (Some (Fin xK))
                         (Some (Fin xT)) (Some m) (Some (Fin xr)) (Some (Fin xdiv))
                         (Some (Fin xsig)) (Some n)
                         (Some (F64.div (Fin xT) (Fin (IZR m))))
                         (Some (F64.exp (F64.mul (Fin (- xr)) (Fin xT)))))))
        /\ (m <> 0%Z -> bounded (IZR m) ->
            normal (xT / IZR m) -> normal (- xr * xT) -> normal (exp (- xr * xT)) ->
            Float64.__init__ float_of_str int_of_str (PyStr s) vS0 vK vT vM vr vdiv vsig vn
            = ([], Ok (instance_of (mkContract k xS0 xK xT m xr xdiv xsig n)))))
  /\ (forall ot : pyval,
        isinstance_str ot = false ->
        Float64.__init__ float_of_str int_of_str ot vS0 vK vT vM vr vdiv vsig vn
        = ([], Raise AssertionError)).
Proof.
  intros HS0 HK HT HM Hr Hdiv Hsig Hn.
  split; [| split; [| split]];
    [rewrite (init64_numeric float_of_str int_of_str s HS0 HK HT HM Hr Hdiv Hsig Hn) ..
    | intros ot Hot; apply init64_not_a_string, Hot].
  - intros Hc Hp. apply String.eqb_neq in Hc, Hp. now rewrite Hc, Hp.
  - intros Hs Hb.
    replace (negb (String.eqb s "call") && negb (String.eqb s "put")) with false
      by (destruct Hs as [-> | ->]; reflexivity).
    replace (Rlt_b xS0 0 || (Rlt_b xK 0 || (Rle_b xT 0 || (Rlt_b xr 0
               || (Rlt_b xdiv 0 || Rlt_b xsig 0))))) with true; [reflexivity |].
    symmetry.
    destruct Hb as [H | [H | [H | [H | [H | H]]]]];
      first [rewrite (Rlt_b_true H) | rewrite (Rle_b_true H)];
      rewrite ?orb_true_r; reflexivity.
  - intros k Hs B1 B2 B3 B4 B5 B6.
    replace (negb (String.eqb s "call") && negb (String.eqb s "put")) with false
      by (rewrite Hs; destruct k; reflexivity).
    rewrite !Rlt_b_false, Rle_b_false by lra. cbn [orb].
    split; [| split; [| split]].
    + intros Hb. rewrite overflows_true; [reflexivity |].
      unfold bounded in Hb. lra.
    + intros ->. rewrite overflows_false by apply bounded_0.
      now rewrite Req_b_true.
    + intros Hm Hb. rewrite (overflows_false Hb).
      now rewrite Req_b_false by (apply not_0_IZR, Hm).
    + intros Hm Hb N1 N2 N3. rewrite (overflows_false Hb).
      rewrite Req_b_false by (apply not_0_IZR, Hm).
      rewrite F64_div_fin by (exact N1 || apply not_0_IZR, Hm).
      rewrite F64_mul_fin by exact N2.
      rewrite F64_exp_fin by exact N3.
      rewrite Hs. reflexivity.
Qed.

End Construction.

Lemma constructor_outcome_witness :
  Float64.__init__ decimal_float decimal_int (PyStr "call") (PyFloat (Fin 4))
    (PyFloat (Fin 4)) (PyFloat (Fin 1)) (PyFloat (Fin 100)) (PyFloat (Fin 0.03))
    (PyInt 0) (PyFloat (Fin 0.25)) (PyInt 10000)
  = ([], Ok (instance_of docstring_contract)).
Proof.
  destruct (constructor_outcome decimal_float decimal_int "call"
              (float_argument_float 4) (float_argument_float 4) (float_argument_float 1)
              (integral_float 100) (float_argument_float 0.03)
              (@float_argument_int 0 bounded_0) (float_argument_float 0.25)
              (integral_int 10000)) as (_ & _ & H & _).
  destruct (H call) as (_ & _ & _ & H'); try first [reflexivity | lra].
  apply H'.
  - lia.
  - apply (in_range_M docstring_parameters).
  - apply (in_range_time_unit docstring_parameters).
  - apply (in_range_rate_time docstring_parameters).
  - apply (in_range_discount docstring_parameters).
Defined.

(** C7, as stated, fails: a negative [M] and a zero [simulations] are
    accepted; [M = 0] and [M = 0.5] (which [int] truncates to zero) end in
    [ZeroDivisionError]; an option type that is not a string ends in
    [AssertionError]; and an [int] beyond the range of float64 for [S0]
    ends in the [OverflowError] of [float(S0)]. *)
Lemma constructor_accepts_nonpositive_counts :
  Float64.__init__ decimal_float decimal_int (PyStr "call") (PyFloat (Fin 4))
    (PyFloat (Fin 4)) (PyFloat (Fin 1)) (PyInt (-5)) (PyFloat (Fin 0.03)) (PyInt 0)
    (PyFloat (Fin 0.25)) (PyInt 0)
  = ([], Ok (built call 4 4 1 (-5) 0.03 0 0.25 (Some 0%Z)))
  /\ Float64.__init__ decimal_float decimal_int (PyStr "call") (PyFloat (Fin 4))
       (PyFloat (Fin 4)) (PyFloat (Fin 1)) (PyInt 0) (PyFloat (Fin 0.03)) (PyInt 0)
       (PyFloat (Fin 0.25)) (PyInt 10000)
     = ([], Raise ZeroDivisionError)
  /\ Float64.__init__ decimal_float decimal_int (PyStr "call") (PyFloat (Fin 4))
       (PyFloat (Fin 4)) (PyFloat (Fin 1)) (PyFloat (Fin 0.5)) (PyFloat (Fin 0.03))
       (PyInt 0) (PyFloat (Fin 0.25)) (PyInt 10000)
     = ([], Raise ZeroDivisionError)
  /\ Float64.__init__ decimal_float decimal_int (PyInt 1) (PyFloat (Fin 4))
       (PyFloat (Fin 4)) (PyFloat (Fin 1)) (PyInt 100) (PyFloat (Fin 0.03)) (PyInt 0)
       (PyFloat (Fin 0.25)) (PyInt 10000)
     = ([], Raise AssertionError)
  /\ Float64.__init__ decimal_float decimal_int (PyStr "call") (PyInt (2 ^ 1024))
       (PyFloat (Fin 4)) (PyFloat (Fin 1)) (PyInt 100) (PyFloat (Fin 0.03)) (PyInt 0)
       (PyFloat (Fin 0.25)) (PyInt 10000)
     = ([], Raise OverflowError).
Proof.
  assert (Hhalf : integral (PyFloat (Fin 0.5)) 0).
  { right. exists 0.5. split; [reflexivity | apply trunc_small; lra]. }
  split; [| split; [| split; [| split]]].
  - apply (init64_in_bounds decimal_float decimal_int
             (float_argument_float 4) (float_argument_float 4) (float_argument_float 1)
             (integral_int (-5)) (float_argument_float 0.03)
             (@float_argument_int 0 bounded_0) (float_argument_float 0.25)
             (integral_int 0) call); first [reflexivity | lra | lia | idtac].
    apply small_int_bounded. cbn. lia.
  - rewrite (init64_numeric decimal_float decimal_int "call"
               (float_argument_float 4) (float_argument_float 4) (float_argument_float 1)
               (integral_int 0) (float_argument_float 0.03)
               (@float_argument_int 0 bounded_0) (float_argument_float 0.25)
               (integral_int 10000)).
    cbn [String.eqb Ascii.eqb Bool.eqb negb andb]. decide_reals.
    rewrite overflows_false by apply bounded_0. decide_reals. reflexivity.
  - rewrite (init64_numeric decimal_float decimal_int "call"
               (float_argument_float 4) (float_argument_float 4) (float_argument_float 1)
               Hhalf (float_argument_float 0.03)
               (@float_argument_int 0 bounded_0) (float_argument_float 0.25)
               (integral_int 10000)).
    cbn [String.eqb Ascii.eqb Bool.eqb negb andb]. decide_reals.
    rewrite overflows_false by apply bounded_0. decide_reals. reflexivity.
  - reflexivity.
  - unfold Float64.__init__, Float64.init_body, bind at 1 2, try_except_ValueError.
    unfold Float64.coerce, bind, setattr, modify, py_assert, lift, ret.
    cbn [isinstance_str fst snd Float64.py_float].
    rewrite float_of_int_overflow; [reflexivity |].
    rewrite <- abs_IZR. unfold overflow_threshold. apply IZR_le. now vm_compute.
Qed.

(** C8, as the code has it.  When the coercion of a parameter fails with
    [ValueError], the constructor catches the error: it prints
    [Error passing Options parameters] and nothing else, leaves the
    attributes not yet assigned unset, and goes on with the checks of the
    arguments as they were passed and with the derived quantities; an
    exception that reaches the caller is one of these later steps
    ([ValueError] of a failed check, [TypeError], [AttributeError],
    [ZeroDivisionError], or the [OverflowError] of [float(self.M)]), never
    one for the failed coercion. *)
Theorem coercion_failure_is_caught (float_of_str : string -> option float64)
  (int_of_str : string -> option Z)
  (ot vS0 vK vT vM vr vdiv vsig vn : pyval) (msg : string) (self : AsianOptionMC)
  (out : list string) :
  Float64.coerce float_of_str int_of_str ot vS0 vK vT vM vr vdiv vsig vn (blank, [])
  = (Raise (ValueError msg), (self, out)) ->
  fst (Float64.__init__ float_of_str int_of_str ot vS0 vK vT vM vr vdiv vsig vn)
  = ["Error passing Options parameters"%string]
  /\ Float64.__init__ float_of_str int_of_str ot vS0 vK vT vM vr vdiv vsig vn
     = match bind (checks ot vS0 vK vT vr vdiv vsig) (fun _ => Float64.derived)
               (self, [error_passing]) with
       | (Ok _, (self', out')) => (out', Ok self')
       | (Raise e, (_, out')) => (out', Raise e)
       end
  /\ forall e : exn,
       snd (Float64.__init__ float_of_str int_of_str ot vS0 vK vT vM vr vdiv vsig vn)
       = Raise e ->
       e = ValueError option_type_not_valid \/ e = ValueError negative_inputs
       \/ e = TypeError \/ e = AttributeError \/ e = ZeroDivisionError
       \/ e = OverflowError.
Proof.
  intros H.
  destruct (init64_caught_outcome _ _ _ _ _ _ _ _ _ _ _ H) as [Hout Hexn].
  split; [exact Hout |]. split; [| exact Hexn].
  apply (init64_after_caught _ _ _ _ _ _ _ _ _ _ _ H).
Qed.

Lemma coercion_failure_is_caught_witness :
  fst (Float64.__init__ decimal_float decimal_int (PyStr "call") (PyFloat (Fin 4))
         (PyFloat (Fin 4)) (PyFloat (Fin 1)) (PyInt 100) (PyFloat (Fin 0.03)) (PyInt 0)
         (PyFloat (Fin 0.25)) (PyStr "abc"))
  = ["Error passing Options parameters"%string].
Proof.
  apply (@coercion_failure_is_caught decimal_float decimal_int (PyStr "call")
           (PyFloat (Fin 4)) (PyFloat (Fin 4)) (PyFloat (Fin 1)) (PyInt 100)
           (PyFloat (Fin 0.03)) (PyInt 0) (PyFloat (Fin 0.25)) (PyStr "abc")
           could_not_convert
           (without_simulations call 4 4 1 100 0.03 0 0.25) []).
  apply (@coerce64_bad_simulations decimal_float decimal_int call
           (PyFloat (Fin 4)) (PyFloat (Fin 4)) (PyFloat (Fin 1)) (PyInt 100)
           (PyFloat (Fin 0.03)) (PyInt 0) (PyFloat (Fin 0.25)) "abc"
           4 4 1 100 0.03 0 0.25
           (float_argument_float 4) (float_argument_float 4) (float_argument_float 1)
           (integral_int 100) (float_argument_float 0.03)
           (@float_argument_int 0 bounded_0) (float_argument_float 0.25) eq_refl).
Defined.

(** C8, as stated, fails: with the non-numeric string [abc] for
    [simulations] nothing is raised; the message is printed and the caller
    gets an object without the attribute [simulations]. *)
Lemma constructor_returns_partial_object :
  Float64.__init__ decimal_float decimal_int (PyStr "call") (PyFloat (Fin 4))
    (PyFloat (Fin 4)) (PyFloat (Fin 1)) (PyInt 100) (PyFloat (Fin 0.03)) (PyInt 0)
    (PyFloat (Fin 0.25)) (PyStr "abc")
  = (["Error passing Options parameters"%string],
     Ok (mkAsianOptionMC (Some (PyStr "call")) (Some (Fin 4)) (Some (Fin 4))
           (Some (Fin 1)) (Some 100%Z) (Some (Fin 0.03)) (Some (Fin 0))
           (Some (Fin 0.25)) None
           (Some (Fin (1 / 100))) (Some (Fin (exp (- (0.03) * 1)))))).
Proof.
  rewrite <- built_docstring.
  apply (@init64_bad_simulations decimal_float decimal_int call
           (PyFloat (Fin 4)) (PyFloat (Fin 4)) (PyFloat (Fin 1)) (PyInt 100)
           (PyFloat (Fin 0.03)) (PyInt 0) (PyFloat (Fin 0.25)) "abc"
           4 4 1 100 0.03 0 0.25
           (float_argument_float 4) (float_argument_float 4) (float_argument_float 1)
           (integral_int 100) (float_argument_float 0.03)
           (@float_argument_int 0 bounded_0) (float_argument_float 0.25) eq_refl);
    first [lra | lia | idtac].
  apply small_int_bounded. cbn. lia.
Qed.

(** ** Queries on a constructed contract *)




(** ** Construction, whatever the arguments *)

(** X1. Whenever the constructor returns an object, whatever the types of
    the arguments: the option type is the string [call] or [put]; each of
    [S0], [strike], [r], [div], [sigma] is an [int] or a [float] for which
    [< 0] is false (not below zero, or [nan]) and [T] one for which [<= 0]
    is false (above zero, or [nan]); each of the six is a [float] or an
    [int] within the range of float64; [M] converts to a non-zero integer
    within that range; and every attribute of the object is set to the
    converted argument, [time_unit] to [T / float(M)] and [discount] to
    [exp(-r T)], but for [simulations], which is missing exactly when its
    conversion raised [ValueError] (the message was then printed). *)
Theorem constructor_returns_checked_object
  (float_of_str : string -> option float64) (int_of_str : string -> option Z)
  (ot vS0 vK vT vM vr vdiv vsig vn : pyval) (out : list string) (o : AsianOptionMC) :
  Float64.__init__ float_of_str int_of_str ot vS0 vK vT vM vr vdiv vsig vn = (out, Ok o) ->
  (ot = PyStr "call" \/ ot = PyStr "put")
  /\ (py_lt0 vS0 = Ok false /\ py_lt0 vK = Ok false /\ py_le0 vT = Ok false
      /\ py_lt0 vr = Ok false /\ py_lt0 vdiv = Ok false /\ py_lt0 vsig = Ok false)
  /\ (convertible vS0 /\ convertible vK /\ convertible vT /\ convertible vr
      /\ convertible vdiv /\ convertible vsig)
  /\ exists (m : Z) (sim : option Z),
       py_int int_of_str vM = Ok m /\ m <> 0%Z /\ bounded (IZR m)
       /\ o = mkAsianOptionMC (Some ot) (Some (float_value vS0)) (Some (float_value vK))
                (Some (float_value vT)) (Some m) (Some (float_value vr))
                (Some (float_value vdiv)) (Some (float_value vsig)) sim
                (Some (F64.div (float_value vT) (of_int m)))
                (Some (F64.exp (F64.mul (F64.neg (float_value vr)) (float_value vT))))
       /\ ((exists n, py_int int_of_str vn = Ok n /\ sim = Some n /\ out = [])
           \/ (exists msg, py_int int_of_str vn = Raise (ValueError msg)
               /\ sim = None /\ out = [error_passing])).
Proof. apply init64_ok_inv. Qed.

Lemma constructor_returns_checked_object_witness :
  Float64.__init__ decimal_float decimal_int (PyStr "call") (PyFloat (Fin 4))
    (PyFloat (Fin 4)) (PyFloat NaN) (PyInt 100) (PyFloat (Fin 0.03)) (PyInt 0)
    (PyFloat (Fin 0.25)) (PyInt 10000)
  = ([], Ok (mkAsianOptionMC (Some (PyStr "call")) (Some (Fin 4)) (Some (Fin 4))
               (Some NaN) (Some 100%Z) (Some (Fin 0.03)) (Some (Fin 0))
               (Some (Fin 0.25)) (Some 10000%Z) (Some NaN) (Some NaN)))
  /\ py_le0 (PyFloat NaN) = Ok false.
Proof.
  assert (H : Float64.__init__ decimal_float decimal_int (PyStr "call") (PyFloat (Fin 4))
                (PyFloat (Fin 4)) (PyFloat NaN) (PyInt 100) (PyFloat (Fin 0.03))
                (PyInt 0) (PyFloat (Fin 0.25)) (PyInt 10000)
              = ([], Ok (mkAsianOptionMC (Some (PyStr "call")) (Some (Fin 4))
                           (Some (Fin 4)) (Some NaN) (Some 100%Z) (Some (Fin 0.03))
                           (Some (Fin 0)) (Some (Fin 0.25)) (Some 10000%Z) (Some NaN)
                           (Some NaN)))).
  { exact init64_nan_maturity. }
  split; [exact H |].
  exact (proj1 (proj2 (proj2 (proj1 (proj2
           (constructor_returns_checked_object _ _ _ _ _ _ _ _ _ _ _ H)))))).
Defined.



(** X3. With the option type [call] or [put], a string passed for [S0]
    ends in the [TypeError] of the comparison [S0 < 0], also when the
    string is a numeric literal; the message of the [try] block is printed
    exactly when the string is not a literal.  The other arguments are
    floats or ints that [float] converts (an [int] within the range of
    float64), [M] and [simulations] ints. *)
Theorem string_for_S0_is_a_TypeError
  (float_of_str : string -> option float64) (int_of_str : string -> option Z)
  (k : kind) (t : string) (vK vT vr vdiv vsig : pyval) (m n : Z) :
  convertible vK -> convertible vT -> convertible vr ->
  convertible vdiv -> convertible vsig ->
  Float64.__init__ float_of_str int_of_str (PyStr (kind_name k)) (PyStr t) vK vT
    (PyInt m) vr vdiv vsig (PyInt n)
  = (match float_of_str t with Some _ => [] | None => [error_passing] end,
     Raise TypeError).
Proof.
  intros HK HT Hr Hdiv Hsig.
  unfold Float64.__init__, Float64.init_body, bind at 1 2, try_except_ValueError.
  unfold Float64.coerce, bind, setattr, modify, py_assert, lift, ret.
  cbn [isinstance_str fst snd Float64.py_float py_int].
  destruct (float_of_str t) as [x |].
  - rewrite (py_float64_convertible float_of_str _ (convertible_number _ HK) HK),
      (py_float64_convertible float_of_str _ (convertible_number _ HT) HT),
      (py_float64_convertible float_of_str _ (convertible_number _ Hr) Hr),
      (py_float64_convertible float_of_str _ (convertible_number _ Hdiv) Hdiv),
      (py_float64_convertible float_of_str _ (convertible_number _ Hsig) Hsig).
    unfold checks, bind, lift, ret. cbn [fst snd].
    now destruct k.
  - unfold print, modify, checks, bind, lift, ret. cbn [fst snd].
    now destruct k.
Qed.

Lemma string_for_S0_is_a_TypeError_witness :
  Float64.__init__ decimal_float decimal_int (PyStr "call") (PyStr "4") (PyFloat (Fin 4))
    (PyFloat (Fin 1)) (PyInt 100) (PyFloat (Fin 0.03)) (PyInt 0) (PyFloat (Fin 0.25))
    (PyInt 10000)
  = ([], Raise TypeError).
Proof.
  apply (@string_for_S0_is_a_TypeError decimal_float decimal_int call "4"
           (PyFloat (Fin 4)) (PyFloat (Fin 1)) (PyFloat (Fin 0.03)) (PyInt 0)
           (PyFloat (Fin 0.25)) 100 10000 I I I bounded_0 I).
Defined.

(** X4. When the conversion of [M] raises [ValueError] (a string that is
    not a literal, a [nan]), [S0], [strike] and [T] are numbers that
    [float] converts and the six compared arguments are within the bounds,
    the constructor prints the message of the [try] block and then fails
    with [AttributeError] at [self.T / float(self.M)]: no object is
    returned. *)
Theorem unconvertible_M_is_an_AttributeError
  (float_of_str : string -> option float64) (int_of_str : string -> option Z)
  (k : kind) (vS0 vK vT vM vr vdiv vsig vn : pyval) (xS0 xK xT xr xdiv xsig : R)
  (msg : string) :
  float_argument vS0 xS0 -> float_argument vK xK -> float_argument vT xT ->
  numeric vr xr -> numeric vdiv xdiv -> numeric vsig xsig ->
  py_int int_of_str vM = Raise (ValueError msg) ->
  0 <= xS0 -> 0 <= xK -> 0 < xT -> 0 <= xr -> 0 <= xdiv -> 0 <= xsig ->
  Float64.__init__ float_of_str int_of_str (PyStr (kind_name k)) vS0 vK vT vM vr vdiv
    vsig vn
  = ([error_passing], Raise AttributeError).
Proof.
  intros HS0 HK HT Hr Hdiv Hsig HM B1 B2 B3 B4 B5 B6.
  assert (Hc : Float64.coerce float_of_str int_of_str (PyStr (kind_name k)) vS0 vK vT vM
                 vr vdiv vsig vn (blank, [])
               = (Raise (ValueError msg),
                  (mkAsianOptionMC (Some (PyStr (kind_name k))) (Some (Fin xS0))
                     (Some (Fin xK)) (Some (Fin xT)) None None None None None None None,
                   []))).
  { unfold Float64.coerce, bind, setattr, modify, py_assert, lift, ret.
    cbn [isinstance_str fst snd].
    rewrite (py_float64_argument float_of_str HS0),
      (py_float64_argument float_of_str HK),
      (py_float64_argument float_of_str HT), HM. reflexivity. }
  rewrite (init64_after_caught _ _ _ _ _ _ _ _ _ _ _ Hc).
  unfold bind at 1.
  rewrite checks_pass.
  - reflexivity.
  - destruct k; [now left | now right].
  - rewrite (out_of_bounds_numeric (float_argument_numeric HS0)
               (float_argument_numeric HK) (float_argument_numeric HT) Hr Hdiv Hsig).
    rewrite !Rlt_b_false, Rle_b_false by lra. reflexivity.
Qed.

Lemma unconvertible_M_is_an_AttributeError_witness :
  Float64.__init__ decimal_float decimal_int (PyStr "call") (PyFloat (Fin 4))
    (PyFloat (Fin 4)) (PyFloat (Fin 1)) (PyFloat NaN) (PyFloat (Fin 0.03)) (PyInt 0)
    (PyFloat (Fin 0.25)) (PyInt 10000)
  = ([error_passing], Raise AttributeError).
Proof.
  apply (@unconvertible_M_is_an_AttributeError decimal_float decimal_int call
           (PyFloat (Fin 4)) (PyFloat (Fin 4)) (PyFloat (Fin 1)) (PyFloat NaN)
           (PyFloat (Fin 0.03)) (PyInt 0) (PyFloat (Fin 0.25)) (PyInt 10000)
           4 4 1 0.03 0 0.25 nan_to_integer
           (float_argument_float 4) (float_argument_float 4) (float_argument_float 1)
           (numeric_float 0.03) (numeric_int 0) (numeric_float 0.25) eq_refl);
    lra.
Defined.

(** ** Queries on objects and contracts *)

(** X5. On an object without the attribute [simulations] (as the
    constructor returns when that conversion fails) and whose [sigma], if
    set, has a square within the range of float64, [price_path],
    [MCPayoff] and [value] fail with [AttributeError], and so does
    [value_with_control_variate] when [M], if set, is not zero and within
    the range; [price_path] has reseeded the generator before failing.
    [GeometricAsianOption] does not read the attribute and returns what it
    returns with it. *)
Theorem queries_without_simulations (N : Numpy) (self : AsianOptionMC)
  (s : rng N) :
  simulations self = None ->
  (forall sg, sigma self = Some sg -> exists q, F64.pow2 sg = Ok q) ->
  Float64.price_path N self s = (Raise AttributeError, np_random_seed N seed)
  /\ fst (Float64.MCPayoff N self s) = Raise AttributeError
  /\ fst (Float64.value N self s) = Raise AttributeError
  /\ ((forall m, M self = Some m -> m <> 0%Z /\ bounded (IZR m)) ->
      fst (Float64.value_with_control_variate N self s) = Raise AttributeError)
  /\ (forall n : Z,
        Float64.GeometricAsianOption (set_simulations n self)
        = Float64.GeometricAsianOption self).
Proof.
  intros H Hsq. split; [| split; [| split; [| split]]].
  - apply (price_path64_missing N self H Hsq).
  - destruct (MCPayoff64_missing N self H Hsq s) as [s' ->]. reflexivity.
  - apply (value64_missing N self H Hsq).
  - apply (value_with_control_variate64_missing N self H Hsq).
  - intros n. destruct self. reflexivity.
Qed.

Lemma queries_without_simulations_witness :
  fst (Float64.value quiet_numpy (built call 4 4 1 100 0.03 0 0.25 None) 0%nat)
  = Raise AttributeError.
Proof.
  apply (@queries_without_simulations quiet_numpy
           (built call 4 4 1 100 0.03 0 0.25 None) 0%nat eq_refl).
  intros sg [= <-]. eexists. apply F64_pow2_fin.
  apply moderate_normal_pos. lra.
Defined.

(** X6. No query reads the dividend yield: setting the attribute [div] to
    any value changes neither the analytic value, nor the paths, nor the
    payoffs, nor either estimate. *)
Theorem div_is_never_read (G : Generator) (self : AsianOptionMC) (d : float64)
  (s : rng G) :
  GeometricAsianOption (set_div d self) = GeometricAsianOption self
  /\ price_path G (set_div d self) s = price_path G self s
  /\ MCPayoff G (set_div d self) s = MCPayoff G self s
  /\ value G (set_div d self) s = value G self s
  /\ value_with_control_variate G (set_div d self) s
     = value_with_control_variate G self s.
Proof. destruct self. repeat split. Qed.

























(** X19. On an object with the attributes [sigma], [T], [M], [r], [S0],
    [strike] and [discount] set, [GeometricAsianOption] raises
    [OverflowError] when [sigma ** 2] is beyond the range of float64 or
    when one of the integers [M + 1], [2 M + 1], [6 M M] is too large to
    convert to a float; otherwise it raises [ZeroDivisionError] when [M]
    is zero or [strike] is zero; otherwise it returns a value (which may
    be [nan] or infinite). *)
Theorem GeometricAsianOption_fails_on_zero_divisors (self : AsianOptionMC)
  (sg t rate s0 k disc : float64) (m : Z) :
  sigma self = Some sg -> T self = Some t -> M self = Some m -> r self = Some rate ->
  S0 self = Some s0 -> strike self = Some k -> discount self = Some disc ->
  (F64.pow2 sg = Raise OverflowError ->
   Float64.GeometricAsianOption self = Raise OverflowError)
  /\ (forall q, F64.pow2 sg = Ok q ->
      (overflows (IZR (m + 1)) || overflows (IZR (2 * m + 1))
       || overflows (IZR (6 * m * m)) = true ->
       Float64.GeometricAsianOption self = Raise OverflowError)
      /\ (overflows (IZR (m + 1)) || overflows (IZR (2 * m + 1))
          || overflows (IZR (6 * m * m)) = false ->
          (m = 0%Z \/ k = Fin 0 ->
           Float64.GeometricAsianOption self = Raise ZeroDivisionError)
          /\ (m <> 0%Z -> k <> Fin 0 ->
              exists v, Float64.GeometricAsianOption self = Ok v)))
  /\ ((exists q, F64.pow2 sg = Ok q) \/ F64.pow2 sg = Raise OverflowError).
Proof.
  intros Hsg Ht Hm Hr Hs0 Hk Hd.
  split; [| split].
  - intros Hq. eapply GeometricAsianOption64_square; eassumption.
  - intros q Hq. split.
    + intros Ho. eapply GeometricAsianOption64_steps; eassumption.
    + intros Ho. split.
      * intros [Hm0 | Hk0].
        -- eapply GeometricAsianOption64_no_step; eassumption.
        -- destruct (Z.eq_dec m 0) as [Hm0 | Hm0];
             [eapply GeometricAsianOption64_no_step; eassumption |].
           erewrite GeometricAsianOption64_prefix by eassumption.
           cbn zeta. subst k. now rewrite truediv_zero.
      * intros Hm0 Hk0.
        erewrite GeometricAsianOption64_prefix by eassumption.
        cbn zeta.
        destruct (truediv_cases s0 k) as [[E _] | [_ ->]]; [contradiction |].
        cbn [rbind]. eexists. reflexivity.
  - destruct (F64.pow2 sg) as [q | e] eqn:E; [left; now exists q | right].
    now rewrite (F64_pow2_raises _ E).
Qed.

Lemma GeometricAsianOption_fails_on_zero_divisors_witness :
  Float64.GeometricAsianOption (instance_of huge_volatility) = Raise OverflowError.
Proof.
  apply (@GeometricAsianOption_fails_on_zero_divisors (instance_of huge_volatility)
           (Fin (IZR (2 ^ 600))) (Fin 1) (Fin 0) (Fin 1) (Fin 1)
           (Fin (exp (- 0 * 1))) 1
           eq_refl eq_refl eq_refl eq_refl eq_refl eq_refl eq_refl).
  exact huge_volatility_square.
Defined.

(** X20. On any object, whatever attributes it has, [price_path],
    [MCPayoff] and [value] raise nothing but [AttributeError] (an attribute
    is missing), the [OverflowError] of [sigma ** 2], the [ValueError] of
    [np.random.randn] for a negative dimension and the exception with
    which [np.random.randn] refuses a shape it cannot create. *)
Theorem simulation_raises_only (N : Numpy) (self : AsianOptionMC) (s : rng N)
  (e : exn) :
  fst (Float64.price_path N self s) = Raise e
  \/ fst (Float64.MCPayoff N self s) = Raise e
  \/ fst (Float64.value N self s) = Raise e ->
  e = AttributeError \/ e = OverflowError \/ e = ValueError negative_dimensions
  \/ exists n m : Z, refused N n m = Some e.
Proof.
  intros [H | [H | H]].
  - exact (price_path64_raises N self s H).
  - exact (MCPayoff64_raises N self s H).
  - exact (value64_raises N self s H).
Qed.

Lemma simulation_raises_only_witness :
  OverflowError = AttributeError \/ OverflowError = OverflowError
  \/ OverflowError = ValueError negative_dimensions
  \/ exists n m : Z, refused quiet_numpy n m = Some OverflowError.
Proof.
  apply (@simulation_raises_only quiet_numpy (instance_of huge_volatility) 0%nat).
  right. right. apply value64_huge_volatility.
Defined.

(** X21. On any object, [GeometricAsianOption] and
    [value_with_control_variate] raise nothing but [AttributeError],
    [ZeroDivisionError], [OverflowError] (of [sigma ** 2] or of the
    conversion of an integer to a float) and what [np.random.randn]
    raises: the arrays that [value_with_control_variate] subtracts always
    have the same length, that of the array of paths, so the subtraction
    itself never fails to broadcast. *)
Theorem control_variate_raises_only (N : Numpy) (self : AsianOptionMC) (s : rng N)
  (e : exn) :
  (Float64.GeometricAsianOption self = Raise e
   \/ fst (Float64.value_with_control_variate N self s) = Raise e ->
   e = AttributeError \/ e = ZeroDivisionError \/ e = OverflowError
   \/ e = ValueError negative_dimensions \/ exists n m : Z, refused N n m = Some e)
  /\ (forall pay P,
        fst (Float64.MCPayoff N self s) = Ok pay ->
        fst (Float64.price_path N self s) = Ok P ->
        length pay = length P)
  /\ (forall a b : list float64,
        length a = length b -> Float64.np_sub a b = Ok (map2 F64.sub a b)).
Proof.
  split; [| split].
  - intros [H | H].
    + destruct (GeometricAsianOption64_raises self H) as [-> | [-> | ->]]; auto.
    + destruct (value_with_control_variate64_raises N self s H)
        as [-> | [-> | [-> | [-> | H']]]]; auto 10.
  - intros pay P Hpay HP.
    destruct (MCPayoff64_cases N self s) as [(pay' & P' & H1 & H2 & H3) | (e' & H1 & _)].
    + rewrite Hpay in H1. rewrite HP in H2. congruence.
    + rewrite Hpay in H1. discriminate.
  - intros a b. apply np_sub64_same_length.
Qed.

Lemma control_variate_raises_only_witness :
  OverflowError = AttributeError \/ OverflowError = ZeroDivisionError
  \/ OverflowError = OverflowError \/ OverflowError = ValueError negative_dimensions
  \/ exists n m : Z, refused quiet_numpy n m = Some OverflowError.
Proof.
  apply (proj1 (@control_variate_raises_only quiet_numpy (instance_of huge_volatility)
                  0%nat OverflowError)).
  left. exact GeometricAsianOption64_huge_volatility.
Defined.

(** X22. With a valid option type and the six compared arguments numbers
    that [float] converts and within their bounds, an [M] that is [0], or
    a float strictly between [-1] and [1] (which [int] truncates to [0]),
    makes the constructor raise [ZeroDivisionError] at [T / M], after
    every check has passed and without printing. *)
Theorem zero_steps_divide_by_zero
  (float_of_str : string -> option float64) (int_of_str : string -> option Z)
  (k : kind) (vS0 vK vT vM vr vdiv vsig vn : pyval)
  (xS0 xK xT xr xdiv xsig : R) (n : Z) :
  float_argument vS0 xS0 -> float_argument vK xK -> float_argument vT xT ->
  float_argument vr xr -> float_argument vdiv xdiv -> float_argument vsig xsig ->
  integral vn n ->
  0 <= xS0 -> 0 <= xK -> 0 < xT -> 0 <= xr -> 0 <= xdiv -> 0 <= xsig ->
  vM = PyInt 0 \/ (exists x, vM = PyFloat (Fin x) /\ -1 < x < 1) ->
  Float64.__init__ float_of_str int_of_str (PyStr (kind_name k)) vS0 vK vT vM vr vdiv
    vsig vn
  = ([], Raise ZeroDivisionError).
Proof.
  intros HS0 HK HT Hr Hdiv Hsig Hn B1 B2 B3 B4 B5 B6 HM.
  assert (HM0 : integral vM 0).
  { destruct HM as [-> | (x & -> & Hx)]; [now left | right].
    exists x. split; [reflexivity | now apply trunc_small]. }
  rewrite (init64_numeric float_of_str int_of_str (kind_name k)
             HS0 HK HT HM0 Hr Hdiv Hsig Hn).
  replace (negb (String.eqb (kind_name k) "call") && negb (String.eqb (kind_name k) "put"))
    with false by (destruct k; reflexivity).
  rewrite !Rlt_b_false, Rle_b_false by lra. cbn [orb].
  rewrite overflows_false by apply bounded_0.
  now rewrite Req_b_true.
Qed.

Lemma zero_steps_divide_by_zero_witness :
  Float64.__init__ decimal_float decimal_int (PyStr "call") (PyFloat (Fin 4))
    (PyFloat (Fin 4)) (PyFloat (Fin 1)) (PyFloat (Fin 0.5)) (PyFloat (Fin 0.03))
    (PyInt 0) (PyFloat (Fin 0.25)) (PyInt 10000)
  = ([], Raise ZeroDivisionError).
Proof.
  apply (@zero_steps_divide_by_zero decimal_float decimal_int call
           _ _ _ _ _ _ _ _ 4 4 1 0.03 0 0.25 10000
           (float_argument_float 4) (float_argument_float 4) (float_argument_float 1)
           (float_argument_float 0.03) (@float_argument_int 0 bounded_0)
           (float_argument_float 0.25) (integral_int 10000)); try lra.
  right. exists 0.5. split; [reflexivity | lra].
Defined.

